(** * The roller coordinator (coordinator/manager.go)

    A shallow embedding of the coordinator's [Manager]: the session table,
    the dispatcher tick of [Loop], [StartProofGenerationSession],
    [SelectRoller], [HandleZkProof] and [CollectProofs], followed by the
    properties of the specification that concern them.

    Conventions.
    - Go maps and channels are reference values: a [session] is copied by
      value into [m.sessions], into the collector goroutine and into the
      handler, and all copies share one [rollers] map and one [finishChan].
      Both live in a small heap of the model and a session holds references.
    - A Go [error] is [option string], [None] being [nil].
    - Code run by [defer] is written where Go runs it: after the body.
    - What the coordinator calls but does not own (the orm, the verifier,
      the websocket write, encoding/json, math/rand, the clock) is an
      interface, an oracle carried in the state, or an argument.
    - [orm_log] is a history variable: the calls made on the orm so far.
    - The functions are first given one call at a time, then interleaved
      at the grain of a [select] case ([run]) and at the grain of the lock
      operations on [m.mu] ([step]).  The context, the running flag and
      the websocket server of the [Manager] play no part in them. *)

From Stdlib Require Import ZArith NArith Lia DecimalString Strings.Byte.
From stdpp Require Import gmap strings list fin_maps pretty.

Local Open Scope string_scope.
Local Open Scope list_scope.

Definition error := string.
Definition bytes := list Byte.byte.

(** ** Package scroll-tech/database/orm *)

Module orm.

(** The block statuses manager.go writes and queries. *)
Inductive BlockStatus :=
| BlockUnassigned
| BlockAssigned
| BlockProved
| BlockVerified
| BlockFailed.

#[global] Instance BlockStatus_eq_dec : EqDecision BlockStatus.
Proof. solve_decision. Defined.

End orm.
Export orm.

(** ** Package go-ethereum/core/types *)

(** [types.BlockResult]: the block number (a big integer) and the trace. *)
Record BlockResult := {
  Number : Z;
  Trace : bytes;
}.

(** [Uint64] of math/big's Int: the low 64 bits of the magnitude. *)
Definition Uint64 (x : Z) : N := Z.to_N (Z.abs x mod 2 ^ 64).

(** ** Package scroll-tech/common/message *)

Module message.

Inductive MsgType := Error | Register | BlockTrace | Proof | Unknown (tag : nat).

Inductive RespStatus := StatusOk | StatusProofError.

Record Msg := {
  Type_ : MsgType;
  Payload : bytes;
}.

Record BlockTraces := {
  bt_ID : N;
  Traces : BlockResult;
}.

Record ZkProof := {
  zk_Proof : bytes;
  FinalPair : bytes;
}.

Record ProofMsg := {
  Status : RespStatus;
  Error_ : string;
  ID : N;
  Proof_ : ZkProof;
}.

#[global] Instance RespStatus_eq_dec : EqDecision RespStatus.
Proof. solve_decision. Defined.

End message.

(** ** The orm interface *)

Inductive FieldValue :=
| FStatus (s : BlockStatus)
| FNumber (n : N).

(** [orm.BlockResultOrm], restricted to the three methods manager.go calls.
    A method maps the database to its reply and the database after the call. *)
Class BlockResultOrm (Db : Type) := {
  GetBlockResults :
    list (string * FieldValue) -> list string -> Db ->
    (list BlockResult * option error) * Db;
  UpdateBlockStatus : N -> BlockStatus -> Db -> option error * Db;
  UpdateProofByNumber : N -> bytes -> bytes -> N -> Db -> option error * Db;
}.

(** History of the calls made on the orm, in order, with the error replied. *)
Inductive OrmCall :=
| CallGetBlockResults (fields : list (string * FieldValue)) (args : list string)
                      (rows : list BlockResult) (err : option error)
| CallUpdateBlockStatus (id : N) (status : BlockStatus) (err : option error)
| CallUpdateProofByNumber (id : N) (proof final_pair : bytes) (secs : N)
                          (err : option error).

(** The statuses passed to [UpdateBlockStatus] for block [id], in order. *)
Fixpoint status_writes (id : N) (log : list OrmCall) : list BlockStatus :=
  match log with
  | [] => []
  | CallUpdateBlockStatus id' st _ :: log' =>
      if decide (id' = id) then st :: status_writes id log'
      else status_writes id log'
  | _ :: log' => status_writes id log'
  end.

(** The calls that are queries. *)
Definition is_query (c : OrmCall) : bool :=
  match c with
  | CallGetBlockResults _ _ _ _ => true
  | _ => false
  end.

(** ** manager.go: types *)

Definition proofAndPkBufferSize : nat := 10.

Inductive rollerStatus :=
| rollerAssigned
| rollerProofValid
| rollerProofInvalid.

#[global] Instance rollerStatus_eq_dec : EqDecision rollerStatus.
Proof. solve_decision. Defined.

Record rollerProofStatus := {
  pk : string;
  status : rollerStatus;
}.

(** A reference into the heap of maps or of channels. *)
Definition ref := nat.

Record session := {
  id : N;
  rollers : ref;                       (* map[string]rollerStatus *)
  roller_names : gmap string string;
  startTime : Z;                       (* seconds *)
  finishChan : ref;                    (* chan rollerProofStatus *)
}.

(** Modelled from the spec: [SessionInfo] and [newSessionInfo] are declared
    in a file of the package that is not under src/.  The spec calls it a
    snapshot of a session that ended in failure, plus an error string. *)
Record SessionInfo := {
  info_ID : N;
  info_Status : BlockStatus;
  info_StartTime : Z;
  info_Finished : bool;
  info_Rollers : gmap string string;
  info_Error : string;
}.

Definition newSessionInfo (s : session) (st : BlockStatus) (errMsg : string)
    (finished : bool) : SessionInfo :=
  {| info_ID := id s; info_Status := st; info_StartTime := startTime s;
     info_Finished := finished; info_Rollers := roller_names s;
     info_Error := errMsg |}.

(** [*Roller]: the pointer ([addr]), the identity presented at the
    handshake and the atomic closed flag. *)
Record Roller := {
  addr : nat;
  Name : string;
  PublicKey : string;
  closed : bool;
}.

Definition isClosed (r : Roller) : bool := closed r.

(** Modelled from the spec: the connection registry [m.server.conns] is
    declared outside src/.  [getAll] returns a copy of the live connections
    and [delete] removes one connection, idempotently. *)
Definition conns_getAll (cs : list Roller) : list Roller := cs.

Definition conns_delete (c : Roller) (cs : list Roller) : list Roller :=
  filter (fun r => addr r ≠ addr c) cs.

Record RollerManagerConfig := {
  Endpoint : string;
  VerifierEndpoint : string;
  CollectionTime : Z;
  OrderSession : string;
}.

(** [verifier.Verifier]: one call, replying a verdict and an error. *)
Record Verifier := {
  VerifyProof : BlockResult -> message.ZkProof -> bool * option error;
}.

(** The websocket write of a roller connection, [roller.sendMessage]. *)
Class Transport := {
  sendMessage : Roller -> message.Msg -> option error;
}.

(** encoding/json at the three types manager.go encodes or decodes. *)
Class Json := {
  json_Marshal_BlockTraces : message.BlockTraces -> bytes * option error;
  json_Unmarshal_Msg : bytes -> error + message.Msg;
  json_Unmarshal_ProofMsg : bytes -> error + message.ProofMsg;
}.

(** ** Outcomes and the state monad of the model *)

(** A call returns, or dereferences a nil orm (the process panics), or
    blocks on a full [finishChan]. *)
Inductive Res (S A : Type) :=
| Ret (a : A) (s : S)
| NilPanic
| SendBlocked.
Arguments Ret {S A} a s.
Arguments NilPanic {S A}.
Arguments SendBlocked {S A}.

Definition St (S A : Type) := S -> Res S A.

Definition ret {S A} (a : A) : St S A := fun s => Ret a s.

Definition bind {S A B} (c : St S A) (k : A -> St S B) : St S B :=
  fun s => match c s with
           | Ret a s' => k a s'
           | NilPanic => NilPanic
           | SendBlocked => SendBlocked
           end.

Definition get {S} : St S S := fun s => Ret s s.
Definition modify {S} (f : S -> S) : St S unit := fun s => Ret tt (f s).

Notation "'let!' x := c 'in' k" := (bind c (fun x => k))
  (at level 10, x name, c at level 200, k at level 200).
Notation "'let!' ' pat := c 'in' k" :=
  (bind c (fun x => match x with pat => k end))
  (at level 10, pat pattern, c at level 200, k at level 200).
Notation "'run!' c 'in' k" := (bind c (fun _ => k))
  (at level 10, c at level 200, k at level 200).

(** ** manager.go: the Manager *)

Section Coordinator.
Context {Db : Type} {ORM : BlockResultOrm Db} {TR : Transport} {JS : Json}.

Record Manager := {
  cfg : RollerManagerConfig;
  conns : list Roller;                              (* m.server.conns *)
  sessions : gmap N session;
  failedSessionInfos : gmap N SessionInfo;
  verifier : option Verifier;                       (* nil when disabled *)
  orm_of : option Db;                               (* m.orm, nil in tests *)
  roller_maps : gmap ref (gmap string rollerStatus);   (* heap of maps *)
  channels : gmap ref (list rollerProofStatus);        (* heap of channels *)
  next_ref : ref;
  goroutines : list (N * session);       (* CollectProofs calls spawned *)
  rand : list nat;                       (* what math/rand will draw *)
  orm_log : list OrmCall;
}.

Definition set_conns (f : list Roller -> list Roller) (m : Manager) :=
  {| cfg := cfg m; conns := f (conns m); sessions := sessions m;
     failedSessionInfos := failedSessionInfos m; verifier := verifier m;
     orm_of := orm_of m; roller_maps := roller_maps m;
     channels := channels m; next_ref := next_ref m;
     goroutines := goroutines m; rand := rand m; orm_log := orm_log m |}.

Definition set_sessions (f : gmap N session -> gmap N session) (m : Manager) :=
  {| cfg := cfg m; conns := conns m; sessions := f (sessions m);
     failedSessionInfos := failedSessionInfos m; verifier := verifier m;
     orm_of := orm_of m; roller_maps := roller_maps m;
     channels := channels m; next_ref := next_ref m;
     goroutines := goroutines m; rand := rand m; orm_log := orm_log m |}.

Definition set_failedSessionInfos
    (f : gmap N SessionInfo -> gmap N SessionInfo) (m : Manager) :=
  {| cfg := cfg m; conns := conns m; sessions := sessions m;
     failedSessionInfos := f (failedSessionInfos m); verifier := verifier m;
     orm_of := orm_of m; roller_maps := roller_maps m;
     channels := channels m; next_ref := next_ref m;
     goroutines := goroutines m; rand := rand m; orm_log := orm_log m |}.

Definition set_orm (db : Db) (c : OrmCall) (m : Manager) :=
  {| cfg := cfg m; conns := conns m; sessions := sessions m;
     failedSessionInfos := failedSessionInfos m; verifier := verifier m;
     orm_of := Some db; roller_maps := roller_maps m;
     channels := channels m; next_ref := next_ref m;
     goroutines := goroutines m; rand := rand m;
     orm_log := orm_log m ++ [c] |}.

Definition set_roller_maps
    (f : gmap ref (gmap string rollerStatus) ->
         gmap ref (gmap string rollerStatus)) (m : Manager) :=
  {| cfg := cfg m; conns := conns m; sessions := sessions m;
     failedSessionInfos := failedSessionInfos m; verifier := verifier m;
     orm_of := orm_of m; roller_maps := f (roller_maps m);
     channels := channels m; next_ref := next_ref m;
     goroutines := goroutines m; rand := rand m; orm_log := orm_log m |}.

Definition set_channels
    (f : gmap ref (list rollerProofStatus) ->
         gmap ref (list rollerProofStatus)) (m : Manager) :=
  {| cfg := cfg m; conns := conns m; sessions := sessions m;
     failedSessionInfos := failedSessionInfos m; verifier := verifier m;
     orm_of := orm_of m; roller_maps := roller_maps m;
     channels := f (channels m); next_ref := next_ref m;
     goroutines := goroutines m; rand := rand m; orm_log := orm_log m |}.

Definition set_next_ref (f : ref -> ref) (m : Manager) :=
  {| cfg := cfg m; conns := conns m; sessions := sessions m;
     failedSessionInfos := failedSessionInfos m; verifier := verifier m;
     orm_of := orm_of m; roller_maps := roller_maps m;
     channels := channels m; next_ref := f (next_ref m);
     goroutines := goroutines m; rand := rand m; orm_log := orm_log m |}.

Definition set_goroutines
    (f : list (N * session) -> list (N * session)) (m : Manager) :=
  {| cfg := cfg m; conns := conns m; sessions := sessions m;
     failedSessionInfos := failedSessionInfos m; verifier := verifier m;
     orm_of := orm_of m; roller_maps := roller_maps m;
     channels := channels m; next_ref := next_ref m;
     goroutines := f (goroutines m); rand := rand m; orm_log := orm_log m |}.

Definition set_rand (f : list nat -> list nat) (m : Manager) :=
  {| cfg := cfg m; conns := conns m; sessions := sessions m;
     failedSessionInfos := failedSessionInfos m; verifier := verifier m;
     orm_of := orm_of m; roller_maps := roller_maps m;
     channels := channels m; next_ref := next_ref m;
     goroutines := goroutines m; rand := f (rand m); orm_log := orm_log m |}.

Local Abbreviation M := (St Manager).

(** [New]: no connection, no session; the verifier only when an endpoint
    is configured.  [NewVerifier] stands for [verifier.NewVerifier] and
    [seed] for the state of math/rand. *)
Definition New (NewVerifier : string -> error + Verifier)
    (cfg0 : RollerManagerConfig) (orm0 : option Db) (seed : list nat)
    : error + Manager :=
  let v :=
    if bool_decide (VerifierEndpoint cfg0 ≠ "") then
      match NewVerifier (VerifierEndpoint cfg0) with
      | inl err => inl err
      | inr v => inr (Some v)
      end
    else inr None in
  match v with
  | inl err => inl err
  | inr v =>
      inr {| cfg := cfg0; conns := []; sessions := ∅;
             failedSessionInfos := ∅; verifier := v; orm_of := orm0;
             roller_maps := ∅; channels := ∅; next_ref := 0;
             goroutines := []; rand := seed; orm_log := [] |}
  end.

(** *** Calls on [m.orm]: a nil orm panics; the call is logged. *)

Definition orm_UpdateBlockStatus (i : N) (st : BlockStatus) : M (option error) :=
  fun m =>
    match orm_of m with
    | None => NilPanic
    | Some db =>
        let '(err, db') := UpdateBlockStatus i st db in
        Ret err (set_orm db' (CallUpdateBlockStatus i st err) m)
    end.

Definition orm_UpdateProofByNumber (i : N) (proof final_pair : bytes)
    (secs : N) : M (option error) :=
  fun m =>
    match orm_of m with
    | None => NilPanic
    | Some db =>
        let '(err, db') := UpdateProofByNumber i proof final_pair secs db in
        Ret err (set_orm db' (CallUpdateProofByNumber i proof final_pair secs err) m)
    end.

Definition orm_GetBlockResults (fields : list (string * FieldValue))
    (args : list string) : M (list BlockResult * option error) :=
  fun m =>
    match orm_of m with
    | None => NilPanic
    | Some db =>
        let '(rows, err, db') := GetBlockResults fields args db in
        Ret (rows, err) (set_orm db' (CallGetBlockResults fields args rows err) m)
    end.

(** *** math/rand, maps and channels *)

(** [mathrand.Intn n] for [n > 0]: the next draw, reduced below [n]; a
    source that has run out draws 0. *)
Definition Intn (n : nat) : M nat :=
  fun m =>
    match rand m with
    | [] => Ret 0 m
    | r :: rs => Ret (r mod n) (set_rand (fun _ => rs) m)
    end.

(** The map a session's [rollers] field points to. *)
Definition rollers_of (m : Manager) (s : session) : gmap string rollerStatus :=
  default ∅ (roller_maps m !! rollers s).

(** [make(chan rollerProofStatus, proofAndPkBufferSize)] and a literal map. *)
Definition alloc : M ref :=
  fun m => Ret (next_ref m) (set_next_ref S m).

(** [ch <- v]: blocks while the buffer is full (and on a nil channel). *)
Definition chan_send (ch : ref) (v : rollerProofStatus) : M unit :=
  fun m =>
    match channels m !! ch with
    | Some buf =>
        if decide (length buf < proofAndPkBufferSize)
        then Ret tt (set_channels <[ch := buf ++ [v]]> m)
        else SendBlocked
    | None => SendBlocked
    end.

(** [m.addFailedSession] *)
Definition addFailedSession (s : session) (errMsg : string) : M unit :=
  modify (set_failedSessionInfos
            <[id s := newSessionInfo s BlockFailed errMsg true]>).

(** *** IsRollerIdle, GetNumberOfIdleRollers *)

(** No session lists [hexPk] with status [rollerAssigned]: the two nested
    [range] loops, over the sessions and over each [rollers] map. *)
Definition IsRollerIdle (m : Manager) (hexPk : string) : bool :=
  forallb
    (fun '(_, sess) =>
       forallb
         (fun '(pk', st) =>
            negb (bool_decide (pk' = hexPk) && bool_decide (st = rollerAssigned)))
         (map_to_list (rollers_of m sess)))
    (map_to_list (sessions m)).

Definition GetNumberOfIdleRollers (m : Manager) : nat :=
  foldl (fun cnt roller =>
           if IsRollerIdle m (PublicKey roller) then S cnt else cnt)
        0 (conns_getAll (conns m)).

(** *** SelectRoller *)

(** [allRollers[idx], allRollers = allRollers[0], allRollers[1:]]: slot
    [idx] takes the head, then the slice drops its first element. *)
Definition drop_at (idx : nat) (allRollers : list Roller) : list Roller :=
  match allRollers with
  | [] => []
  | r0 :: _ => tail (<[idx := r0]> allRollers)
  end.

(** One iteration of the loop, for a non-empty [allRollers]: either the
    connection returned, or the slice the next iteration runs on. *)
Definition SelectRoller_iter (allRollers : list Roller)
    : M (Roller + list Roller) :=
  let! idx := Intn (length allRollers) in
  match allRollers !! idx with
  | None => ret (inr (drop_at idx allRollers))   (* not reached: idx < len *)
  | Some conn =>
      let pk := PublicKey conn in
      if isClosed conn then
        run! modify (set_conns (conns_delete conn)) in
        ret (inr (drop_at idx allRollers))
      else
        let! m := get in
        if negb (IsRollerIdle m pk) then
          ret (inr (drop_at idx allRollers))
        else ret (inl conn)
  end.

(** The loop, run for at most [fuel] iterations: [None] when the fuel
    runs out, else what [SelectRoller] returns ([None] inside is nil). *)
Fixpoint SelectRoller_loop (fuel : nat) (allRollers : list Roller)
    : M (option (option Roller)) :=
  match allRollers with
  | [] => ret (Some None)
  | _ :: _ =>
      match fuel with
      | 0 => ret None
      | S fuel' =>
          let! r := SelectRoller_iter allRollers in
          match r with
          | inl conn => ret (Some (Some conn))
          | inr rest => SelectRoller_loop fuel' rest
          end
      end
  end.

Definition SelectRoller : M (option Roller) :=
  let! m := get in
  let allRollers := conns_getAll (conns m) in
  let! r := SelectRoller_loop (length allRollers) allRollers in
  ret (default None r).

(** *** createBlockTracesMsg *)

Definition createBlockTracesMsg (traces : BlockResult)
    : message.Msg * option error :=
  let idAndTraces :=
    {| message.bt_ID := Uint64 (Number traces); message.Traces := traces |} in
  let '(payload, err) := json_Marshal_BlockTraces idAndTraces in
  match err with
  | Some e => ({| message.Type_ := message.Error; message.Payload := [] |}, Some e)
  | None =>
      ({| message.Type_ := message.BlockTrace; message.Payload := payload |}, None)
  end.

(** *** StartProofGenerationSession *)

(** The deferred function: read [dbErr] at return. *)
Definition StartProofGenerationSession_deferred (i : N)
    (dbErr : option error) : M unit :=
  match dbErr with
  | Some _ => run! orm_UpdateBlockStatus i BlockUnassigned in ret tt
  | None => ret tt
  end.

(** From the [defer] statement to the return: the value returned and
    [dbErr] at that point. *)
Definition StartProofGenerationSession_body (trace : BlockResult)
    (roller : Roller) (i : N) (now : Z) : M (bool * option error) :=
  let pk0 := PublicKey roller in
  let '(msg, err) := createBlockTracesMsg trace in
  match err with
  | Some _ => ret (false, None)
  | None =>
      match sendMessage roller msg with
      | Some _ => ret (false, None)
      | None =>
          let! rs := alloc in
          run! modify (set_roller_maps <[rs := {[pk0 := rollerAssigned]}]>) in
          let! ch := alloc in
          run! modify (set_channels <[ch := []]>) in
          let s := {| id := i; rollers := rs;
                      roller_names := {[pk0 := Name roller]};
                      startTime := now; finishChan := ch |} in
          run! modify (set_sessions <[i := s]>) in
          let! dbErr := orm_UpdateBlockStatus i BlockAssigned in
          run! modify (set_goroutines (fun gs => gs ++ [(i, s)])) in
          ret (true, dbErr)
      end
  end.

Definition StartProofGenerationSession (trace : BlockResult) (now : Z)
    : M bool :=
  let! roller := SelectRoller in
  match roller with
  | None => ret false
  | Some roller =>
      if isClosed roller then ret false
      else
        let i := Uint64 (Number trace) in
        let! '(r, dbErr) := StartProofGenerationSession_body trace roller i now in
        run! StartProofGenerationSession_deferred i dbErr in
        ret r
  end.

(** *** HandleZkProof *)

(** The deferred function: the rollback on [dbErr], then the send on
    [s.finishChan].  ([m.mu.RUnlock], deferred before it, runs after.) *)
Definition HandleZkProof_rollback (msg : message.ProofMsg)
    (dbErr : option error) : M unit :=
  match dbErr with
  | Some _ =>
      run! orm_UpdateBlockStatus (message.ID msg) BlockUnassigned in ret tt
  | None => ret tt
  end.

Definition sent_status (dbErr : option error) (success : bool) : rollerStatus :=
  if success && bool_decide (dbErr = None)
  then rollerProofValid else rollerProofInvalid.

Definition HandleZkProof_deferred (pk0 : string) (msg : message.ProofMsg)
    (s : session) (dbErr : option error) (success : bool) : M unit :=
  run! HandleZkProof_rollback msg dbErr in
  chan_send (finishChan s) {| pk := pk0; status := sent_status dbErr success |}.

(** From the [defer] statement to the return: the error returned, and
    [dbErr] and [success] at that point. *)
Definition HandleZkProof_body (msg : message.ProofMsg) (s : session)
    (proofTimeSec : N) : M (option error * option error * bool) :=
  let i := message.ID msg in
  if bool_decide (message.Status msg ≠ message.StatusOk) then
    let! dbErr := orm_UpdateBlockStatus i BlockFailed in
    run! addFailedSession s (message.Error_ msg) in
    ret (None, dbErr, false)
  else
    let! dbErr := orm_UpdateProofByNumber i
                    (message.zk_Proof (message.Proof_ msg))
                    (message.FinalPair (message.Proof_ msg)) proofTimeSec in
    match dbErr with
    | Some _ => ret (dbErr, dbErr, false)
    | None =>
      let! dbErr := orm_UpdateBlockStatus i BlockProved in
      match dbErr with
      | Some _ => ret (dbErr, dbErr, false)
      | None =>
        let! m := get in
        (* [inl err]: the early [return err]; [inr success] otherwise *)
        let! verdict :=
          match verifier m with
          | Some v =>
              let! '(blockResults, err) :=
                orm_GetBlockResults [("number", FNumber i)] [] in
              match blockResults with
              | [] => ret (inl err)
              | b0 :: _ =>
                  let '(success, err) := VerifyProof v b0 (message.Proof_ msg) in
                  match err with
                  | Some e =>
                      run! addFailedSession s e in
                      ret (inr false)
                  | None => ret (inr success)
                  end
              end
          | None => ret (inr true)
          end in
        match verdict with
        | inl err => ret (err, dbErr, false)
        | inr success =>
            let st := if success then BlockVerified else BlockFailed in
            let! dbErr := orm_UpdateBlockStatus i st in
            ret (dbErr, dbErr, success)
        end
      end
    end.

Definition HandleZkProof (pk0 : string) (payload : bytes) (now : Z)
    : M (option error) :=
  match json_Unmarshal_ProofMsg payload with
  | inl e => ret (Some e)
  | inr msg =>
      let! m := get in
      match sessions m !! message.ID msg with
      | None =>
          ret (Some ("proof generation session for id "
                     +:+ pretty (message.ID msg) +:+ " does not exist"))
      | Some s =>
          let proofTimeSec := Z.to_N (now - startTime s) in
          match rollers_of m s !! pk0 with
          | None =>
              ret (Some ("roller " +:+ pk0
                         +:+ " is not eligible to partake in proof session "
                         +:+ pretty (message.ID msg)))
          | Some rollerProofValid => ret None
          | Some _ =>
              let! '(r, dbErr, success) := HandleZkProof_body msg s proofTimeSec in
              run! HandleZkProof_deferred pk0 msg s dbErr success in
              ret r
          end
      end
  end.

(** *** HandleMessage *)

Definition HandleMessage (pk0 : string) (payload : bytes) (now : Z)
    : M (option error) :=
  match json_Unmarshal_Msg payload with
  | inl e => ret (Some e)
  | inr msg =>
      match message.Type_ msg with
      | message.Error => ret None
      | message.Register => ret (Some "attempted handshake at the wrong time")
      | message.BlockTrace => ret (Some "received illegal message")
      | message.Proof => HandleZkProof pk0 (message.Payload msg) now
      | message.Unknown t =>
          ret (Some ("unrecognized message type " +:+ pretty t))
      end
  end.

(** *** CollectProofs *)

Definition no_valid_proofs_msg : string :=
  "proof generation session ended without receiving any valid proofs".

(** The keys of [s.rollers] that sent in a valid proof. *)
Definition participatingRollers (m : Manager) (s : session) : list string :=
  map_to_list (rollers_of m s)
    ≫= (fun '(pk', st) =>
          if bool_decide (st = rollerProofValid) then [pk'] else []).

(** [case <-timer.C]: the branch, then the deferred [delete]. *)
Definition CollectProofs_timer (i : N) (s : session) : M unit :=
  let! m := get in
  let rs := participatingRollers m s in
  run! (if bool_decide (length rs = 0) then
          run! addFailedSession s no_valid_proofs_msg in
          run! orm_UpdateBlockStatus i BlockFailed in
          ret tt
        else
          let! randIndex := Intn (length rs) in
          ret tt) in
  modify (set_sessions (delete i)).

(** [case ret := <-s.finishChan]: ready only when the buffer holds a
    message; [s.rollers[ret.pk] = ret.status]. *)
Definition chan_recv (ch : ref) : M (option rollerProofStatus) :=
  fun m =>
    match channels m !! ch with
    | Some (r :: buf) => Ret (Some r) (set_channels <[ch := buf]> m)
    | _ => Ret None m
    end.

Definition rollers_store (s : session) (r : rollerProofStatus) : M unit :=
  modify (fun m =>
            set_roller_maps
              <[rollers s := <[pk r := status r]> (rollers_of m s)]> m).

Definition CollectProofs_finish (s : session) : M unit :=
  let! r := chan_recv (finishChan s) in
  match r with
  | Some r => rollers_store s r
  | None => ret tt
  end.

(** What the [select] of the collector picks, in order. *)
Inductive CollectEvent := TimerFired | FinishReady.

(** The collector on a schedule: [true] when it has returned. *)
Fixpoint CollectProofs (i : N) (s : session) (evs : list CollectEvent)
    : M bool :=
  match evs with
  | [] => ret false
  | TimerFired :: _ => run! CollectProofs_timer i s in ret true
  | FinishReady :: evs' =>
      run! CollectProofs_finish s in CollectProofs i s evs'
  end.

(** *** Loop *)

(** [for len(traces) > 0 && m.StartProofGenerationSession(traces[0])] *)
Fixpoint Loop_dispatch (traces : list BlockResult) (now : Z)
    : M (list BlockResult) :=
  match traces with
  | [] => ret []
  | t :: rest =>
      let! ok := StartProofGenerationSession t now in
      if ok then Loop_dispatch rest now else ret traces
  end.

(** [case <-tick.C]: the buffer [traces] after the tick. *)
Definition Loop_tick (traces : list BlockResult) (now : Z)
    : M (list BlockResult) :=
  let! m := get in
  if bool_decide (length traces = 0) && bool_decide (orm_of m ≠ None) then
    let numIdleRollers := GetNumberOfIdleRollers m in
    let! '(traces', err) :=
      orm_GetBlockResults
        [("status", FStatus BlockUnassigned)]
        ["ORDER BY number " +:+ OrderSession (cfg m) +:+ " LIMIT "
           +:+ pretty numIdleRollers +:+ ";"] in
    match err with
    | Some _ => ret traces'                      (* continue *)
    | None => Loop_dispatch traces' now
    end
  else Loop_dispatch traces now.

(** What the [select] of [Loop] picks. *)
Inductive LoopEvent :=
| Tick (now : Z)
| MsgArrived (pk0 : string) (payload : bytes) (now : Z)
| CtxDone.

(** [Loop] on a schedule: the buffer when the schedule ends, and whether
    the loop has returned. *)
Fixpoint Loop (traces : list BlockResult) (evs : list LoopEvent)
    : M (list BlockResult * bool) :=
  match evs with
  | [] => ret (traces, false)
  | Tick now :: evs' =>
      let! traces' := Loop_tick traces now in Loop traces' evs'
  | MsgArrived pk0 payload now :: evs' =>
      run! HandleMessage pk0 payload now in Loop traces evs'
  | CtxDone :: _ => ret (traces, true)
  end.

(** *** The goroutines together *)

(** One [select] case taken by the [Loop] goroutine, or by the [k]-th
    collector spawned and still running. *)
Inductive SysEvent :=
| OnLoop (e : LoopEvent)
| OnCollector (k : nat) (e : CollectEvent).

(** The coordinator on a schedule, one [select] case at a time: the
    buffer of [Loop] at the end.  [looping] is false once [Loop] has
    returned; a collector leaves [goroutines] when its timer has fired. *)
Fixpoint run (evs : list SysEvent) (traces : list BlockResult)
    (looping : bool) : M (list BlockResult) :=
  match evs with
  | [] => ret traces
  | OnLoop e :: evs' =>
      if looping then
        match e with
        | Tick now =>
            let! traces' := Loop_tick traces now in run evs' traces' true
        | MsgArrived pk0 payload now =>
            run! HandleMessage pk0 payload now in run evs' traces true
        | CtxDone => run evs' traces false
        end
      else run evs' traces false
  | OnCollector k e :: evs' =>
      let! m := get in
      match goroutines m !! k with
      | None => run evs' traces looping
      | Some (i, s) =>
          match e with
          | TimerFired =>
              run! CollectProofs_timer i s in
              run! modify (set_goroutines (delete k)) in
              run evs' traces looping
          | FinishReady =>
              run! CollectProofs_finish s in run evs' traces looping
          end
      end
  end.

(** *** The goroutines under [m.mu]

    The same code at the grain of its lock operations.  A thread is one
    call of [HandleZkProof], one collector, one insertion of a session by
    [StartProofGenerationSession], or one call of [IsRollerIdle]; its
    program counter says where it stands between [RLock]/[Lock] and the
    matching unlock.  [sync.RWMutex]: [RLock] waits while a writer holds
    the lock, [Lock] waits while a writer or any reader does. *)

Inductive HandlerPc :=
| H_entry                                   (* payload not yet decoded *)
| H_rlocked (msg : message.ProofMsg)        (* after m.mu.RLock() *)
| H_rollback (msg : message.ProofMsg) (s : session)
             (r dbErr : option error) (success : bool)
                                            (* body done, defer running *)
| H_send (msg : message.ProofMsg) (s : session)
         (r dbErr : option error) (success : bool)
                                            (* at s.finishChan <- ... *)
| H_runlock (r : option error)              (* deferred RUnlock pending *)
| H_done (r : option error).

Inductive CollectorPc :=
| C_select
| C_timer                                   (* timer case chosen *)
| C_timer_locked                            (* after m.mu.Lock() *)
| C_got (x : rollerProofStatus)             (* received, before Lock *)
| C_update_locked (x : rollerProofStatus)
| C_done.

Inductive StarterPc := S_entry | S_locked | S_done.

Inductive IdlePc := R_entry | R_locked | R_done (idle : bool).

Inductive Thread :=
| THandler (pk0 : string) (payload : bytes) (now : Z) (pc : HandlerPc)
| TCollector (i : N) (s : session) (pc : CollectorPc)
| TStarter (i : N) (s : session) (pc : StarterPc)
| TIdle (hexPk : string) (pc : IdlePc).

Record World := {
  mgr : Manager;
  readers : nat;                 (* holders of the read lock *)
  writer : bool;                 (* the write lock is held *)
  threads : list Thread;
}.

Definition holds_read (t : Thread) : bool :=
  match t with
  | THandler _ _ _ (H_rlocked _ | H_rollback _ _ _ _ _ | H_send _ _ _ _ _
                    | H_runlock _) => true
  | TIdle _ R_locked => true
  | _ => false
  end.

Definition holds_write (t : Thread) : bool :=
  match t with
  | TCollector _ _ (C_timer_locked | C_update_locked _) => true
  | TStarter _ _ S_locked => true
  | _ => false
  end.

(** Thread [k] moves to [t], leaving the manager and the lock as given. *)
Definition moved (w : World) (k : nat) (t : Thread) (m : Manager)
    (rd : nat) (wr : bool) : World :=
  {| mgr := m; readers := rd; writer := wr;
     threads := <[k := t]> (threads w) |}.

Inductive Label :=
| Silent
| Send (k : nat) (msg : message.ProofMsg) (s : session).

Inductive step : World -> Label -> World -> Prop :=
(* HandleZkProof *)
| h_malformed w k pk0 payload now e :
    threads w !! k = Some (THandler pk0 payload now H_entry) ->
    json_Unmarshal_ProofMsg payload = inl e ->
    step w Silent
      (moved w k (THandler pk0 payload now (H_done (Some e)))
         (mgr w) (readers w) (writer w))
| h_RLock w k pk0 payload now msg :
    threads w !! k = Some (THandler pk0 payload now H_entry) ->
    json_Unmarshal_ProofMsg payload = inr msg ->
    writer w = false ->
    step w Silent
      (moved w k (THandler pk0 payload now (H_rlocked msg))
         (mgr w) (S (readers w)) (writer w))
| h_no_session w k pk0 payload now msg :
    threads w !! k = Some (THandler pk0 payload now (H_rlocked msg)) ->
    sessions (mgr w) !! message.ID msg = None ->
    step w Silent
      (moved w k
         (THandler pk0 payload now
            (H_runlock (Some ("proof generation session for id "
                              +:+ pretty (message.ID msg)
                              +:+ " does not exist"))))
         (mgr w) (readers w) (writer w))
| h_not_eligible w k pk0 payload now msg s :
    threads w !! k = Some (THandler pk0 payload now (H_rlocked msg)) ->
    sessions (mgr w) !! message.ID msg = Some s ->
    rollers_of (mgr w) s !! pk0 = None ->
    step w Silent
      (moved w k
         (THandler pk0 payload now
            (H_runlock (Some ("roller " +:+ pk0
                              +:+ " is not eligible to partake in proof session "
                              +:+ pretty (message.ID msg)))))
         (mgr w) (readers w) (writer w))
| h_already_valid w k pk0 payload now msg s :
    threads w !! k = Some (THandler pk0 payload now (H_rlocked msg)) ->
    sessions (mgr w) !! message.ID msg = Some s ->
    rollers_of (mgr w) s !! pk0 = Some rollerProofValid ->
    step w Silent
      (moved w k (THandler pk0 payload now (H_runlock None))
         (mgr w) (readers w) (writer w))
| h_body w k pk0 payload now msg s st r dbErr success m' :
    threads w !! k = Some (THandler pk0 payload now (H_rlocked msg)) ->
    sessions (mgr w) !! message.ID msg = Some s ->
    rollers_of (mgr w) s !! pk0 = Some st -> st ≠ rollerProofValid ->
    HandleZkProof_body msg s (Z.to_N (now - startTime s)) (mgr w)
      = Ret (r, dbErr, success) m' ->
    step w Silent
      (moved w k (THandler pk0 payload now (H_rollback msg s r dbErr success))
         m' (readers w) (writer w))
| h_rollback w k pk0 payload now msg s r dbErr success m' :
    threads w !! k
      = Some (THandler pk0 payload now (H_rollback msg s r dbErr success)) ->
    HandleZkProof_rollback msg dbErr (mgr w) = Ret tt m' ->
    step w Silent
      (moved w k (THandler pk0 payload now (H_send msg s r dbErr success))
         m' (readers w) (writer w))
| h_send w k pk0 payload now msg s r dbErr success m' :
    threads w !! k
      = Some (THandler pk0 payload now (H_send msg s r dbErr success)) ->
    chan_send (finishChan s)
      {| pk := pk0; status := sent_status dbErr success |} (mgr w)
      = Ret tt m' ->
    step w (Send k msg s)
      (moved w k (THandler pk0 payload now (H_runlock r))
         m' (readers w) (writer w))
| h_RUnlock w k pk0 payload now r :
    threads w !! k = Some (THandler pk0 payload now (H_runlock r)) ->
    step w Silent
      (moved w k (THandler pk0 payload now (H_done r))
         (mgr w) (pred (readers w)) (writer w))
(* CollectProofs *)
| c_timer w k i s :
    threads w !! k = Some (TCollector i s C_select) ->
    step w Silent
      (moved w k (TCollector i s C_timer) (mgr w) (readers w) (writer w))
| c_timer_Lock w k i s :
    threads w !! k = Some (TCollector i s C_timer) ->
    writer w = false -> readers w = 0 ->
    step w Silent
      (moved w k (TCollector i s C_timer_locked) (mgr w) (readers w) true)
| c_timer_run w k i s m' :
    threads w !! k = Some (TCollector i s C_timer_locked) ->
    CollectProofs_timer i s (mgr w) = Ret tt m' ->
    step w Silent
      (moved w k (TCollector i s C_done) m' (readers w) false)
| c_receive w k i s x m' :
    threads w !! k = Some (TCollector i s C_select) ->
    chan_recv (finishChan s) (mgr w) = Ret (Some x) m' ->
    step w Silent
      (moved w k (TCollector i s (C_got x)) m' (readers w) (writer w))
| c_Lock w k i s x :
    threads w !! k = Some (TCollector i s (C_got x)) ->
    writer w = false -> readers w = 0 ->
    step w Silent
      (moved w k (TCollector i s (C_update_locked x))
         (mgr w) (readers w) true)
| c_update w k i s x m' :
    threads w !! k = Some (TCollector i s (C_update_locked x)) ->
    rollers_store s x (mgr w) = Ret tt m' ->
    step w Silent
      (moved w k (TCollector i s C_select) m' (readers w) false)
(* StartProofGenerationSession: m.sessions[id] = s *)
| s_Lock w k i s :
    threads w !! k = Some (TStarter i s S_entry) ->
    writer w = false -> readers w = 0 ->
    step w Silent
      (moved w k (TStarter i s S_locked) (mgr w) (readers w) true)
| s_insert w k i s :
    threads w !! k = Some (TStarter i s S_locked) ->
    step w Silent
      (moved w k (TStarter i s S_done)
         (set_sessions <[i := s]> (mgr w)) (readers w) false)
(* IsRollerIdle *)
| r_RLock w k hexPk :
    threads w !! k = Some (TIdle hexPk R_entry) ->
    writer w = false ->
    step w Silent
      (moved w k (TIdle hexPk R_locked) (mgr w) (S (readers w)) (writer w))
| r_RUnlock w k hexPk :
    threads w !! k = Some (TIdle hexPk R_locked) ->
    step w Silent
      (moved w k (TIdle hexPk (R_done (IsRollerIdle (mgr w) hexPk)))
         (mgr w) (pred (readers w)) (writer w))
(* what the rest of the coordinator does without the lock: it leaves
   m.sessions alone *)
| elsewhere w m' :
    sessions m' = sessions (mgr w) ->
    step w Silent
      {| mgr := m'; readers := readers w; writer := writer w;
         threads := threads w |}.

(** No thread has started and the lock is free. *)
Definition at_entry (t : Thread) : bool :=
  match t with
  | THandler _ _ _ H_entry | TCollector _ _ C_select
  | TStarter _ _ S_entry | TIdle _ R_entry => true
  | _ => false
  end.

Definition initial (w : World) : Prop :=
  readers w = 0 ∧ writer w = false ∧ forallb at_entry (threads w) = true.

Inductive reachable : World -> Prop :=
| reach_initial w : initial w -> reachable w
| reach_step w l w' : reachable w -> step w l w' -> reachable w'.

(** Any number of steps. *)
Inductive steps : World -> World -> Prop :=
| steps_refl w : steps w w
| steps_step w lab w' w'' : step w lab w' -> steps w' w'' -> steps w w''.

(** How many threads satisfy [p]. *)
Definition count (p : Thread -> bool) (ts : list Thread) : nat :=
  length (filter (fun t => p t = true) ts).

(** The lock counts its holders, a writer excludes readers, and a
    handler about to run its deferred function still finds in
    [m.sessions] the session it looked up. *)
Definition lock_inv (w : World) : Prop :=
  readers w = count holds_read (threads w) ∧
  Nat.b2n (writer w) = count holds_write (threads w) ∧
  (writer w = true → readers w = 0) ∧
  ∀ k pk0 payload now msg s r dbErr success,
    threads w !! k = Some (THandler pk0 payload now (H_rollback msg s r dbErr success))
    ∨ threads w !! k = Some (THandler pk0 payload now (H_send msg s r dbErr success)) →
    sessions (mgr w) !! message.ID msg = Some s.

(** *** Start, Stop, isRunning

    The running flag and the [Loop] goroutines [Start] has spawned, beside
    the manager.  [m.server.start()] and [m.server.stop()] belong to the
    websocket server: their reply is an argument. *)

Record Backend := {
  manager : Manager;
  running : Z;                     (* int32, read and written atomically *)
  loops : nat;                     (* go m.Loop() *)
}.

Definition isRunning (b : Backend) : bool := bool_decide (running b = 1%Z).

(** [for _, block := range blocks]: the error of an update is logged. *)
Fixpoint Start_reset (blocks : list BlockResult) : M unit :=
  match blocks with
  | [] => ret tt
  | block :: blocks' =>
      run! orm_UpdateBlockStatus (Uint64 (Number block)) BlockUnassigned in
      Start_reset blocks'
  end.

(** [if m.orm != nil { ... }]: clean up assigned but not submitted tasks. *)
Definition Start_cleanup : M unit :=
  let! m := get in
  if bool_decide (orm_of m ≠ None) then
    let! '(blocks, err) :=
      orm_GetBlockResults [("status", FStatus BlockAssigned)] [] in
    match err with
    | None => Start_reset blocks
    | Some _ => ret tt
    end
  else ret tt.

Definition Start (server_start : option error) (b : Backend)
    : Res Backend (option error) :=
  if isRunning b then Ret None b
  else
    match Start_cleanup (manager b) with
    | Ret _ m' =>
        match server_start with
        | Some err =>
            Ret (Some err)
              {| manager := m'; running := running b; loops := loops b |}
        | None =>
            Ret None {| manager := m'; running := 1; loops := S (loops b) |}
        end
    | NilPanic => NilPanic
    | SendBlocked => SendBlocked
    end.

Definition Stop (server_stop : option error) (b : Backend) : Backend :=
  if negb (isRunning b) then b
  else
    match server_stop with
    | Some _ => b
    | None => {| manager := manager b; running := 0; loops := loops b |}
    end.

End Coordinator.

Arguments Manager Db : clear implicits.
Arguments World Db : clear implicits.
Arguments Backend Db : clear implicits.

(** ** An in-memory orm, a codec and a transport to run the model on *)

Module MemDb.

(** The table [block_result] in row order, the proofs stored, and the
    errors the coming calls will reply ([None], or no entry: success). *)
Record t := {
  rows : list (BlockResult * BlockStatus);
  proofs : gmap N (bytes * bytes * N);
  faults : list (option error);
}.

Definition next_fault (db : t) : option error * t :=
  match faults db with
  | [] => (None, db)
  | f :: fs => (f, {| rows := rows db; proofs := proofs db; faults := fs |})
  end.

Definition status_of (db : t) (i : N) : option BlockStatus :=
  snd <$> head (filter (fun r => Uint64 (Number r.1) = i) (rows db)).

Definition matches (row : BlockResult * BlockStatus)
    (f : string * FieldValue) : bool :=
  match f.2 with
  | FStatus st => bool_decide (row.2 = st)
  | FNumber n => bool_decide (Uint64 (Number row.1) = n)
  end.

(** The character [;]. *)
Definition semicolon : Ascii.ascii :=
  Ascii.Ascii true true false true true true false false.

(** The number after [LIMIT], its closing [;] removed. *)
Definition parse_limit (w : string) : option nat :=
  match String.rev w with
  | String c w' =>
      if bool_decide (c = semicolon)
      then Nat.of_uint <$> NilZero.uint_of_string (String.rev w')
      else Nat.of_uint <$> NilZero.uint_of_string w
  | EmptyString => None
  end.

Fixpoint limit_of (ws : list string) : option nat :=
  match ws with
  | [] => None
  | w :: ws' =>
      if bool_decide (w = "LIMIT") then
        match ws' with
        | n :: _ => parse_limit n
        | [] => None
        end
      else limit_of ws'
  end.

Definition select (fields : list (string * FieldValue)) (args : list string)
    (db : t) : list BlockResult :=
  let hit := filter (fun row => forallb (matches row) fields = true) (rows db) in
  let hit := hit.*1 in
  match limit_of (args ≫= String.words) with
  | Some n => take n hit
  | None => hit
  end.

#[global] Instance mem_orm : BlockResultOrm t := {
  GetBlockResults fields args db :=
    match next_fault db with
    | (Some e, db') => ([], Some e, db')
    | (None, db') => (select fields args db', None, db')
    end;
  UpdateBlockStatus i st db :=
    match next_fault db with
    | (Some e, db') => (Some e, db')
    | (None, db') =>
        (None,
         {| rows := (fun r => if bool_decide (Uint64 (Number r.1) = i)
                              then (r.1, st) else r) <$> rows db';
            proofs := proofs db'; faults := faults db' |})
    end;
  UpdateProofByNumber i proof final_pair secs db :=
    match next_fault db with
    | (Some e, db') => (Some e, db')
    | (None, db') =>
        (None,
         {| rows := rows db';
            proofs := <[i := (proof, final_pair, secs)]> (proofs db');
            faults := faults db' |})
    end;
}.

End MemDb.

Module Fixtures.

(** A codec on tagged bytes standing in for encoding/json: the first
    byte is the message type, or the proof status followed by the id. *)
Definition byte_N (b : Byte.byte) : N := Byte.to_N b.

Definition test_json (marshal_ok : bool) : Json := {|
  json_Marshal_BlockTraces bt :=
    if marshal_ok then (Trace (message.Traces bt), None)
    else ([], Some "json: unsupported value");
  json_Unmarshal_Msg payload :=
    match payload with
    | [] => inl "unexpected end of JSON input"
    | b :: rest =>
        inr {| message.Type_ :=
                 match byte_N b with
                 | 0%N => message.Error
                 | 1%N => message.Register
                 | 2%N => message.BlockTrace
                 | 3%N => message.Proof
                 | n => message.Unknown (N.to_nat n)
                 end;
               message.Payload := rest |}
    end;
  json_Unmarshal_ProofMsg payload :=
    match payload with
    | st :: i :: rest =>
        inr {| message.Status :=
                 if bool_decide (byte_N st = 0%N) then message.StatusOk
                 else message.StatusProofError;
               message.Error_ :=
                 if bool_decide (byte_N st = 0%N) then "" else "oom";
               message.ID := byte_N i;
               message.Proof_ := {| message.zk_Proof := rest;
                                    message.FinalPair := [] |} |}
    | _ => inl "unexpected end of JSON input"
    end;
|}.

Definition test_transport (send_ok : bool) : Transport := {|
  sendMessage _ _ := if send_ok then None else Some "websocket: close sent";
|}.

Definition P1 : Roller :=
  {| addr := 1; Name := "P1"; PublicKey := "0xp1"; closed := false |}.

Definition T7 : BlockResult := {| Number := 7; Trace := [Byte.x07] |}.

Definition config : RollerManagerConfig :=
  {| Endpoint := "localhost:8391"; VerifierEndpoint := "";
     CollectionTime := 1; OrderSession := "ASC" |}.

Definition db0 (fs : list (option error)) : MemDb.t :=
  {| MemDb.rows := [(T7, BlockUnassigned)]; MemDb.proofs := ∅;
     MemDb.faults := fs |}.

(** A fresh manager: one open roller, no session, one unassigned task. *)
Definition fresh (v : option Verifier) (fs : list (option error))
    : Manager MemDb.t :=
  {| cfg := config; conns := [P1]; sessions := ∅; failedSessionInfos := ∅;
     verifier := v; orm_of := Some (db0 fs); roller_maps := ∅;
     channels := ∅; next_ref := 0; goroutines := []; rand := [];
     orm_log := [] |}.

(** A connection that has been closed, a second block, a registry put
    in place of the manager's, and a backend not yet started. *)
Definition P2 : Roller :=
  {| addr := 2; Name := "P2"; PublicKey := "0xp2"; closed := true |}.

Definition T8 : BlockResult := {| Number := 8; Trace := [Byte.x08] |}.

Definition registry (cs : list Roller) (m : Manager MemDb.t)
    : Manager MemDb.t :=
  set_conns (fun _ => cs) m.

Definition stopped : Backend MemDb.t :=
  {| manager := fresh None []; running := 0; loops := 0 |}.

(** Session 7 as [StartProofGenerationSession] creates it at time 100,
    with [P1] in status [st], and the task in status [bs]. *)
Definition S7 : session :=
  {| id := 7; rollers := 0; roller_names := {[ "0xp1" := "P1" ]};
     startTime := 100; finishChan := 1 |}.

Definition running (st : rollerStatus) (bs : BlockStatus)
    (v : option Verifier) (fs : list (option error)) : Manager MemDb.t :=
  {| cfg := config; conns := [P1]; sessions := {[ 7%N := S7 ]};
     failedSessionInfos := ∅; verifier := v;
     orm_of := Some {| MemDb.rows := [(T7, bs)]; MemDb.proofs := ∅;
                       MemDb.faults := fs |};
     roller_maps := {[ 0 := {[ "0xp1" := st ]} ]};
     channels := {[ 1 := [] ]}; next_ref := 2; goroutines := [(7%N, S7)];
     rand := []; orm_log := [] |}.

Definition verifier_says (verdict : bool) (err : option error) : Verifier :=
  {| VerifyProof _ _ := (verdict, err) |}.

(** [Proof{id=7, status=Ok, proof=0xAA}] and [Proof{id=7, status=Error}]. *)
Definition proof_ok : bytes := [Byte.x00; Byte.x07; Byte.xaa].
Definition proof_failed : bytes := [Byte.x01; Byte.x07].

Definition msg_ok : message.ProofMsg :=
  {| message.Status := message.StatusOk; message.Error_ := "";
     message.ID := 7;
     message.Proof_ := {| message.zk_Proof := [Byte.xaa];
                          message.FinalPair := [] |} |}.

Definition msg_failed : message.ProofMsg :=
  {| message.Status := message.StatusProofError; message.Error_ := "oom";
     message.ID := 7;
     message.Proof_ := {| message.zk_Proof := [];
                          message.FinalPair := [] |} |}.

Definition json : Json := test_json true.
Definition wire_up : Transport := test_transport true.
Definition wire_down : Transport := test_transport false.

(** The state a call returned in ([m] itself when it did not return). *)
Definition state_after {A} (r : Res (Manager MemDb.t) A)
    (m : Manager MemDb.t) : Manager MemDb.t :=
  match r with
  | Ret _ m' => m'
  | _ => m
  end.

(** The status of block 7 in the store of [m]. *)
Definition status7 (m : Manager MemDb.t) : option BlockStatus :=
  orm_of m ≫= fun db => MemDb.status_of db 7.



(** P1, recorded invalid, sends in a proof again and the collector
    takes the signal. *)
Definition resubmission : list SysEvent :=
  [ OnLoop (MsgArrived "0xp1" (Byte.x03 :: proof_ok) 130);
    OnCollector 0 FinishReady ].

(** One handler and the collector of session 7, nothing started. *)
Definition w0 : World MemDb.t :=
  {| mgr := running rollerAssigned BlockAssigned None [];
     readers := 0; writer := false;
     threads := [ THandler "0xp1" proof_ok 130 H_entry;
                  TCollector 7 S7 C_select ] |}.

Definition w1 : World MemDb.t :=
  moved w0 0 (THandler "0xp1" proof_ok 130 (H_rlocked msg_ok)) (mgr w0) 1 false.

Definition w2 : World MemDb.t :=
  moved w1 0
    (THandler "0xp1" proof_ok 130 (H_rollback msg_ok S7 None None true))
    (state_after (HandleZkProof_body msg_ok S7 30 (mgr w1)) (mgr w1)) 1 false.

Definition w3 : World MemDb.t :=
  moved w2 0
    (THandler "0xp1" proof_ok 130 (H_send msg_ok S7 None None true))
    (mgr w2) 1 false.

Definition w4 : World MemDb.t :=
  moved w3 0 (THandler "0xp1" proof_ok 130 (H_runlock None))
    (state_after
       (chan_send (finishChan S7)
          {| pk := "0xp1"; status := rollerProofValid |} (mgr w3))
       (mgr w3))
    1 false.

(** Session 7 after P1 has sent in a proof taken as valid, the signal
    still on the channel. *)
Definition signalled : Manager MemDb.t :=
  state_after
    (HandleZkProof (JS:=json) "0xp1" proof_ok 130
       (running rollerAssigned BlockAssigned None []))
    (running rollerAssigned BlockAssigned None []).

(** The collector of session 7 has chosen its timer case, then taken
    the write lock. *)
Definition wc1 : World MemDb.t :=
  moved w0 1 (TCollector 7 S7 C_timer) (mgr w0) 0 false.

Definition wc2 : World MemDb.t :=
  moved wc1 1 (TCollector 7 S7 C_timer_locked) (mgr wc1) 0 true.

End Fixtures.

(** ** Notions the properties are stated with *)

(** The status writes one call of each operation may issue for a block,
    in order. *)
Definition Start_writes : list (list BlockStatus) :=
  [ []; [BlockAssigned]; [BlockAssigned; BlockUnassigned] ].

Definition HandleZkProof_writes : list (list BlockStatus) :=
  [ []; [BlockUnassigned];
    [BlockFailed]; [BlockFailed; BlockUnassigned];
    [BlockProved]; [BlockProved; BlockUnassigned];
    [BlockProved; BlockVerified]; [BlockProved; BlockVerified; BlockUnassigned];
    [BlockProved; BlockFailed]; [BlockProved; BlockFailed; BlockUnassigned] ].

Definition CollectProofs_writes : list (list BlockStatus) :=
  [ []; [BlockFailed] ].



(** Concatenations of the sequences single operations write. *)
Inductive op_sequence : list BlockStatus → Prop :=
| op_nil : op_sequence []
| op_app ws rest :
    ws ∈ Start_writes ++ HandleZkProof_writes ++ CollectProofs_writes →
    op_sequence rest → op_sequence (ws ++ rest).


Section Notions.
Context {Db : Type} {ORM : BlockResultOrm Db} {TR : Transport} {JS : Json}.

(** Every message waiting in a channel carries a final status, and the
    heap of [rollers] maps is allocated below [next_ref]. *)
Definition wf (m : Manager Db) : Prop :=
  (∀ ch buf x, channels m !! ch = Some buf → x ∈ buf →
               status x ≠ rollerAssigned) ∧
  (∀ r mp, roller_maps m !! r = Some mp → r < next_ref m) ∧
  (∀ k i s, goroutines m !! k = Some (i, s) → rollers s < next_ref m).

(** A participant recorded with a final status in [m] still has a final
    status in [m']: no status goes back to [rollerAssigned]. *)
Definition no_return (m m' : Manager Db) : Prop :=
  ∀ r mp pk0 st,
    roller_maps m !! r = Some mp → mp !! pk0 = Some st →
    st ≠ rollerAssigned →
    ∃ mp' st', roller_maps m' !! r = Some mp' ∧ mp' !! pk0 = Some st' ∧
               st' ≠ rollerAssigned.

(** What the orm history gained from [m] to [m']. *)
Definition log_grows (m m' : Manager Db) : Prop :=
  ∃ calls, orm_log m' = orm_log m ++ calls ∧
           ∀ i, op_sequence (status_writes i calls).


(** [m'] differs from [m] at most in the registry and the random source. *)
Definition same_sessions_and_store (m m' : Manager Db) : Prop :=
  cfg m' = cfg m ∧ sessions m' = sessions m ∧
  failedSessionInfos m' = failedSessionInfos m ∧ verifier m' = verifier m ∧
  orm_of m' = orm_of m ∧ roller_maps m' = roller_maps m ∧
  channels m' = channels m ∧ next_ref m' = next_ref m ∧
  goroutines m' = goroutines m ∧ orm_log m' = orm_log m.

(** What one iteration yields: a connection that is open and idle, or
    the slice without the connection picked, which was closed or busy. *)
Definition iter_post (m : Manager Db) (allRollers : list Roller)
    (r : Roller + list Roller) : Prop :=
  match r with
  | inl conn =>
      isClosed conn = false ∧ IsRollerIdle m (PublicKey conn) = true ∧
      conn ∈ allRollers
  | inr rest =>
      ∃ (idx : nat) conn,
        allRollers !! idx = Some conn ∧
        (isClosed conn = true ∨ IsRollerIdle m (PublicKey conn) = false) ∧
        rest ≡ₚ delete idx allRollers
  end.

(** What the loop yields. *)
Definition select_post (m : Manager Db) (allRollers : list Roller)
    (r : option Roller) : Prop :=
  match r with
  | Some conn =>
      isClosed conn = false ∧ IsRollerIdle m (PublicKey conn) = true ∧
      conn ∈ allRollers
  | None => True
  end.

(** What [HandleZkProof] never touches. *)
Definition same_tables (m m' : Manager Db) : Prop :=
  cfg m' = cfg m ∧ conns m' = conns m ∧ sessions m' = sessions m ∧
  verifier m' = verifier m ∧ roller_maps m' = roller_maps m ∧
  next_ref m' = next_ref m ∧ goroutines m' = goroutines m ∧
  rand m' = rand m.

(** What [StartProofGenerationSession] does when it returns true. *)
Definition started (trace : BlockResult) (now : Z) (m m' : Manager Db) : Prop :=
  let i := Uint64 (Number trace) in
  ∃ roller m1,
    SelectRoller m = Ret (Some roller) m1 ∧
    let s := {| id := i; rollers := next_ref m;
                roller_names := {[PublicKey roller := Name roller]};
                startTime := now; finishChan := S (next_ref m) |} in
    cfg m' = cfg m ∧ verifier m' = verifier m ∧
    conns m' = conns m1 ∧ rand m' = rand m1 ∧
    sessions m' = <[i := s]> (sessions m) ∧
    roller_maps m' =
      <[next_ref m := {[PublicKey roller := rollerAssigned]}]> (roller_maps m) ∧
    channels m' = <[S (next_ref m) := []]> (channels m) ∧
    next_ref m' = S (S (next_ref m)) ∧
    goroutines m' = goroutines m ++ [(i, s)] ∧
    failedSessionInfos m' = failedSessionInfos m.

(** The two ways the deadline branch ends. *)
Definition timer_with_valid_proof (i : N) (s : session) (m : Manager Db) : Prop :=
  (∃ pk0, rollers_of m s !! pk0 = Some rollerProofValid) ∧
  ∃ m', CollectProofs_timer i s m = Ret tt m' ∧
        sessions m' = delete i (sessions m) ∧
        failedSessionInfos m' = failedSessionInfos m ∧
        orm_of m' = orm_of m ∧ orm_log m' = orm_log m ∧
        roller_maps m' = roller_maps m ∧ channels m' = channels m ∧
        next_ref m' = next_ref m ∧ goroutines m' = goroutines m.

Definition timer_without_valid_proof (i : N) (s : session) (m : Manager Db)
    : Prop :=
  (∀ pk0, rollers_of m s !! pk0 ≠ Some rollerProofValid) ∧
  match orm_of m with
  | None => CollectProofs_timer i s m = NilPanic
  | Some db =>
      ∃ m', CollectProofs_timer i s m = Ret tt m' ∧
            sessions m' = delete i (sessions m) ∧
            failedSessionInfos m' =
              <[id s := newSessionInfo s BlockFailed
                          no_valid_proofs_msg true]> (failedSessionInfos m) ∧
            orm_of m' = Some (UpdateBlockStatus i BlockFailed db).2 ∧
            orm_log m' = orm_log m ++
              [CallUpdateBlockStatus i BlockFailed
                 (UpdateBlockStatus i BlockFailed db).1] ∧
            roller_maps m' = roller_maps m ∧ channels m' = channels m ∧
            next_ref m' = next_ref m ∧ goroutines m' = goroutines m
  end.

(** One step of the schedule keeps the invariants. *)
Definition step_ok (m m' : Manager Db) : Prop :=
  log_grows m m' ∧ (wf m → wf m' ∧ no_return m m').

(** A handler whose deferred function is pending or running. *)
Definition in_defer (t : Thread) (msg : message.ProofMsg) (s : session) : Prop :=
  ∃ pk0 payload now r dbErr success,
    t = THandler pk0 payload now (H_rollback msg s r dbErr success) ∨
    t = THandler pk0 payload now (H_send msg s r dbErr success).

(** What [SelectRoller]'s loop does as a whole. *)
Definition loop_post (m m' : Manager Db) (allRollers : list Roller)
    (r : option Roller) : Prop :=
  conns m' `sublist_of` conns m ∧
  (∀ x, x ∈ conns m →
        (∀ c, c ∈ allRollers → isClosed c = true → addr c ≠ addr x) →
        x ∈ conns m') ∧
  (r = None →
   ∀ c, c ∈ allRollers →
        (isClosed c = true ∧ ∀ x, x ∈ conns m' → addr x ≠ addr c) ∨
        (isClosed c = false ∧ IsRollerIdle m (PublicKey c) = false)).

(** The pointer of a connection identifies it in the registry. *)
Definition addr_identifies (cs : list Roller) : Prop :=
  ∀ x y, x ∈ cs → y ∈ cs → addr x = addr y → x = y.

(** The calls [StartProofGenerationSession] makes on the orm for block
    [i], by the value it returns. *)
Definition Start_calls (i : N) (r : bool) (calls : list OrmCall) : Prop :=
  if r then
    calls = [CallUpdateBlockStatus i BlockAssigned None] ∨
    ∃ e e', calls = [CallUpdateBlockStatus i BlockAssigned (Some e);
                     CallUpdateBlockStatus i BlockUnassigned e']
  else calls = [].

(** A call that sets the status of one of the blocks [ids] to [Assigned]
    or back to [Unassigned]. *)
Definition assigns (ids : list N) (c : OrmCall) : Prop :=
  ∃ i st e, i ∈ ids ∧ c = CallUpdateBlockStatus i st e ∧
            (st = BlockAssigned ∨ st = BlockUnassigned).

(** The block ids of a buffer of traces, as [Loop] passes them on. *)
Definition ids_of (traces : list BlockResult) : list N :=
  (fun t => Uint64 (Number t)) <$> traces.




(** The outcome of a call, its final state taken through [f]. *)
Definition state_map {S A} (f : S → S) (r : Res S A) : Res S A :=
  match r with
  | Ret a s => Ret a (f s)
  | NilPanic => NilPanic
  | SendBlocked => SendBlocked
  end.

(** The manager with participant [pk0] of session [s] recorded
    [rollerAssigned], as at the start of the session. *)
Definition as_assigned (pk0 : string) (s : session) (m : Manager Db)
    : Manager Db :=
  set_roller_maps
    (fun rm => <[rollers s := <[pk0 := rollerAssigned]>
                                (default ∅ (rm !! rollers s))]> rm) m.

(** The error a call on the orm returned. *)
Definition call_error (call : OrmCall) : option error :=
  match call with
  | CallGetBlockResults _ _ _ e => e
  | CallUpdateBlockStatus _ _ e => e
  | CallUpdateProofByNumber _ _ _ _ e => e
  end.

(** An update of the orm that failed, the reset to [Unassigned] apart. *)
Definition failed_update (call : OrmCall) : Prop :=
  match call with
  | CallUpdateBlockStatus _ st (Some _) => st ≠ BlockUnassigned
  | CallUpdateProofByNumber _ _ _ _ (Some _) => True
  | _ => False
  end.

(** How many times the collector's [select] takes the channel case
    before it takes the timer case, on a schedule. *)
Fixpoint ready_before_timer (evs : list CollectEvent) : nat :=
  match evs with
  | FinishReady :: evs' => S (ready_before_timer evs')
  | _ => 0
  end.

(** [s.rollers[ret.pk] = ret.status] for the signals [sigs], in order. *)
Definition apply_signals (mp : gmap string rollerStatus)
    (sigs : list rollerProofStatus) : gmap string rollerStatus :=
  foldl (fun mp r => <[pk r := status r]> mp) mp sigs.

(** Every session of the table is stored under its own id, and the
    collector spawned with it is still running. *)
Definition covered (m : Manager Db) : Prop :=
  ∀ i s, sessions m !! i = Some s → id s = i ∧ (i, s) ∈ goroutines m.

(** The call that resets a block to [Unassigned], whatever it returns. *)
Definition resets (block : BlockResult) (call : OrmCall) : Prop :=
  ∃ e, call = CallUpdateBlockStatus (Uint64 (Number block)) BlockUnassigned e.

(** What a call on the orm leaves alone. *)
Definition same_but_orm (m m' : Manager Db) : Prop :=
  same_tables m m' ∧ channels m' = channels m ∧
  failedSessionInfos m' = failedSessionInfos m.

End Notions.

(** * Properties *)

Section Properties.
Context {Db : Type} {ORM : BlockResultOrm Db} {TR : Transport} {JS : Json}.

Local Abbreviation M := (St (Manager Db)).

Implicit Types (m : Manager Db) (s : session).
Implicit Types (hexPk : string) (allRollers l : list Roller).
Implicit Types (c conn roller : Roller) (i : N).

(** Unfold the monad and the primitives of the model. *)
Ltac munfold :=
  unfold bind, ret, get, modify, alloc, orm_UpdateBlockStatus,
    orm_UpdateProofByNumber, orm_GetBlockResults, addFailedSession.

(** Unfold [HandleZkProof] down to the primitives of the model. *)
Ltac zk_unfold :=
  unfold HandleZkProof, HandleZkProof_body, HandleZkProof_deferred,
    HandleZkProof_rollback, chan_send, sent_status; munfold.

(** Membership in a list that is written out. *)
Ltac in_list :=
  repeat first [ apply list_elem_of_here | apply list_elem_of_further ].

Lemma bool_decide_ne_same {A} `{EqDecision A} (x : A) :
  bool_decide (x ≠ x) = false.
Proof. by apply bool_decide_eq_false_2; intros Hne. Qed.

(** ** What an operation leaves alone *)

Lemma same_refl m : same_sessions_and_store m m.
Proof. repeat split. Qed.

Lemma same_trans m1 m2 m3 :
  same_sessions_and_store m1 m2 → same_sessions_and_store m2 m3 →
  same_sessions_and_store m1 m3.
Proof.
  unfold same_sessions_and_store. intros H12 H23.
  destruct_and!. repeat split; congruence.
Qed.

Lemma IsRollerIdle_same m m' hexPk :
  same_sessions_and_store m m' →
  IsRollerIdle m' hexPk = IsRollerIdle m hexPk.
Proof.
  intros (_ & Hs & _ & _ & _ & Hr & _).
  unfold IsRollerIdle, rollers_of. by rewrite Hs, Hr.
Qed.

Lemma forallb_false {A} (f : A → bool) (l : list A) :
  forallb f l = false ↔ ∃ x, x ∈ l ∧ f x = false.
Proof.
  induction l as [|a l IH]; simpl.
  - split; [done|]. intros (x & Hx & _). by apply elem_of_nil in Hx.
  - rewrite andb_false_iff, IH. split.
    + intros [Ha|(x & Hx & Hf)].
      * exists a. split; [apply elem_of_cons; by left|done].
      * exists x. split; [apply elem_of_cons; by right|done].
    + intros (x & Hx & Hf). apply elem_of_cons in Hx as [->|Hx]; eauto.
Qed.

(** [IsRollerIdle] is the lookup the nested loops compute. *)
Lemma IsRollerIdle_false (m : Manager Db) (hexPk : string) :
  IsRollerIdle m hexPk = false ↔
  ∃ i sess, sessions m !! i = Some sess ∧
            rollers_of m sess !! hexPk = Some rollerAssigned.
Proof.
  unfold IsRollerIdle. rewrite forallb_false. split.
  - intros ([i sess] & Hin & Hf).
    apply elem_of_map_to_list in Hin.
    apply forallb_false in Hf as ([pk' st] & Hin' & Hb).
    apply elem_of_map_to_list in Hin'.
    apply negb_false_iff, andb_true_iff in Hb as [Hp Hst].
    apply bool_decide_eq_true in Hp, Hst. subst. eauto.
  - intros (i & sess & Hs & Hr).
    exists (i, sess). split.
    + by apply elem_of_map_to_list.
    + apply forallb_false. exists (hexPk, rollerAssigned). split.
      * by apply elem_of_map_to_list.
      * by rewrite !bool_decide_eq_true_2.
Qed.

Lemma GetNumberOfIdleRollers_count m :
  GetNumberOfIdleRollers m =
  length (filter (fun r => IsRollerIdle m (PublicKey r) = true) (conns m)).
Proof.
  unfold GetNumberOfIdleRollers, conns_getAll.
  assert (∀ l n,
    foldl (fun cnt roller =>
             if IsRollerIdle m (PublicKey roller) then S cnt else cnt) n l
    = n + length (filter (fun r => IsRollerIdle m (PublicKey r) = true) l))
    as Hgen.
  { induction l as [|r l IH]; intros n; simpl; [lia|].
    rewrite IH, filter_cons.
    destruct (decide (IsRollerIdle m (PublicKey r) = true)) as [E|E].
    - rewrite E. simpl. lia.
    - apply not_true_is_false in E. rewrite E. lia. }
  by rewrite Hgen.
Qed.

Lemma no_idle_all_busy m r :
  GetNumberOfIdleRollers m = 0 → r ∈ conns m →
  IsRollerIdle m (PublicKey r) = false.
Proof.
  rewrite GetNumberOfIdleRollers_count. intros Hlen Hin.
  apply length_zero_iff_nil in Hlen.
  destruct (IsRollerIdle m (PublicKey r)) eqn:E; [|done].
  assert (r ∈ filter (fun r => IsRollerIdle m (PublicKey r) = true) (conns m))
    as Hf by (by apply list_elem_of_filter).
  rewrite Hlen in Hf. by apply elem_of_nil in Hf.
Qed.

(** ** SelectRoller *)

Lemma drop_at_Permutation (idx : nat) c l conn :
  (c :: l) !! idx = Some conn →
  drop_at idx (c :: l) ≡ₚ delete idx (c :: l).
Proof.
  unfold drop_at. destruct idx as [|j]; simpl; [done|]. intros Hj.
  apply lookup_lt_Some in Hj as Hlt.
  rewrite insert_take_drop, delete_take_drop by done.
  symmetry. apply Permutation_middle.
Qed.

Lemma iter_post_rest m allRollers rest :
  iter_post m allRollers (inr rest) →
  S (length rest) = length allRollers ∧ rest ⊆ allRollers.
Proof.
  intros (idx & conn & Hidx & _ & Hperm). split.
  - rewrite Hperm, length_delete by eauto.
    apply lookup_lt_Some in Hidx. lia.
  - intros x Hx. rewrite Hperm in Hx. by eapply list_elem_of_delete_inv.
Qed.

Lemma SelectRoller_iter_spec c l m :
  ∃ r m', SelectRoller_iter (c :: l) m = Ret r m' ∧
          same_sessions_and_store m m' ∧ conns m' ⊆ conns m ∧
          iter_post m (c :: l) r.
Proof.
  unfold SelectRoller_iter, bind, Intn.
  set (n := length (c :: l)).
  assert (∃ idx m0, (match rand m with
                     | [] => Ret 0 m
                     | r :: rs => Ret (r mod n) (set_rand (fun _ => rs) m)
                     end) = Ret idx m0 ∧ idx < n ∧
                    same_sessions_and_store m m0 ∧ conns m0 = conns m)
    as (idx & m0 & -> & Hidx & Hsame & Hconns).
  { destruct (rand m) as [|r rs].
    - exists 0, m. subst n. simpl. repeat split; lia.
    - exists (r mod n), (set_rand (fun _ => rs) m). subst n.
      repeat split. apply Nat.mod_upper_bound. simpl. lia. }
  destruct (lookup_lt_is_Some_2 (c :: l) idx Hidx) as [conn Hconn].
  rewrite Hconn.
  destruct (isClosed conn) eqn:Hclosed.
  - eexists _, _. split; [reflexivity|]. split; [|split].
    + eapply same_trans; [exact Hsame|]. repeat split.
    + cbn [conns set_conns]. rewrite Hconns. unfold conns_delete.
      intros x Hx. by apply list_elem_of_filter in Hx as [_ ?].
    + exists idx, conn. split; [done|]. split; [by left|].
      by eapply drop_at_Permutation.
  - unfold get. cbv beta iota.
    rewrite (IsRollerIdle_same m m0) by done.
    destruct (IsRollerIdle m (PublicKey conn)) eqn:Hidle; cbn [negb].
    + eexists _, _. split; [reflexivity|]. split; [done|].
      split; [by rewrite Hconns|].
      repeat split; [done..|]. by eapply list_elem_of_lookup_2.
    + eexists _, _. split; [reflexivity|]. split; [done|].
      split; [by rewrite Hconns|].
      exists idx, conn. split; [done|]. split; [by right|].
      by eapply drop_at_Permutation.
Qed.

Lemma SelectRoller_loop_spec (fuel : nat) : ∀ allRollers m,
  (length allRollers ≤ fuel)%nat →
  ∃ r m', SelectRoller_loop fuel allRollers m = Ret (Some r) m' ∧
          same_sessions_and_store m m' ∧ conns m' ⊆ conns m ∧
          select_post m allRollers r.
Proof.
  induction fuel as [|fuel IH]; intros [|c l] m Hlen; simpl in *;
    try (exists None, m; repeat split; done); [lia|].
  unfold bind.
  destruct (SelectRoller_iter_spec c l m) as (r & m1 & -> & Hs1 & Hc1 & Hpost).
  destruct r as [conn|rest].
  - simpl in Hpost. exists (Some conn), m1. repeat split; try done; apply Hs1 || apply Hpost.
  - apply iter_post_rest in Hpost as [Hl Hsub]. simpl in Hl.
    destruct (IH rest m1) as (r & m2 & -> & Hs2 & Hc2 & Hpost2); [lia|].
    exists r, m2. split; [done|]. split; [by eapply same_trans|].
    split; [set_solver|].
    destruct r as [conn|]; simpl in *; [|done].
    destruct Hpost2 as (? & Hidle & ?).
    rewrite (IsRollerIdle_same m m1) in Hidle by done.
    repeat split; [done..|]. by apply Hsub.
Qed.

Lemma SelectRoller_spec m :
  ∃ r m', SelectRoller m = Ret r m' ∧
          same_sessions_and_store m m' ∧ conns m' ⊆ conns m ∧
          select_post m (conns m) r.
Proof.
  unfold SelectRoller, bind, get, conns_getAll.
  destruct (SelectRoller_loop_spec (length (conns m)) (conns m) m)
    as (r & m' & -> & ? & ? & ?); [done|].
  by exists r, m'.
Qed.

(** C10. [SelectRoller] terminates: with fuel for as many iterations as
    the snapshot is long, the loop returns (a roller that is open and
    idle, taken from the snapshot, or nil); an iteration on a non-empty
    slice returns such a roller or goes on with the slice less the one
    connection it picked, which was closed or busy. *)
Theorem SelectRoller_terminates m allRollers (fuel : nat) :
  (length allRollers ≤ fuel)%nat →
  (∃ r m', SelectRoller_loop fuel allRollers m = Ret (Some r) m' ∧
           select_post m allRollers r) ∧
  (∀ c l, ∃ r m', SelectRoller_iter (c :: l) m = Ret r m' ∧
                  iter_post m (c :: l) r ∧
                  match r with
                  | inl _ => True
                  | inr rest => S (length rest) = length (c :: l)
                  end) ∧
  (∃ r m', SelectRoller m = Ret r m' ∧ select_post m (conns m) r).
Proof.
  intros Hfuel. split; [|split].
  - destruct (SelectRoller_loop_spec fuel allRollers m Hfuel)
      as (r & m' & Hrun & _ & _ & Hpost).
    by exists r, m'.
  - intros c l.
    destruct (SelectRoller_iter_spec c l m) as (r & m' & Hrun & _ & _ & Hpost).
    exists r, m'. split; [done|]. split; [done|].
    destruct r as [|rest]; [done|]. by apply iter_post_rest in Hpost as [? _].
  - destruct (SelectRoller_spec m) as (r & m' & Hrun & _ & _ & Hpost).
    by exists r, m'.
Qed.

(** ** StartProofGenerationSession *)

Lemma SelectRoller_Some m roller m1 :
  SelectRoller m = Ret (Some roller) m1 →
  same_sessions_and_store m m1 ∧ isClosed roller = false ∧
  IsRollerIdle m (PublicKey roller) = true ∧ roller ∈ conns m.
Proof.
  intros Hsel.
  destruct (SelectRoller_spec m) as (r & m' & Hrun & Hsame & _ & Hpost).
  rewrite Hsel in Hrun. injection Hrun as <- <-. simpl in Hpost.
  by destruct Hpost as (? & ? & ?).
Qed.

(** C9. When the frame cannot be serialized or the send to the selected
    roller fails, [StartProofGenerationSession] returns false, makes no
    call on the orm and leaves the session table and every other piece
    of session state as they were. *)
Theorem StartProofGenerationSession_send_failure m trace now roller m1 e :
  SelectRoller m = Ret (Some roller) m1 →
  (createBlockTracesMsg trace).2 = Some e ∨
    sendMessage roller (createBlockTracesMsg trace).1 = Some e →
  StartProofGenerationSession trace now m = Ret false m1 ∧
  sessions m1 = sessions m ∧ roller_maps m1 = roller_maps m ∧
  channels m1 = channels m ∧ goroutines m1 = goroutines m ∧
  failedSessionInfos m1 = failedSessionInfos m ∧
  orm_of m1 = orm_of m ∧ orm_log m1 = orm_log m.
Proof.
  intros Hsel Hfail.
  destruct (SelectRoller_Some _ _ _ Hsel) as (Hsame & Hopen & _ & _).
  split; [|unfold same_sessions_and_store in Hsame; by destruct_and!].
  unfold StartProofGenerationSession, bind. rewrite Hsel, Hopen.
  unfold StartProofGenerationSession_body.
  destruct (createBlockTracesMsg trace) as [msg [err|]]; simpl in Hfail.
  - done.
  - destruct Hfail as [?|Hsend]; [done|]. by rewrite Hsend.
Qed.

(** C1, as the code has it.  When the update to [BlockAssigned] fails,
    [StartProofGenerationSession] calls the orm once more to reset the
    block to [BlockUnassigned]; the session it inserted stays in the
    session table, its collector is spawned and the call returns true. *)
Theorem StartProofGenerationSession_failed_update
    m trace now roller m1 db e db1 :
  SelectRoller m = Ret (Some roller) m1 →
  (createBlockTracesMsg trace).2 = None →
  sendMessage roller (createBlockTracesMsg trace).1 = None →
  orm_of m = Some db →
  UpdateBlockStatus (Uint64 (Number trace)) BlockAssigned db = (Some e, db1) →
  let i := Uint64 (Number trace) in
  ∃ m' s,
    StartProofGenerationSession trace now m = Ret true m' ∧
    sessions m' = <[i := s]> (sessions m) ∧
    id s = i ∧
    rollers_of m' s = {[PublicKey roller := rollerAssigned]} ∧
    goroutines m' = goroutines m ++ [(i, s)] ∧
    orm_log m' = orm_log m ++
      [CallUpdateBlockStatus i BlockAssigned (Some e);
       CallUpdateBlockStatus i BlockUnassigned
         (UpdateBlockStatus i BlockUnassigned db1).1].
Proof.
  intros Hsel Hmsg Hsend Horm Hupd. cbv zeta.
  destruct (SelectRoller_Some _ _ _ Hsel) as (Hsame & Hopen & _ & _).
  unfold same_sessions_and_store in Hsame. destruct_and!.
  unfold StartProofGenerationSession, bind. rewrite Hsel, Hopen.
  unfold StartProofGenerationSession_body.
  destruct (createBlockTracesMsg trace) as [msg err]; simpl in Hmsg, Hsend.
  subst err. rewrite Hsend.
  unfold StartProofGenerationSession_deferred. munfold. cbn.
  replace (orm_of m1) with (Some db) by congruence.
  rewrite Hupd. cbn. munfold. cbn.
  destruct (UpdateBlockStatus _ BlockUnassigned db1) as [err2 db2] eqn:Hupd2.
  cbn. eexists _, _. split; [reflexivity|]. cbn.
  split. { replace (sessions m1) with (sessions m) by done. reflexivity. }
  split; [done|].
  split. { unfold rollers_of. cbn. by rewrite lookup_insert_eq. }
  split. { congruence. }
  replace (orm_log m1) with (orm_log m) by done.
  by rewrite <- app_assoc.
Qed.

(** ** The orm history *)

Lemma log_same_nil {A} (xs calls : list A) : xs = xs ++ calls → calls = [].
Proof.
  intros Heq. apply (app_inv_head xs). by rewrite app_nil_r.
Qed.

Lemma status_writes_app i (l1 l2 : list OrmCall) :
  status_writes i (l1 ++ l2) = status_writes i l1 ++ status_writes i l2.
Proof.
  induction l1 as [|c l1 IH]; simpl; [done|].
  destruct c; try done. case_decide; simpl; by rewrite IH.
Qed.

(** ** HandleZkProof *)

Lemma HandleZkProof_body_effects msg s secs m r dbErr success m' :
  HandleZkProof_body msg s secs m = Ret (r, dbErr, success) m' →
  same_tables m m' ∧ channels m' = channels m ∧
  ∃ calls, orm_log m' = orm_log m ++ calls ∧
    (∀ i, i ≠ message.ID msg → status_writes i calls = []) ∧
    status_writes (message.ID msg) calls ∈
      [ []; [BlockFailed]; [BlockProved];
        [BlockProved; BlockVerified]; [BlockProved; BlockFailed] ].
Proof.
  unfold HandleZkProof_body. munfold. intros Hrun.
  repeat (case_match; simplify_eq/=);
    (split; [by repeat split|]); (split; [done|]);
    rewrite <- ?app_assoc; (eexists; split; [reflexivity|]);
    (split; [intros i Hi; cbn; by rewrite ?decide_False by done|]);
    cbn; rewrite ?decide_True by done; in_list.
Qed.

Lemma sent_status_not_Assigned dbErr success :
  sent_status dbErr success ≠ rollerAssigned.
Proof. unfold sent_status. by case_match. Qed.

Lemma HandleZkProof_deferred_effects pk0 msg s dbErr success m m' :
  HandleZkProof_deferred pk0 msg s dbErr success m = Ret tt m' →
  same_tables m m' ∧ failedSessionInfos m' = failedSessionInfos m ∧
  (∃ buf, channels m !! finishChan s = Some buf ∧
          length buf < proofAndPkBufferSize ∧
          channels m' =
            <[finishChan s :=
                buf ++ [{| pk := pk0; status := sent_status dbErr success |}]]>
              (channels m)) ∧
  ∃ calls, orm_log m' = orm_log m ++ calls ∧
    (∀ i, i ≠ message.ID msg → status_writes i calls = []) ∧
    status_writes (message.ID msg) calls =
      match dbErr with Some _ => [BlockUnassigned] | None => [] end.
Proof.
  unfold HandleZkProof_deferred, HandleZkProof_rollback, chan_send, sent_status.
  munfold. intros Hrun.
  repeat (case_match; simplify_eq/=);
    (split; [by repeat split|]); (split; [done|]);
    (split; [eexists; split; [eassumption|split; [eassumption|reflexivity]]|]).
  1,2: eexists; split; [reflexivity|]; cbn;
    (split; [intros i Hi; by rewrite decide_False by done|]);
    by rewrite decide_True by done.
  all: exists []; by rewrite app_nil_r.
Qed.

(** After an orm error kept in [dbErr] the deferred function resets the
    block and signals [rollerProofInvalid]. *)
Lemma HandleZkProof_deferred_dbErr pk0 msg s e success m m' :
  HandleZkProof_deferred pk0 msg s (Some e) success m = Ret tt m' →
  (∃ calls, orm_log m' = orm_log m ++ calls ∧
            status_writes (message.ID msg) calls = [BlockUnassigned]) ∧
  ∃ buf, channels m !! finishChan s = Some buf ∧
         channels m' !! finishChan s =
           Some (buf ++ [{| pk := pk0; status := rollerProofInvalid |}]).
Proof.
  intros Hrun.
  apply HandleZkProof_deferred_effects in Hrun
    as (_ & _ & (buf & Hb & _ & Hc) & calls & Hlog & _ & Hw).
  split; [by exists calls|]. exists buf. split; [done|].
  rewrite Hc, lookup_insert_eq. unfold sent_status.
  by rewrite andb_false_r.
Qed.

Lemma HandleZkProof_effects pk0 payload now m r m' :
  HandleZkProof pk0 payload now m = Ret r m' →
  same_tables m m' ∧
  (channels m' = channels m ∨
   ∃ msg s buf st,
     json_Unmarshal_ProofMsg payload = inr msg ∧
     sessions m !! message.ID msg = Some s ∧
     channels m !! finishChan s = Some buf ∧
     length buf < proofAndPkBufferSize ∧ st ≠ rollerAssigned ∧
     channels m' =
       <[finishChan s := buf ++ [{| pk := pk0; status := st |}]]> (channels m)) ∧
  ∃ calls, orm_log m' = orm_log m ++ calls ∧
           ∀ i, status_writes i calls ∈ HandleZkProof_writes.
Proof.
  unfold HandleZkProof. intros Hrun.
  assert (same_tables m m ∧ channels m = channels m ∧
          ∃ calls, orm_log m = orm_log m ++ calls ∧
                   ∀ i, status_writes i calls ∈ HandleZkProof_writes) as Hid.
  { split; [by repeat split|]. split; [done|].
    exists []. rewrite app_nil_r. split; [done|]. intros i. in_list. }
  destruct (json_Unmarshal_ProofMsg payload) as [e|msg] eqn:Hdec.
  { unfold ret in Hrun. simplify_eq. by destruct Hid as (? & ? & ?); auto. }
  unfold bind at 1, get in Hrun.
  destruct (sessions m !! message.ID msg) as [s|] eqn:Hs;
    [|unfold ret in Hrun; simplify_eq; by destruct Hid as (? & ? & ?); auto].
  assert (
    (let! '(r, dbErr, success) :=
       HandleZkProof_body msg s (Z.to_N (now - startTime s)) in
     run! HandleZkProof_deferred pk0 msg s dbErr success in ret r) m
    = Ret r m' →
    same_tables m m' ∧
    (∃ buf st,
       channels m !! finishChan s = Some buf ∧
       length buf < proofAndPkBufferSize ∧ st ≠ rollerAssigned ∧
       channels m' =
         <[finishChan s := buf ++ [{| pk := pk0; status := st |}]]>
           (channels m)) ∧
    ∃ calls, orm_log m' = orm_log m ++ calls ∧
             ∀ i, status_writes i calls ∈ HandleZkProof_writes) as Hgo.
  { clear Hrun Hid. unfold bind, ret. intros Hrun.
    destruct (HandleZkProof_body _ _ _ m) as [[[r1 dbErr] success] m1| |]
      eqn:Hbody; [|done..].
    destruct (HandleZkProof_deferred _ _ _ _ _ m1) as [[] m2| |]
      eqn:Hdef; [|done..].
    simplify_eq.
    apply HandleZkProof_body_effects in Hbody
      as (Ht1 & Hc1 & calls1 & Hl1 & Ho1 & Hw1).
    apply HandleZkProof_deferred_effects in Hdef
      as (Ht2 & _ & (buf & Hb & Hlen & Hc2) & calls2 & Hl2 & Ho2 & Hw2).
    split.
    { unfold same_tables in *. destruct_and!. repeat split; congruence. }
    split.
    { exists buf, (sent_status dbErr success). rewrite <- Hc1.
      repeat split; try done. apply sent_status_not_Assigned. }
    exists (calls1 ++ calls2). rewrite Hl2, Hl1, app_assoc.
    split; [done|]. intros i. rewrite status_writes_app.
    destruct (decide (i = message.ID msg)) as [->|Hne].
    - rewrite Hw2. unfold HandleZkProof_writes.
      set_unfold in Hw1.
      destruct Hw1 as [E|[E|[E|[E|[E|[]]]]]]; rewrite E;
        destruct dbErr; simpl; in_list.
    - rewrite Ho1, Ho2 by done. in_list. }
  destruct (rollers_of m s !! pk0) as [[]|] eqn:Hst;
    try (unfold ret in Hrun; simplify_eq; by destruct Hid as (? & ? & ?); auto);
    apply Hgo in Hrun as (? & (buf & st & ?) & ?);
    (split; [done|]); (split; [|done]); right; by exists msg, s, buf, st.
Qed.

(** C6. With the proof stored and the block marked [BlockProved], the
    verifier's reply decides the rest: an error records a failed session
    with the error's text and the block is set to [BlockFailed]; a clean
    false sets [BlockFailed] after [BlockProved] and records nothing; a
    clean true sets [BlockVerified].  The roller is signalled
    [rollerProofValid] only in the last case. *)
Theorem HandleZkProof_verifier_outcomes
    m pk0 payload now msg s st buf v db db1 db2 db3 db4 b0 bs gerr
    verdict verr :
  json_Unmarshal_ProofMsg payload = inr msg →
  message.Status msg = message.StatusOk →
  sessions m !! message.ID msg = Some s →
  rollers_of m s !! pk0 = Some st → st ≠ rollerProofValid →
  channels m !! finishChan s = Some buf →
  length buf < proofAndPkBufferSize →
  verifier m = Some v →
  orm_of m = Some db →
  let i := message.ID msg in
  let proof := message.zk_Proof (message.Proof_ msg) in
  let final_pair := message.FinalPair (message.Proof_ msg) in
  let secs := Z.to_N (now - startTime s) in
  let final := if verdict && bool_decide (verr = None)
               then BlockVerified else BlockFailed in
  UpdateProofByNumber i proof final_pair secs db = (None, db1) →
  UpdateBlockStatus i BlockProved db1 = (None, db2) →
  GetBlockResults [("number", FNumber i)] [] db2 = (b0 :: bs, gerr, db3) →
  VerifyProof v b0 (message.Proof_ msg) = (verdict, verr) →
  UpdateBlockStatus i final db3 = (None, db4) →
  ∃ m',
    HandleZkProof pk0 payload now m = Ret None m' ∧
    orm_of m' = Some db4 ∧
    orm_log m' = orm_log m ++
      [CallUpdateProofByNumber i proof final_pair secs None;
       CallUpdateBlockStatus i BlockProved None;
       CallGetBlockResults [("number", FNumber i)] [] (b0 :: bs) gerr;
       CallUpdateBlockStatus i final None] ∧
    match verr, verdict with
    | Some e, _ =>
        final = BlockFailed ∧
        failedSessionInfos m' =
          <[id s := newSessionInfo s BlockFailed e true]> (failedSessionInfos m) ∧
        channels m' =
          <[finishChan s := buf ++ [{| pk := pk0; status := rollerProofInvalid |}]]>
            (channels m)
    | None, false =>
        final = BlockFailed ∧
        failedSessionInfos m' = failedSessionInfos m ∧
        channels m' =
          <[finishChan s := buf ++ [{| pk := pk0; status := rollerProofInvalid |}]]>
            (channels m)
    | None, true =>
        final = BlockVerified ∧
        failedSessionInfos m' = failedSessionInfos m ∧
        channels m' =
          <[finishChan s := buf ++ [{| pk := pk0; status := rollerProofValid |}]]>
            (channels m)
    end.
Proof.
  intros Hdec Hok Hs Hst Hnv Hch Hroom Hv Horm. cbv zeta.
  intros Hup1 Hup2 Hget Hver Hup3.
  unfold HandleZkProof. rewrite Hdec. unfold bind at 1, get. rewrite Hs, Hst.
  destruct st; [|done|];
    destruct verr as [e|]; destruct verdict; cbn in Hup3;
    (eexists; split;
     [ unfold HandleZkProof_body, HandleZkProof_deferred,
         HandleZkProof_rollback, chan_send, sent_status; munfold;
       rewrite Hok, bool_decide_ne_same; cbn; rewrite Horm, Hup1; cbn;
       rewrite Hup2; cbn; rewrite Hv; cbn; rewrite Hget; cbn;
       rewrite Hver; cbn;
       rewrite Hup3; cbn; rewrite Hch; rewrite decide_True by done;
       reflexivity
     | cbn; rewrite <- !app_assoc; done ]).
Qed.

Lemma StartProofGenerationSession_effects trace now m r m' :
  StartProofGenerationSession trace now m = Ret r m' →
  (if r then started trace now m m' else same_sessions_and_store m m') ∧
  ∃ calls, orm_log m' = orm_log m ++ calls ∧
    (∀ i, i ≠ Uint64 (Number trace) → status_writes i calls = []) ∧
    status_writes (Uint64 (Number trace)) calls ∈ Start_writes ∧
    (r = false → calls = []).
Proof.
  unfold StartProofGenerationSession. unfold bind at 1.
  destruct (SelectRoller_spec m) as (ro & m1 & Hsel & Hsame & _ & _).
  rewrite Hsel. intros Hrun.
  assert (∀ m2, same_sessions_and_store m m2 →
          same_sessions_and_store m m2 ∧
          ∃ calls, orm_log m2 = orm_log m ++ calls ∧
            (∀ i, i ≠ Uint64 (Number trace) → status_writes i calls = []) ∧
            status_writes (Uint64 (Number trace)) calls ∈ Start_writes ∧
            (false = false → calls = [])) as Hnothing.
  { intros m2 Hm2. split; [done|]. exists [].
    rewrite app_nil_r. repeat split; try done; [apply Hm2|in_list]. }
  destruct ro as [roller|]; [|unfold ret in Hrun; simplify_eq; by apply Hnothing].
  destruct (isClosed roller) eqn:Hopen;
    [unfold ret in Hrun; simplify_eq; by apply Hnothing|].
  unfold StartProofGenerationSession_body,
    StartProofGenerationSession_deferred in Hrun.
  destruct (createBlockTracesMsg trace) as [msg [err|]];
    [unfold bind, ret in Hrun; simplify_eq; by apply Hnothing|].
  destruct (sendMessage roller msg);
    [unfold bind, ret in Hrun; simplify_eq; by apply Hnothing|].
  destruct Hsame as (Hcfg & Hses & Hfail & Hver & Horm & Hrm & Hch & Hnr
                     & Hgo & Hlog).
  revert Hrun. munfold. cbn. intros Hrun.
  repeat (case_match; simplify_eq/=).
  - split.
    { exists roller, m1. split; [done|]. cbn.
      by rewrite Hses, Hrm, Hch, Hnr, Hgo, Hfail. }
    eexists. rewrite <- app_assoc, Hlog.
    split; [reflexivity|]. cbn.
    split; [intros i Hi; by rewrite !decide_False by congruence|].
    rewrite !decide_True by done. split; [in_list|done].
  - split.
    { exists roller, m1. split; [done|]. cbn.
      by rewrite Hses, Hrm, Hch, Hnr, Hgo, Hfail. }
    eexists. rewrite Hlog. split; [reflexivity|]. cbn.
    split; [intros i Hi; by rewrite !decide_False by congruence|].
    rewrite !decide_True by done. split; [in_list|done].
Qed.

(** ** CollectProofs *)

Lemma participatingRollers_spec m s pk0 :
  pk0 ∈ participatingRollers m s ↔
  rollers_of m s !! pk0 = Some rollerProofValid.
Proof.
  unfold participatingRollers. rewrite list_elem_of_bind. split.
  - intros ([pk' st] & Hin & Hm). apply elem_of_map_to_list in Hm.
    case_bool_decide; [|by apply elem_of_nil in Hin].
    apply list_elem_of_singleton in Hin. by subst.
  - intros Hl. exists (pk0, rollerProofValid). split.
    + rewrite bool_decide_eq_true_2 by done. apply list_elem_of_here.
    + by apply elem_of_map_to_list.
Qed.

Lemma participatingRollers_nil m s :
  participatingRollers m s = [] ↔
  ∀ pk0, rollers_of m s !! pk0 ≠ Some rollerProofValid.
Proof.
  split.
  - intros Hnil pk0 Hv. apply participatingRollers_spec in Hv.
    rewrite Hnil in Hv. by apply elem_of_nil in Hv.
  - intros Hall. destruct (participatingRollers m s) as [|pk0 l] eqn:E; [done|].
    exfalso. apply (Hall pk0), participatingRollers_spec.
    rewrite E. apply list_elem_of_here.
Qed.

Lemma CollectProofs_timer_spec i s m :
  timer_with_valid_proof i s m ∨ timer_without_valid_proof i s m.
Proof.
  unfold timer_with_valid_proof, timer_without_valid_proof, CollectProofs_timer.
  munfold. cbv beta.
  destruct (participatingRollers m s) as [|pk0 l] eqn:E.
  - right. split; [by apply participatingRollers_nil|].
    rewrite bool_decide_eq_true_2 by done. cbn.
    destruct (orm_of m) as [db|] eqn:Horm; [|done].
    destruct (UpdateBlockStatus i BlockFailed db) as [err db'] eqn:Hup. cbn.
    eexists. split; [reflexivity|]. by cbn.
  - left. split.
    { exists pk0. apply participatingRollers_spec. rewrite E.
      apply list_elem_of_here. }
    rewrite bool_decide_eq_false_2 by done. unfold Intn.
    destruct (rand m); cbn; eexists; (split; [reflexivity|]); by cbn.
Qed.

(** C7. At the deadline the collector deletes the session.  When no
    participant has status [rollerProofValid] it also records the failed
    session made from exactly the message below and calls the orm to set
    the block to [BlockFailed] (a nil orm panics there); when one has, it
    touches neither the orm nor the failed sessions. *)
Theorem CollectProofs_deadline m i s :
  ((∃ pk0, rollers_of m s !! pk0 = Some rollerProofValid) ∧
   ∃ m', CollectProofs_timer i s m = Ret tt m' ∧
         sessions m' = delete i (sessions m) ∧
         failedSessionInfos m' = failedSessionInfos m ∧
         orm_of m' = orm_of m ∧ orm_log m' = orm_log m)
  ∨
  ((∀ pk0, rollers_of m s !! pk0 ≠ Some rollerProofValid) ∧
   match orm_of m with
   | None => CollectProofs_timer i s m = NilPanic
   | Some db =>
       ∃ m',
         CollectProofs_timer i s m = Ret tt m' ∧
         sessions m' = delete i (sessions m) ∧
         failedSessionInfos m' =
           <[id s :=
               newSessionInfo s BlockFailed
                 "proof generation session ended without receiving any valid proofs"
                 true]> (failedSessionInfos m) ∧
         orm_of m' = Some (UpdateBlockStatus i BlockFailed db).2 ∧
         status_writes i (orm_log m') =
           status_writes i (orm_log m) ++ [BlockFailed]
   end).
Proof.
  destruct (CollectProofs_timer_spec i s m) as [[Hv Hrun]|[Hnv Hrun]].
  - left. split; [done|]. destruct Hrun as (m' & ? & ? & ? & ? & ? & _).
    by exists m'.
  - right. split; [done|]. destruct (orm_of m) as [db|]; [|done].
    destruct Hrun as (m' & Hrun & Hs & Hf & Ho & Hl & _).
    exists m'. split; [done|]. split; [done|]. split; [exact Hf|].
    split; [done|].
    rewrite Hl, status_writes_app. cbn. by rewrite decide_True by done.
Qed.

(** ** The dispatcher tick *)

Lemma StartProofGenerationSession_no_idle trace now m :
  GetNumberOfIdleRollers m = 0 →
  ∃ m', StartProofGenerationSession trace now m = Ret false m' ∧
        same_sessions_and_store m m' ∧ conns m' ⊆ conns m.
Proof.
  intros Hidle. unfold StartProofGenerationSession, bind.
  destruct (SelectRoller_spec m) as (r & m1 & -> & Hsame & Hsub & Hpost).
  destruct r as [conn|]; [|by exists m1].
  destruct Hpost as (_ & Hi & Hin).
  by rewrite (no_idle_all_busy m conn) in Hi.
Qed.

Lemma Loop_dispatch_no_idle traces now m :
  GetNumberOfIdleRollers m = 0 →
  ∃ m', Loop_dispatch traces now m = Ret traces m' ∧
        same_sessions_and_store m m' ∧ conns m' ⊆ conns m.
Proof.
  intros Hidle. destruct traces as [|t rest]; simpl.
  - exists m. split; [done|]. split; [apply same_refl|done].
  - unfold bind.
    destruct (StartProofGenerationSession_no_idle t now m Hidle)
      as (m' & -> & ? & ?).
    by exists m'.
Qed.

(** C2, as the code has it.  On a tick with an empty buffer and no idle
    roller the dispatcher, when it has an orm, still makes one query: the
    unassigned blocks with [LIMIT 0].  It makes no other call on the orm,
    starts no session, and the buffer after the tick is what the orm
    replied. *)
Theorem Loop_tick_no_idle_roller m now db rows err db' :
  GetNumberOfIdleRollers m = 0 →
  orm_of m = Some db →
  let fields := [("status", FStatus BlockUnassigned)] in
  let args := ["ORDER BY number " +:+ OrderSession (cfg m) +:+ " LIMIT 0;"] in
  GetBlockResults fields args db = (rows, err, db') →
  ∃ m', Loop_tick [] now m = Ret rows m' ∧
        orm_log m' = orm_log m ++ [CallGetBlockResults fields args rows err] ∧
        orm_of m' = Some db' ∧
        sessions m' = sessions m ∧ goroutines m' = goroutines m ∧
        roller_maps m' = roller_maps m ∧ channels m' = channels m ∧
        failedSessionInfos m' = failedSessionInfos m.
Proof.
  intros Hidle Horm fields args Hget.
  unfold Loop_tick, bind at 1, get.
  rewrite Horm, Hidle. cbn [length].
  rewrite !bool_decide_eq_true_2 by done. cbn [andb].
  unfold bind, orm_GetBlockResults. rewrite Horm.
  change (" LIMIT " +:+ pretty 0 +:+ ";") with " LIMIT 0;".
  fold fields args. rewrite Hget.
  set (m1 := set_orm db' _ m).
  assert (GetNumberOfIdleRollers m1 = 0) as Hidle1 by exact Hidle.
  destruct err as [e|].
  - exists m1. by repeat split.
  - destruct (Loop_dispatch_no_idle rows now m1 Hidle1)
      as (m' & -> & Hsame & _).
    exists m'. split; [done|].
    destruct Hsame as (Hcfg & Hses & Hfail & Hver & Horm' & Hrm & Hch & Hnr
                       & Hgo & Hlog).
    by rewrite Hlog, Horm', Hses, Hgo, Hrm, Hch, Hfail.
Qed.

(** ** Along a schedule *)

Lemma op_sequence_one ws :
  ws ∈ Start_writes ++ HandleZkProof_writes ++ CollectProofs_writes →
  op_sequence ws.
Proof.
  intros Hin. rewrite <- (app_nil_r ws). apply op_app; [done|constructor].
Qed.

Lemma op_sequence_app ws1 ws2 :
  op_sequence ws1 → op_sequence ws2 → op_sequence (ws1 ++ ws2).
Proof.
  induction 1 as [|ws rest Hin Hrest IH]; intros H2; simpl; [done|].
  rewrite <- app_assoc. apply op_app; auto.
Qed.

Lemma no_return_refl m : no_return m m.
Proof. intros r mp pk0 st ? ? ?. by exists mp, st. Qed.

Lemma no_return_trans m1 m2 m3 :
  no_return m1 m2 → no_return m2 m3 → no_return m1 m3.
Proof.
  intros H12 H23 r mp pk0 st Hr Hp Hst.
  destruct (H12 _ _ _ _ Hr Hp Hst) as (mp' & st' & ? & ? & ?).
  by eapply H23.
Qed.

Lemma no_return_same_maps m m' :
  roller_maps m' = roller_maps m → no_return m m'.
Proof. intros Heq r mp pk0 st ? ? ?. exists mp, st. by rewrite Heq. Qed.

Lemma log_grows_refl m : log_grows m m.
Proof. exists []. rewrite app_nil_r. split; [done|]. intros i. constructor. Qed.

Lemma log_grows_trans m1 m2 m3 :
  log_grows m1 m2 → log_grows m2 m3 → log_grows m1 m3.
Proof.
  intros (c1 & H1 & Hs1) (c2 & H2 & Hs2). exists (c1 ++ c2).
  rewrite H2, H1, app_assoc. split; [done|]. intros i.
  rewrite status_writes_app. by apply op_sequence_app.
Qed.

Lemma step_ok_refl m : step_ok m m.
Proof. split; [apply log_grows_refl|]. split; [done|apply no_return_refl]. Qed.

Lemma step_ok_trans m1 m2 m3 : step_ok m1 m2 → step_ok m2 m3 → step_ok m1 m3.
Proof.
  intros [Hl1 Hw1] [Hl2 Hw2]. split; [by eapply log_grows_trans|].
  intros Hwf. destruct (Hw1 Hwf) as [Hwf2 Hn1].
  destruct (Hw2 Hwf2) as [Hwf3 Hn2]. split; [done|by eapply no_return_trans].
Qed.

(** A state that differs only in the registry, the random source, the
    failed sessions, the session table or the orm keeps [wf]. *)
Lemma wf_same_heap m m' :
  channels m' = channels m → roller_maps m' = roller_maps m →
  next_ref m' = next_ref m → goroutines m' = goroutines m →
  wf m → wf m'.
Proof. unfold wf. intros -> -> -> ->. done. Qed.

Lemma step_ok_same m m' : same_sessions_and_store m m' → step_ok m m'.
Proof.
  intros (Hcfg & Hses & Hfail & Hver & Horm & Hrm & Hch & Hnr & Hgo & Hlog).
  split.
  - exists []. by rewrite app_nil_r, Hlog; split; [|intros; constructor].
  - intros Hwf. split; [by eapply wf_same_heap|by apply no_return_same_maps].
Qed.

Lemma StartProofGenerationSession_step_ok trace now m r m' :
  StartProofGenerationSession trace now m = Ret r m' → step_ok m m'.
Proof.
  intros Hrun.
  apply StartProofGenerationSession_effects in Hrun
    as (Hst & calls & Hlog & Hother & Hws & _).
  split.
  { exists calls. split; [done|]. intros i.
    destruct (decide (i = Uint64 (Number trace))) as [->|Hne].
    - apply op_sequence_one, elem_of_app. by left.
    - rewrite Hother by done. constructor. }
  intros (Hch & Hrm & Hgo).
  destruct r.
  - destruct Hst as (roller & m1 & Hsel & Hcfg & Hver & Hco & Hra & Hses
                     & Hrm' & Hch' & Hnr' & Hgo' & Hfail).
    split; [split; [|split]|].
    + intros ch buf x. rewrite Hch'. intros Hl Hx.
      destruct (decide (ch = S (next_ref m))) as [->|Hne].
      * rewrite lookup_insert_eq in Hl. simplify_eq. by apply elem_of_nil in Hx.
      * rewrite lookup_insert_ne in Hl by done. by eapply Hch.
    + intros r mp. rewrite Hrm', Hnr'. intros Hl.
      destruct (decide (r = next_ref m)) as [->|Hne]; [lia|].
      rewrite lookup_insert_ne in Hl by done. apply Hrm in Hl. lia.
    + intros k i s. rewrite Hgo', Hnr'. intros Hl.
      apply lookup_app_Some in Hl as [Hl|[_ Hl]].
      * apply Hgo in Hl. lia.
      * apply list_lookup_singleton_Some in Hl as [_ Heq].
        simplify_eq. cbn. lia.
    + intros r mp pk0 st Hl Hp Hne. exists mp, st. rewrite Hrm'.
      rewrite lookup_insert_ne; [done|]. apply Hrm in Hl. lia.
  - destruct Hst as (_ & _ & _ & _ & _ & Hrm' & Hch' & Hnr' & Hgo' & _).
    split; [by eapply wf_same_heap|by apply no_return_same_maps].
Qed.

Lemma Loop_dispatch_step_ok traces now : ∀ m r m',
  Loop_dispatch traces now m = Ret r m' → step_ok m m'.
Proof.
  induction traces as [|t rest IH]; intros m r m'; simpl.
  - unfold ret. intros; simplify_eq. apply step_ok_refl.
  - unfold bind.
    destruct (StartProofGenerationSession t now m) as [ok m1| |] eqn:Hst;
      [|done..].
    apply StartProofGenerationSession_step_ok in Hst.
    destruct ok.
    + intros Hrun. eapply step_ok_trans; [exact Hst|by eapply IH].
    + unfold ret. intros; by simplify_eq.
Qed.

Lemma orm_GetBlockResults_step_ok fields args m r m' :
  orm_GetBlockResults fields args m = Ret r m' → step_ok m m'.
Proof.
  unfold orm_GetBlockResults. intros Hrun.
  repeat (case_match; simplify_eq/=). split.
  - eexists. split; [reflexivity|]. intros i. cbn. constructor.
  - intros Hwf. split; [done|]. by apply no_return_same_maps.
Qed.

Lemma Loop_tick_step_ok traces now m r m' :
  Loop_tick traces now m = Ret r m' → step_ok m m'.
Proof.
  unfold Loop_tick, bind at 1, get.
  case_match; [|by apply Loop_dispatch_step_ok].
  unfold bind.
  destruct (orm_GetBlockResults _ _ m) as [[rows err] m1| |] eqn:Hget; [|done..].
  apply orm_GetBlockResults_step_ok in Hget.
  destruct err; unfold ret; intros Hrun.
  - by simplify_eq.
  - eapply step_ok_trans; [exact Hget|by eapply Loop_dispatch_step_ok].
Qed.

Lemma HandleZkProof_step_ok pk0 payload now m r m' :
  HandleZkProof pk0 payload now m = Ret r m' → step_ok m m'.
Proof.
  intros Hrun.
  apply HandleZkProof_effects in Hrun as (Hsame & Hch & calls & Hlog & Hws).
  destruct Hsame as (_ & _ & _ & _ & Hrm & Hnr & Hgo & _).
  split.
  { exists calls. split; [done|]. intros i.
    apply op_sequence_one, elem_of_app. right. apply elem_of_app. by left. }
  intros (Hc & Hr & Hg). split; [|by apply no_return_same_maps].
  split; [|split].
  - destruct Hch as [->|(msg & s & buf & st & _ & _ & Hl & _ & Hst & ->)];
      [done|].
    intros ch buf' x Hl' Hx.
    destruct (decide (ch = finishChan s)) as [->|Hne].
    + rewrite lookup_insert_eq in Hl'. simplify_eq.
      apply elem_of_app in Hx as [Hx|Hx]; [by eapply Hc|].
      apply list_elem_of_singleton in Hx. by subst.
    + rewrite lookup_insert_ne in Hl' by done. by eapply Hc.
  - intros r0 mp. rewrite Hrm, Hnr. apply Hr.
  - intros k i s. rewrite Hgo, Hnr. apply Hg.
Qed.

Lemma HandleMessage_step_ok pk0 payload now m r m' :
  HandleMessage pk0 payload now m = Ret r m' → step_ok m m'.
Proof.
  unfold HandleMessage. intros Hrun.
  repeat case_match; try (unfold ret in Hrun; simplify_eq; apply step_ok_refl).
  by eapply HandleZkProof_step_ok.
Qed.

Lemma CollectProofs_timer_step_ok i s m r m' :
  CollectProofs_timer i s m = Ret r m' → step_ok m m'.
Proof.
  intros Hrun.
  destruct (CollectProofs_timer_spec i s m) as [[_ Hv]|[_ Hnv]].
  - destruct Hv as (m2 & Hrun2 & _ & _ & _ & Hlog & Hrm & Hch & Hnr & Hgo).
    rewrite Hrun in Hrun2. simplify_eq. split.
    + exists []. rewrite app_nil_r. split; [done|]. intros; constructor.
    + intros Hwf. split; [by eapply wf_same_heap|by apply no_return_same_maps].
  - destruct (orm_of m); [|by rewrite Hrun in Hnv].
    destruct Hnv as (m2 & Hrun2 & _ & _ & _ & Hlog & Hrm & Hch & Hnr & Hgo).
    rewrite Hrun in Hrun2. simplify_eq. split.
    + eexists. split; [exact Hlog|]. intros j. cbn.
      case_decide; [|constructor].
      apply op_sequence_one. unfold CollectProofs_writes.
      rewrite !elem_of_app. right; right. in_list.
    + intros Hwf. split; [by eapply wf_same_heap|by apply no_return_same_maps].
Qed.

Lemma CollectProofs_finish_step_ok (k : nat) i s m r m' :
  goroutines m !! k = Some (i, s) →
  CollectProofs_finish s m = Ret r m' → step_ok m m'.
Proof.
  unfold CollectProofs_finish, chan_recv, rollers_store. munfold.
  intros Hk Hrun.
  destruct (channels m !! finishChan s) as [[|x buf]|] eqn:Hch;
    simplify_eq; try apply step_ok_refl.
  split.
  { exists []. rewrite app_nil_r. split; [done|]. intros; constructor. }
  intros (Hc & Hr & Hg).
  assert (status x ≠ rollerAssigned) as Hx.
  { eapply Hc; [exact Hch|]. apply list_elem_of_here. }
  split; [split; [|split]|]; cbn.
  - intros ch buf' y Hl Hy.
    destruct (decide (ch = finishChan s)) as [->|Hne].
    + rewrite lookup_insert_eq in Hl. simplify_eq.
      eapply Hc; [exact Hch|]. by apply list_elem_of_further.
    + rewrite lookup_insert_ne in Hl by done. by eapply Hc.
  - intros r0 mp Hl.
    destruct (decide (r0 = rollers s)) as [->|Hne].
    + by eapply Hg.
    + rewrite lookup_insert_ne in Hl by done. by eapply Hr.
  - intros k' i' s' Hl. by eapply Hg.
  - intros r0 mp pk0 st Hl Hp Hst. cbn.
    destruct (decide (r0 = rollers s)) as [->|Hne].
    + rewrite lookup_insert_eq. unfold rollers_of. cbn. rewrite Hl. cbn.
      destruct (decide (pk0 = pk x)) as [->|Hpk].
      * eexists _, (status x). split; [done|]. by rewrite lookup_insert_eq.
      * eexists _, st. split; [done|]. by rewrite lookup_insert_ne.
    + exists mp, st. by rewrite lookup_insert_ne.
Qed.

Lemma collector_returns_step_ok (k : nat) m :
  step_ok m (set_goroutines (delete k) m).
Proof.
  split.
  { exists []. cbn. rewrite app_nil_r. split; [done|]. intros; constructor. }
  intros (Hc & Hr & Hg). split; [|by apply no_return_same_maps].
  split; [done|]. split; [done|]. cbn. intros k' i s Hl.
  assert ((i, s) ∈ goroutines m) as Hin.
  { eapply list_elem_of_delete_inv, list_elem_of_lookup_2, Hl. }
  apply list_elem_of_lookup in Hin as [j Hj]. by eapply Hg.
Qed.

Lemma run_step_ok evs : ∀ traces looping m r m',
  run evs traces looping m = Ret r m' → step_ok m m'.
Proof.
  induction evs as [|ev evs IH]; intros traces looping m r m'; simpl.
  { unfold ret. intros; simplify_eq. apply step_ok_refl. }
  destruct ev as [e|k e].
  - destruct looping; [|by apply IH].
    destruct e as [now|pk0 payload now|]; [| |by apply IH]; unfold bind.
    + destruct (Loop_tick traces now m) as [traces' m1| |] eqn:Ht; [|done..].
      intros Hrun. eapply step_ok_trans;
        [by eapply Loop_tick_step_ok|by eapply IH].
    + destruct (HandleMessage pk0 payload now m) as [e m1| |] eqn:Hm; [|done..].
      intros Hrun. eapply step_ok_trans;
        [by eapply HandleMessage_step_ok|by eapply IH].
  - unfold bind at 1, get.
    destruct (goroutines m !! k) as [[i s]|] eqn:Hk; [|by apply IH].
    destruct e; unfold bind, modify.
    + destruct (CollectProofs_timer i s m) as [[] m1| |] eqn:Ht; [|done..].
      intros Hrun. eapply step_ok_trans; [by eapply CollectProofs_timer_step_ok|].
      eapply step_ok_trans; [apply (collector_returns_step_ok k)|by eapply IH].
    + destruct (CollectProofs_finish s m) as [[] m1| |] eqn:Hf; [|done..].
      intros Hrun. eapply step_ok_trans;
        [by eapply CollectProofs_finish_step_ok|by eapply IH].
Qed.

(** With only the [Loop] goroutine moving, [run] is [Loop]. *)
Lemma run_Loop_returned (evs : list LoopEvent) traces m :
  run (OnLoop <$> evs) traces false m = Ret traces m.
Proof. induction evs as [|e evs IH]; simpl; [done|exact IH]. Qed.

Lemma run_Loop (evs : list LoopEvent) : ∀ traces m,
  run (OnLoop <$> evs) traces true m =
  match Loop traces evs m with
  | Ret (traces', _) m' => Ret traces' m'
  | NilPanic => NilPanic
  | SendBlocked => SendBlocked
  end.
Proof.
  induction evs as [|e evs IH]; intros traces m; simpl; [done|].
  destruct e as [now|pk0 payload now|]; unfold bind.
  - destruct (Loop_tick traces now m); [apply IH|done..].
  - destruct (HandleMessage pk0 payload now m); [apply IH|done..].
  - apply run_Loop_returned.
Qed.

Lemma wf_New NewVerifier cfg0 orm0 seed m :
  New NewVerifier cfg0 orm0 seed = inr m → wf m.
Proof.
  unfold New. intros Hnew. repeat (case_match; simplify_eq/=).
  all: split; [|split]; cbn; intros *; by rewrite ?lookup_empty.
Qed.

Lemma HandleZkProof_noop m pk0 payload now msg s :
  json_Unmarshal_ProofMsg payload = inr msg →
  sessions m !! message.ID msg = Some s →
  rollers_of m s !! pk0 = Some rollerProofValid →
  HandleZkProof pk0 payload now m = Ret None m.
Proof.
  intros Hdec Hs Hst. unfold HandleZkProof. rewrite Hdec.
  unfold bind, get. by rewrite Hs, Hst.
Qed.

Lemma HandleZkProof_accepted m pk0 payload now msg s st :
  json_Unmarshal_ProofMsg payload = inr msg →
  sessions m !! message.ID msg = Some s →
  rollers_of m s !! pk0 = Some st → st ≠ rollerProofValid →
  HandleZkProof pk0 payload now m =
  (let! '(r, dbErr, success) :=
     HandleZkProof_body msg s (Z.to_N (now - startTime s)) in
   run! HandleZkProof_deferred pk0 msg s dbErr success in ret r) m.
Proof.
  intros Hdec Hs Hst Hnv. unfold HandleZkProof. rewrite Hdec.
  unfold bind at 1, get. rewrite Hs, Hst. by destruct st.
Qed.

(** *** What does not read the participants' records

    A computation commutes with a change [set_roller_maps g] of the
    records when it runs the same from the changed state, leaving the
    state changed the same way. *)

Lemma bind_commutes {A B} (f : Manager Db → Manager Db)
    (c : M A) (k : A → M B) m :
  c (f m) = state_map f (c m) →
  (∀ a m1, k a (f m1) = state_map f (k a m1)) →
  bind c k (f m) = state_map f (bind c k m).
Proof.
  intros Hc Hk. unfold bind. rewrite Hc. destruct (c m); simpl; auto.
Qed.

Lemma bind_get_commutes {B} (f : Manager Db → Manager Db)
    (k : Manager Db → M B) m :
  (∀ m1, k (f m) (f m1) = state_map f (k m m1)) →
  bind get k (f m) = state_map f (bind get k m).
Proof. intros Hk. unfold bind, get. apply Hk. Qed.

Lemma orm_UpdateBlockStatus_commutes g i st m :
  orm_UpdateBlockStatus i st (set_roller_maps g m) =
  state_map (set_roller_maps g) (orm_UpdateBlockStatus i st m).
Proof.
  unfold orm_UpdateBlockStatus. cbn [orm_of set_roller_maps].
  destruct (orm_of m); [|done]. by destruct (UpdateBlockStatus _ _ _).
Qed.

Lemma orm_UpdateProofByNumber_commutes g i proof final_pair secs m :
  orm_UpdateProofByNumber i proof final_pair secs (set_roller_maps g m) =
  state_map (set_roller_maps g)
    (orm_UpdateProofByNumber i proof final_pair secs m).
Proof.
  unfold orm_UpdateProofByNumber. cbn [orm_of set_roller_maps].
  destruct (orm_of m); [|done]. by destruct (UpdateProofByNumber _ _ _ _ _).
Qed.

Lemma orm_GetBlockResults_commutes g fields args m :
  orm_GetBlockResults fields args (set_roller_maps g m) =
  state_map (set_roller_maps g) (orm_GetBlockResults fields args m).
Proof.
  unfold orm_GetBlockResults. cbn [orm_of set_roller_maps].
  destruct (orm_of m); [|done]. by destruct (GetBlockResults _ _ _) as [[] ?].
Qed.

Lemma chan_send_commutes g ch x m :
  chan_send ch x (set_roller_maps g m) =
  state_map (set_roller_maps g) (chan_send ch x m).
Proof.
  unfold chan_send. cbn [channels set_roller_maps].
  destruct (channels m !! ch); [|done]. by case_decide.
Qed.

(** Take a computation through [set_roller_maps g], piece by piece. *)
Ltac commute_step :=
  cbv beta;
  lazymatch goal with
  | |- bind get _ _ = _ =>
      apply bind_get_commutes; intros ?; cbn [verifier set_roller_maps]
  | |- bind _ _ _ = _ => apply bind_commutes; [|intros ? ?]
  | |- orm_UpdateBlockStatus _ _ _ = _ => apply orm_UpdateBlockStatus_commutes
  | |- orm_UpdateProofByNumber _ _ _ _ _ = _ =>
      apply orm_UpdateProofByNumber_commutes
  | |- orm_GetBlockResults _ _ _ = _ => apply orm_GetBlockResults_commutes
  | |- chan_send _ _ _ = _ => apply chan_send_commutes
  | |- ret _ _ = _ => reflexivity
  | |- addFailedSession _ _ _ = _ => reflexivity
  | |- _ => case_match
  end.

Ltac commute := repeat commute_step.

Lemma HandleZkProof_body_commutes g msg s secs m :
  HandleZkProof_body msg s secs (set_roller_maps g m) =
  state_map (set_roller_maps g) (HandleZkProof_body msg s secs m).
Proof.
  unfold HandleZkProof_body. commute.
Qed.

Lemma HandleZkProof_deferred_commutes g pk0 msg s dbErr success m :
  HandleZkProof_deferred pk0 msg s dbErr success (set_roller_maps g m) =
  state_map (set_roller_maps g)
    (HandleZkProof_deferred pk0 msg s dbErr success m).
Proof. unfold HandleZkProof_deferred, HandleZkProof_rollback. commute. Qed.

(** A proof from a participant recorded [rollerProofInvalid] goes
    through [HandleZkProof] as one from a participant still recorded
    [rollerAssigned] does: the same value returned, the same calls on the
    orm, the same signal, the record apart. *)
Lemma HandleZkProof_as_assigned m pk0 payload now msg s :
  json_Unmarshal_ProofMsg payload = inr msg →
  sessions m !! message.ID msg = Some s →
  rollers_of m s !! pk0 = Some rollerProofInvalid →
  HandleZkProof pk0 payload now (as_assigned pk0 s m) =
  state_map (as_assigned pk0 s) (HandleZkProof pk0 payload now m).
Proof.
  intros Hdec Hs Hst.
  assert (rollers_of (as_assigned pk0 s m) s !! pk0 = Some rollerAssigned)
    as Hst'.
  { unfold rollers_of, as_assigned. cbn [roller_maps set_roller_maps].
    rewrite lookup_insert_eq. cbn [default]. unfold Datatypes.id.
    by rewrite lookup_insert_eq. }
  rewrite (HandleZkProof_accepted (as_assigned pk0 s m) pk0 payload now msg s
             rollerAssigned Hdec Hs Hst') by done.
  rewrite (HandleZkProof_accepted m pk0 payload now msg s
             rollerProofInvalid Hdec Hs Hst) by done.
  unfold as_assigned.
  apply bind_commutes; [apply HandleZkProof_body_commutes|].
  intros [[r dbErr] success] m1.
  apply bind_commutes; [apply HandleZkProof_deferred_commutes|done].
Qed.


(** A proof from a participant not recorded [rollerProofValid] is not a
    no-op: when [HandleZkProof] returns it has called the orm and put a
    signal for the sender on the session's channel. *)
Lemma HandleZkProof_handled m pk0 payload now msg s st r m' :
  json_Unmarshal_ProofMsg payload = inr msg →
  sessions m !! message.ID msg = Some s →
  rollers_of m s !! pk0 = Some st → st ≠ rollerProofValid →
  HandleZkProof pk0 payload now m = Ret r m' →
  ∃ buf st' call calls,
    channels m !! finishChan s = Some buf ∧
    channels m' =
      <[finishChan s := buf ++ [{| pk := pk0; status := st' |}]]> (channels m) ∧
    st' ≠ rollerAssigned ∧
    orm_log m' = orm_log m ++ call :: calls.
Proof.
  intros Hdec Hs Hst Hnv. zk_unfold. rewrite Hdec, Hs, Hst.
  intros Hrun.
  destruct st; [|done|];
    repeat (case_match; simplify_eq/=);
    rewrite <- ?app_assoc; eexists _, _, _, _;
    (split_and!; [done|reflexivity|done|reflexivity]).
Qed.

(** C3, as the code has it.  Along every schedule from a well-formed
    state a participant's recorded status, once it is no longer
    [rollerAssigned], never is [rollerAssigned] again.  In the state
    reached, a proof from a participant recorded [rollerProofValid] is a
    no-op: [HandleZkProof] returns nil and changes nothing, sending
    nothing to the collector either.  A proof from a participant recorded
    [rollerProofInvalid] is handled again, and exactly as one from a
    participant still recorded [rollerAssigned]: the same value returned,
    the same calls on the orm and the same signal; when the call returns
    it has called the orm and put a signal on the session's channel. *)
Theorem participant_status_settles m evs traces looping :
  wf m →
  match run evs traces looping m with
  | Ret _ m' =>
      wf m' ∧ no_return m m' ∧
      ∀ pk0 payload now msg s,
        json_Unmarshal_ProofMsg payload = inr msg →
        sessions m' !! message.ID msg = Some s →
        (rollers_of m' s !! pk0 = Some rollerProofValid →
         HandleZkProof pk0 payload now m' = Ret None m') ∧
        (rollers_of m' s !! pk0 = Some rollerProofInvalid →
         HandleZkProof pk0 payload now (as_assigned pk0 s m') =
           state_map (as_assigned pk0 s) (HandleZkProof pk0 payload now m') ∧
         ∀ r m'',
           HandleZkProof pk0 payload now m' = Ret r m'' →
           ∃ buf st' call calls,
             channels m' !! finishChan s = Some buf ∧
             channels m'' =
               <[finishChan s := buf ++ [{| pk := pk0; status := st' |}]]>
                 (channels m') ∧
             st' ≠ rollerAssigned ∧
             orm_log m'' = orm_log m' ++ call :: calls)
  | _ => True
  end.
Proof.
  intros Hwf.
  destruct (run evs traces looping m) as [r m'| |] eqn:Hrun; [|done..].
  apply run_step_ok in Hrun as [_ Hok].
  destruct (Hok Hwf) as [Hwf' Hnr].
  split; [done|]. split; [done|]. intros pk0 payload now msg s Hdec Hs.
  split; [by apply (HandleZkProof_noop m' pk0 payload now msg s)|].
  intros Hst.
  split; [by apply (HandleZkProof_as_assigned m' pk0 payload now msg s)|].
  intros r' m'' Hr.
  by eapply (HandleZkProof_handled m' pk0 payload now msg s rollerProofInvalid).
Qed.

(** ** Under the lock *)

Lemma count_cons (p : Thread → bool) t ts :
  count p (t :: ts) = Nat.b2n (p t) + count p ts.
Proof.
  unfold count. rewrite filter_cons.
  destruct (decide (p t = true)) as [E|E].
  - by rewrite E.
  - apply not_true_is_false in E. by rewrite E.
Qed.

Lemma count_insert (p : Thread → bool) ts : ∀ (k : nat) t t',
  ts !! k = Some t →
  count p (<[k := t']> ts) + Nat.b2n (p t) = count p ts + Nat.b2n (p t').
Proof.
  induction ts as [|a ts IH]; intros [|k] t t' Hk; simplify_eq/=.
  - rewrite !count_cons. lia.
  - rewrite !count_cons. specialize (IH k t t' Hk). lia.
Qed.

Lemma count_pos (p : Thread → bool) ts (k : nat) t :
  ts !! k = Some t → p t = true → 0 < count p ts.
Proof.
  revert k. induction ts as [|a ts IH]; intros [|k] Hk Hp; simplify_eq/=.
  - rewrite count_cons, Hp. simpl. lia.
  - rewrite count_cons. specialize (IH k Hk Hp). lia.
Qed.

Lemma count_at_entry (p : Thread → bool) ts :
  (∀ t, at_entry t = true → p t = false) →
  forallb at_entry ts = true → count p ts = 0.
Proof.
  intros Hp. induction ts as [|a ts IH]; simpl; [done|].
  intros [Ha Hts]%andb_true_iff. rewrite count_cons, (Hp a Ha), IH; done.
Qed.

Lemma in_defer_holds_read t msg s : in_defer t msg s → holds_read t = true.
Proof. by intros (? & ? & ? & ? & ? & ? & [-> | ->]). Qed.

Lemma lock_inv_defer (w : World Db) (k : nat) t msg s :
  lock_inv w → threads w !! k = Some t → in_defer t msg s →
  sessions (mgr w) !! message.ID msg = Some s ∧ writer w = false.
Proof.
  intros (Hr & Hw & Hex & Hdef) Hk Hin. split.
  - destruct Hin as (pk0 & payload & now & r & dbErr & success & [-> | ->]);
      eapply Hdef; eauto.
  - destruct (writer w) eqn:E; [|done]. specialize (Hex eq_refl).
    pose proof (count_pos holds_read _ _ _ Hk (in_defer_holds_read _ _ _ Hin)).
    lia.
Qed.

(** A move of thread [k] keeps the invariant when the lock accounts for
    it, and when it changes [m.sessions] only while holding the write
    lock. *)
Lemma lock_inv_moved (w : World Db) (k : nat) t t' m' (rd : nat) (wr : bool) :
  lock_inv w → threads w !! k = Some t →
  rd + Nat.b2n (holds_read t) = readers w + Nat.b2n (holds_read t') →
  Nat.b2n wr + Nat.b2n (holds_write t)
    = Nat.b2n (writer w) + Nat.b2n (holds_write t') →
  (wr = true → rd = 0) →
  sessions m' = sessions (mgr w) ∨ holds_write t = true →
  (∀ msg s, in_defer t' msg s → sessions m' !! message.ID msg = Some s) →
  lock_inv (moved w k t' m' rd wr).
Proof.
  intros Hinv Hk Hrd Hwr Hex Hses Hnew.
  pose proof Hinv as (Hr & Hw & Hex0 & Hdef).
  pose proof (count_insert holds_read _ _ _ t' Hk) as Hcr.
  pose proof (count_insert holds_write _ _ _ t' Hk) as Hcw.
  unfold lock_inv, moved. cbn [mgr readers writer threads].
  split; [lia|]. split; [lia|]. split; [done|].
  intros k' pk0 payload now msg s r dbErr success Hl.
  assert (∃ t0, <[k := t']> (threads w) !! k' = Some t0 ∧ in_defer t0 msg s)
    as (t0 & Hl0 & Hin0).
  { destruct Hl as [Hl|Hl]; eexists; (split; [exact Hl|]);
      exists pk0, payload, now, r, dbErr, success; auto. }
  clear Hl. destruct (decide (k' = k)) as [->|Hne].
  - rewrite list_lookup_insert_eq in Hl0 by (by eapply lookup_lt_Some).
    simplify_eq. by apply Hnew.
  - rewrite list_lookup_insert_ne in Hl0 by done.
    destruct (lock_inv_defer w k' t0 msg s Hinv Hl0 Hin0) as [Hs Hwf].
    destruct Hses as [->|Hht]; [done|].
    pose proof (count_pos holds_write _ _ _ Hk Hht). rewrite Hwf in Hw.
    simpl in Hw. lia.
Qed.

Lemma HandleZkProof_rollback_sessions msg dbErr m m' :
  HandleZkProof_rollback msg dbErr m = Ret tt m' → sessions m' = sessions m.
Proof.
  unfold HandleZkProof_rollback. munfold. intros Hrun.
  by repeat (case_match; simplify_eq/=).
Qed.

Lemma chan_send_sessions ch x m m' :
  chan_send ch x m = Ret tt m' → sessions m' = sessions m.
Proof.
  unfold chan_send. intros Hrun. by repeat (case_match; simplify_eq/=).
Qed.

Lemma chan_recv_sessions ch r m m' :
  chan_recv ch m = Ret r m' → sessions m' = sessions m.
Proof.
  unfold chan_recv. intros Hrun. by repeat (case_match; simplify_eq/=).
Qed.

Lemma lock_inv_initial (w : World Db) : initial w → lock_inv w.
Proof.
  intros (Hr & Hw & Hall). unfold lock_inv. rewrite Hr, Hw.
  rewrite !count_at_entry; try done; try by intros [???[]|??[]|??[]|?[]].
  repeat split; try done.
  intros k pk0 payload now msg s r dbErr success [Hl|Hl];
    apply list_elem_of_lookup_2, list_elem_of_In in Hl;
    rewrite forallb_forall in Hall; by apply Hall in Hl.
Qed.

Lemma HandleZkProof_body_sessions msg s secs m out m' :
  HandleZkProof_body msg s secs m = Ret out m' → sessions m' = sessions m.
Proof.
  destruct out as [[r dbErr] success]. intros Hrun.
  by apply HandleZkProof_body_effects in Hrun as ((_ & _ & ? & _) & _).
Qed.

Lemma rollers_store_sessions s x m m' :
  rollers_store s x m = Ret tt m' → sessions m' = sessions m.
Proof. unfold rollers_store, modify. intros Hrun. by simplify_eq. Qed.

(** The bookkeeping of one move: the lock counters. *)
Ltac lock_arith Hr Hw Hex Hpr Hpw :=
  cbn;
  try (specialize (Hpr eq_refl)); try (specialize (Hpw eq_refl));
  repeat match goal with
         | H : writer _ = false |- _ => rewrite H in *
         | H : readers _ = 0 |- _ => rewrite H in *
         end;
  first [ done | lia | by intros
        | destruct (writer _); simpl in *; first [done | lia | intros; lia] ].

Lemma lock_inv_step (w w' : World Db) (lab : Label) :
  lock_inv w → step w lab w' → lock_inv w'.
Proof.
  intros Hinv Hstep. pose proof Hinv as (Hr & Hw & Hex & Hdef).
  destruct Hstep;
    try match goal with
        | Hk : threads _ !! _ = Some _ |- _ =>
            pose proof (count_pos holds_read _ _ _ Hk) as Hpr;
            pose proof (count_pos holds_write _ _ _ Hk) as Hpw;
            cbn in Hpr, Hpw;
            eapply lock_inv_moved;
            [ exact Hinv | exact Hk
            | lock_arith Hr Hw Hex Hpr Hpw | lock_arith Hr Hw Hex Hpr Hpw
            | lock_arith Hr Hw Hex Hpr Hpw | .. ]
        end.
  all: try (by left).
  all: try (by right).
  all: try (intros ? ? (? & ? & ? & ? & ? & ? & [?|?]); by simplify_eq).
  - left. by eapply HandleZkProof_body_sessions.
  - intros msg0 s0 (? & ? & ? & ? & ? & ? & [?|?]); simplify_eq.
    by erewrite HandleZkProof_body_sessions.
  - left. by eapply HandleZkProof_rollback_sessions.
  - intros msg0 s0 (? & ? & ? & ? & ? & ? & [?|?]); simplify_eq.
    erewrite HandleZkProof_rollback_sessions by done.
    eapply Hdef. by left.
  - left. by eapply chan_send_sessions.
  - left. by eapply chan_recv_sessions.
  - unfold lock_inv. cbn.
    match goal with H : sessions _ = sessions _ |- _ => rewrite H end.
    done.
Qed.

Lemma moved_moved (w : World Db) (k : nat) t1 m1 rd1 wr1 t2 m2 rd2 wr2 :
  moved (moved w k t1 m1 rd1 wr1) k t2 m2 rd2 wr2 = moved w k t2 m2 rd2 wr2.
Proof. unfold moved. cbn. by rewrite list_insert_insert_eq. Qed.

Lemma moved_lookup (w : World Db) (k : nat) t0 t m rd wr :
  threads w !! k = Some t0 → threads (moved w k t m rd wr) !! k = Some t.
Proof.
  intros Hk. cbn. apply list_lookup_insert_eq. by eapply lookup_lt_Some.
Qed.

Lemma step_RUnlock (w : World Db) (k : nat) t0 pk0 payload now r m
    (rd : nat) (wr : bool) :
  threads w !! k = Some t0 →
  step (moved w k (THandler pk0 payload now (H_runlock r)) m (S rd) wr) Silent
       (moved w k (THandler pk0 payload now (H_done r)) m rd wr).
Proof.
  intros Hk.
  pose proof (h_RUnlock (moved w k (THandler pk0 payload now (H_runlock r))
                           m (S rd) wr) k pk0 payload now r
                (moved_lookup _ _ _ _ _ _ _ Hk)) as Hstep.
  by rewrite moved_moved in Hstep.
Qed.

(** A handler that runs from its entry to its return without another
    thread in between does what [HandleZkProof] does. *)
Lemma handler_alone (w : World Db) (k : nat) pk0 payload now r m' :
  threads w !! k = Some (THandler pk0 payload now H_entry) →
  writer w = false →
  HandleZkProof pk0 payload now (mgr w) = Ret r m' →
  steps w (moved w k (THandler pk0 payload now (H_done r)) m' (readers w) false).
Proof.
  intros Hk Hwr. unfold HandleZkProof.
  destruct (json_Unmarshal_ProofMsg payload) as [e|msg] eqn:Hdec.
  { unfold ret. intros; simplify_eq. rewrite <- Hwr.
    eapply steps_step; [by eapply h_malformed|apply steps_refl]. }
  unfold bind at 1, get. intros Hrun.
  eapply steps_step; [by eapply h_RLock|]. rewrite Hwr.
  set (w1 := moved w k _ _ _ _).
  assert (threads w1 !! k = Some (THandler pk0 payload now (H_rlocked msg)))
    as Hk1 by (by eapply moved_lookup).
  assert (∀ r0, steps
            (moved w k (THandler pk0 payload now (H_runlock r0)) (mgr w)
               (S (readers w)) false)
            (moved w k (THandler pk0 payload now (H_done r0)) (mgr w)
               (readers w) false)) as Hunlock.
  { intros r0. eapply steps_step; [|apply steps_refl].
    by eapply step_RUnlock. }
  destruct (sessions (mgr w) !! message.ID msg) as [s|] eqn:Hs.
  2:{ unfold ret in Hrun. simplify_eq.
      eapply steps_step; [by eapply (h_no_session w1)|].
      subst w1. rewrite moved_moved. apply Hunlock. }
  destruct (rollers_of (mgr w) s !! pk0) as [st|] eqn:Hst.
  2:{ unfold ret in Hrun. simplify_eq.
      eapply steps_step; [by eapply (h_not_eligible w1)|].
      subst w1. rewrite moved_moved. apply Hunlock. }
  assert (st = rollerProofValid ∨ st ≠ rollerProofValid) as [->|Hnv]
    by (destruct st; auto).
  { unfold ret in Hrun. simplify_eq.
    eapply steps_step; [by eapply (h_already_valid w1)|].
    subst w1. rewrite moved_moved. apply Hunlock. }
  assert ((let! '(r, dbErr, success) :=
             HandleZkProof_body msg s (Z.to_N (now - startTime s)) in
           run! HandleZkProof_deferred pk0 msg s dbErr success in ret r)
            (mgr w) = Ret r m') as Hgo by (by destruct st).
  clear Hrun. unfold bind, ret, HandleZkProof_deferred in Hgo.
  destruct (HandleZkProof_body _ _ _ (mgr w)) as [[[r1 dbErr] success] m1| |]
    eqn:Hbody; [|done..].
  unfold bind in Hgo.
  destruct (HandleZkProof_rollback msg dbErr m1) as [[] m2| |] eqn:Hrb; [|done..].
  destruct (chan_send _ _ m2) as [[] m3| |] eqn:Hsend; [|done..].
  simplify_eq.
  eapply steps_step; [by eapply (h_body w1)|].
  subst w1. rewrite moved_moved.
  eapply steps_step.
  { eapply (h_rollback _ k pk0 payload now msg s r dbErr success m2);
      [by eapply moved_lookup|done]. }
  rewrite moved_moved.
  eapply steps_step.
  { eapply (h_send _ k pk0 payload now msg s r dbErr success m');
      [by eapply moved_lookup|done]. }
  rewrite moved_moved. cbn [readers writer mgr moved].
  eapply steps_step; [|apply steps_refl].
  by eapply step_RUnlock.
Qed.

Lemma reachable_lock_inv (w : World Db) : reachable w → lock_inv w.
Proof.
  induction 1 as [w Hinit|w lab w' _ IH Hstep].
  - by apply lock_inv_initial.
  - by eapply lock_inv_step.
Qed.

(** C8. In every interleaving, when [HandleZkProof] sends on
    [s.finishChan] the session [s] it looked up under [msg.ID] is still
    the one in the session table, and no writer holds the lock: the
    handler has held the read lock since before the lookup, and the
    table is changed only under the write lock. *)
Theorem send_finds_session (w w' : World Db) (k : nat) msg s :
  reachable w →
  step w (Send k msg s) w' →
  sessions (mgr w) !! message.ID msg = Some s ∧
  sessions (mgr w') !! message.ID msg = Some s ∧
  writer w = false ∧ 0 < readers w ∧ holds_read <$> threads w !! k = Some true.
Proof.
  intros Hreach Hstep. apply reachable_lock_inv in Hreach as Hinv.
  inversion Hstep as [| | | | | | |w0 k0 pk0 payload now msg0 s0 r dbErr success
                        m' Hk Hsend| | | | | | | | | | | |]; subst.
  assert (in_defer (THandler pk0 payload now (H_send msg s r dbErr success))
            msg s) as Hin
    by (exists pk0, payload, now, r, dbErr, success; by right).
  destruct (lock_inv_defer w k _ msg s Hinv Hk Hin) as [Hs Hwr].
  split; [done|]. split.
  { cbn. by erewrite chan_send_sessions. }
  split; [done|]. split.
  - destruct Hinv as (Hr & _). rewrite Hr. by eapply count_pos.
  - by rewrite Hk.
Qed.

(** * Further properties of manager.go *)

(** ** IsRollerIdle, GetNumberOfIdleRollers, SelectRoller *)

(** X1. [IsRollerIdle] answers false exactly when some session of the
    table lists the key with status [rollerAssigned]; a key listed only
    with a final status, in sessions not yet deleted, is idle. *)
Theorem IsRollerIdle_iff m hexPk :
  (IsRollerIdle m hexPk = false ↔
   ∃ i sess, sessions m !! i = Some sess ∧
             rollers_of m sess !! hexPk = Some rollerAssigned) ∧
  (IsRollerIdle m hexPk = true ↔
   ∀ i sess, sessions m !! i = Some sess →
             rollers_of m sess !! hexPk ≠ Some rollerAssigned).
Proof.
  split; [apply IsRollerIdle_false|].
  rewrite <- not_false_iff_true, IsRollerIdle_false. split.
  - intros Hn i sess Hs Hr. apply Hn. eauto.
  - intros Hall (i & sess & Hs & Hr). by eapply Hall.
Qed.

(** One iteration of [SelectRoller], with the connection it picked and
    what it did to the registry. *)
Lemma SelectRoller_iter_picked c l m :
  ∃ r m' (idx : nat) conn,
    SelectRoller_iter (c :: l) m = Ret r m' ∧
    (c :: l) !! idx = Some conn ∧ same_sessions_and_store m m' ∧
    match r with
    | inl conn' =>
        conn' = conn ∧ isClosed conn = false ∧
        IsRollerIdle m (PublicKey conn) = true ∧ conns m' = conns m
    | inr rest =>
        rest ≡ₚ delete idx (c :: l) ∧
        ((isClosed conn = true ∧ conns m' = conns_delete conn (conns m)) ∨
         (isClosed conn = false ∧ IsRollerIdle m (PublicKey conn) = false ∧
          conns m' = conns m))
    end.
Proof.
  unfold SelectRoller_iter, bind, Intn.
  set (n := length (c :: l)).
  assert (∃ idx m0, (match rand m with
                     | [] => Ret 0 m
                     | r :: rs => Ret (r mod n) (set_rand (fun _ => rs) m)
                     end) = Ret idx m0 ∧ idx < n ∧
                    same_sessions_and_store m m0 ∧ conns m0 = conns m)
    as (idx & m0 & -> & Hidx & Hsame & Hconns).
  { destruct (rand m) as [|r rs].
    - exists 0, m. subst n. simpl. repeat split; lia.
    - exists (r mod n), (set_rand (fun _ => rs) m). subst n.
      repeat split. apply Nat.mod_upper_bound. simpl. lia. }
  destruct (lookup_lt_is_Some_2 (c :: l) idx Hidx) as [conn Hconn].
  rewrite Hconn.
  destruct (isClosed conn) eqn:Hclosed.
  - eexists _, _, idx, conn. split; [reflexivity|]. split; [done|]. split.
    + eapply same_trans; [exact Hsame|]. repeat split.
    + split; [by eapply drop_at_Permutation|]. left. split; [done|].
      cbn [conns set_conns]. by rewrite Hconns.
  - unfold get. cbv beta iota.
    rewrite (IsRollerIdle_same m m0) by done.
    destruct (IsRollerIdle m (PublicKey conn)) eqn:Hidle; cbn [negb].
    + eexists _, _, idx, conn. split; [reflexivity|]. split; [done|].
      split; [done|]. by split_and!.
    + eexists _, _, idx, conn. split; [reflexivity|]. split; [done|].
      split; [done|]. split; [by eapply drop_at_Permutation|]. by right.
Qed.

Lemma elem_of_delete_other {A} (xs : list A) (j idx : nat) x :
  xs !! j = Some x → j ≠ idx → x ∈ delete idx xs.
Proof.
  intros Hj Hne. destruct (decide (j < idx)) as [Hlt|Hge].
  - apply (list_elem_of_lookup_2 _ j). by rewrite list_lookup_delete_lt.
  - destruct j as [|j]; [lia|].
    apply (list_elem_of_lookup_2 _ j). rewrite list_lookup_delete_ge by lia. done.
Qed.

Lemma conns_delete_spec conn (cs : list Roller) x :
  x ∈ conns_delete conn cs ↔ addr x ≠ addr conn ∧ x ∈ cs.
Proof. unfold conns_delete. by rewrite list_elem_of_filter. Qed.

Lemma SelectRoller_loop_post (fuel : nat) : ∀ allRollers m,
  (length allRollers ≤ fuel)%nat →
  ∃ r m', SelectRoller_loop fuel allRollers m = Ret (Some r) m' ∧
          same_sessions_and_store m m' ∧ loop_post m m' allRollers r.
Proof.
  induction fuel as [|fuel IH]; intros [|c l] m Hlen; simpl in *; [| lia | |].
  1,2: exists None, m; split; [done|]; split; [apply same_refl|];
       split; [done|]; split; [done|]; intros _ c Hc; by apply elem_of_nil in Hc.
  unfold bind.
  destruct (SelectRoller_iter_picked c l m)
    as (r & m1 & idx & conn & -> & Hidx & Hs1 & Hpost).
  destruct r as [conn'|rest].
  - destruct Hpost as (-> & Hopen & Hidle & Hconns).
    exists (Some conn), m1. split; [done|]. split; [done|].
    split; [by rewrite Hconns|]. split; [by rewrite Hconns|done].
  - destruct Hpost as (Hperm & Hcase).
    assert (length rest = length l) as Hl.
    { rewrite Hperm, length_delete by eauto.
      apply lookup_lt_Some in Hidx. simpl in *. lia. }
    destruct (IH rest m1) as (r & m2 & -> & Hs2 & Hsub & Hkeep & Hnil); [lia|].
    exists r, m2. split; [done|]. split; [by eapply same_trans|].
    assert (∀ x, x ∈ rest → x ∈ c :: l) as Hrest.
    { intros x Hx. rewrite Hperm in Hx. by eapply list_elem_of_delete_inv. }
    assert (conns m1 `sublist_of` conns m) as Hsub1.
    { destruct Hcase as [[_ ->]|(_ & _ & ->)]; [|done]. apply sublist_filter. }
    split; [by etrans|]. split.
    + intros x Hx Hall. apply Hkeep; [|by auto].
      destruct Hcase as [[Hcl ->]|(_ & _ & ->)]; [|done].
      apply conns_delete_spec. split; [|done].
      intros Heq. eapply Hall; [|exact Hcl|done].
      by eapply list_elem_of_lookup_2.
    + intros -> c0 Hc0.
      assert (c0 = conn ∨ c0 ∈ rest) as [->|Hin].
      { apply list_elem_of_lookup in Hc0 as [j Hj].
        destruct (decide (j = idx)) as [->|Hne]; [left; congruence|].
        right. rewrite Hperm. by eapply elem_of_delete_other. }
      * destruct Hcase as [[Hcl Hc]|(Hop & Hbusy & _)]; [left|by right].
        split; [done|]. intros x Hx.
        apply (sublist_subseteq _ _ Hsub) in Hx. rewrite Hc in Hx.
        by apply conns_delete_spec in Hx as [? _].
      * destruct (Hnil eq_refl c0 Hin) as [[Hcl Hgone]|[Hop Hbusy]];
          [by left|right].
        split; [done|]. by rewrite <- (IsRollerIdle_same m m1).
Qed.

Lemma SelectRoller_post m :
  ∃ r m', SelectRoller m = Ret r m' ∧ same_sessions_and_store m m' ∧
          select_post m (conns m) r ∧ loop_post m m' (conns m) r.
Proof.
  destruct (SelectRoller_spec m) as (r & m' & Hrun & Hsame & _ & Hsel).
  exists r, m'. split; [done|]. split; [done|]. split; [done|].
  revert Hrun. unfold SelectRoller, bind, get, conns_getAll.
  destruct (SelectRoller_loop_post (length (conns m)) (conns m) m)
    as (r2 & m2 & -> & _ & Hpost); [done|].
  unfold ret. cbn. intros; by simplify_eq.
Qed.

(** X2. [SelectRoller] returns nil exactly when every connection of the
    registry is closed or busy: an open, idle roller is never passed over,
    whatever math/rand draws. *)
Theorem SelectRoller_nil_iff m :
  ∃ r m', SelectRoller m = Ret r m' ∧
          (r = None ↔
           ∀ c, c ∈ conns m →
                isClosed c = true ∨ IsRollerIdle m (PublicKey c) = false).
Proof.
  destruct (SelectRoller_post m) as (r & m' & Hrun & _ & Hsel & _ & _ & Hnil).
  exists r, m'. split; [done|]. split.
  - intros -> c Hc. destruct (Hnil eq_refl c Hc) as [[? _]|[_ ?]]; auto.
  - intros Hall. destruct r as [conn|]; [|done].
    destruct Hsel as (Hopen & Hidle & Hin).
    destruct (Hall conn Hin); congruence.
Qed.

(** X3. The registry after [SelectRoller] is the registry before with
    some connections taken out, in the same order; when pointers identify
    connections, every open one is still there; and when nil is returned
    no closed connection is left. *)
Theorem SelectRoller_registry m :
  addr_identifies (conns m) →
  ∃ r m', SelectRoller m = Ret r m' ∧
          conns m' `sublist_of` conns m ∧
          (∀ x, x ∈ conns m → isClosed x = false → x ∈ conns m') ∧
          (r = None → ∀ x, x ∈ conns m' → isClosed x = false).
Proof.
  intros Huniq.
  destruct (SelectRoller_post m) as (r & m' & Hrun & _ & _ & Hsub & Hkeep & Hnil).
  exists r, m'. split; [done|]. split; [done|]. split.
  - intros x Hx Hopen. apply Hkeep; [done|].
    intros c Hc Hcl Heq. apply (Huniq c x Hc Hx) in Heq. congruence.
  - intros Hr x Hx. destruct (isClosed x) eqn:Hcl; [|done].
    destruct (Hnil Hr x (sublist_subseteq _ _ Hsub x Hx))
      as [[_ Hgone]|[? _]]; [|congruence].
    by destruct (Hgone x Hx).
Qed.

(** X4. [GetNumberOfIdleRollers] counts the connections of the registry
    whose key is idle, closed ones included; it is positive whenever
    [SelectRoller] finds a roller. *)
Theorem GetNumberOfIdleRollers_bounds m :
  GetNumberOfIdleRollers m =
    length (filter (fun r => IsRollerIdle m (PublicKey r) = true) (conns m)) ∧
  (GetNumberOfIdleRollers m ≤ length (conns m))%nat ∧
  match SelectRoller m with
  | Ret (Some _) _ => (0 < GetNumberOfIdleRollers m)%nat
  | _ => True
  end.
Proof.
  split; [apply GetNumberOfIdleRollers_count|]. split.
  - rewrite GetNumberOfIdleRollers_count. apply length_filter.
  - destruct (SelectRoller m) as [[conn|] m'| |] eqn:Hsel; try done.
    apply SelectRoller_Some in Hsel as (_ & _ & Hidle & Hin).
    destruct (GetNumberOfIdleRollers m) eqn:E; [|lia].
    by rewrite (no_idle_all_busy m conn) in Hidle.
Qed.

(** ** StartProofGenerationSession and Loop *)

Lemma StartProofGenerationSession_calls trace now m r m' :
  StartProofGenerationSession trace now m = Ret r m' →
  ∃ ro m1 calls,
    SelectRoller m = Ret ro m1 ∧ conns m' = conns m1 ∧
    orm_log m' = orm_log m ++ calls ∧
    Start_calls (Uint64 (Number trace)) r calls.
Proof.
  unfold StartProofGenerationSession. unfold bind at 1.
  destruct (SelectRoller_spec m) as (ro & m1 & Hsel & Hsame & _ & _).
  rewrite Hsel. intros Hrun. exists ro, m1.
  assert (orm_log m1 = orm_log m) as Hlog by apply Hsame.
  assert (orm_of m1 = orm_of m) as Horm by apply Hsame.
  assert (∃ calls, conns m1 = conns m1 ∧ orm_log m1 = orm_log m ++ calls ∧
                   Start_calls (Uint64 (Number trace)) false calls) as Hnothing.
  { exists []. by rewrite app_nil_r. }
  destruct ro as [roller|];
    [|unfold ret in Hrun; simplify_eq;
      destruct Hnothing as (calls & ? & ? & ?); by exists calls].
  destruct (isClosed roller) eqn:Hopen;
    [unfold ret in Hrun; simplify_eq;
     destruct Hnothing as (calls & ? & ? & ?); by exists calls|].
  unfold StartProofGenerationSession_body,
    StartProofGenerationSession_deferred in Hrun.
  destruct (createBlockTracesMsg trace) as [msg [err|]];
    [unfold bind, ret in Hrun; simplify_eq;
     destruct Hnothing as (calls & ? & ? & ?); by exists calls|].
  destruct (sendMessage roller msg);
    [unfold bind, ret in Hrun; simplify_eq;
     destruct Hnothing as (calls & ? & ? & ?); by exists calls|].
  revert Hrun. munfold. cbn. intros Hrun.
  repeat (case_match; simplify_eq/=).
  - eexists. split; [done|]. split; [done|].
    rewrite <- app_assoc, Hlog. split; [reflexivity|]. right. eauto.
  - eexists. split; [done|]. split; [done|].
    rewrite Hlog. split; [reflexivity|]. by left.
Qed.

(** X5. When [StartProofGenerationSession] returns true, the roller it
    picked was an open, idle connection of the registry; the session is
    stored under the block's id with that roller as its only participant,
    [rollerAssigned]; the roller is now busy, and a following
    [SelectRoller] returns no connection with its key. *)
Theorem StartProofGenerationSession_occupies trace now m m' :
  StartProofGenerationSession trace now m = Ret true m' →
  ∃ roller s,
    roller ∈ conns m ∧ isClosed roller = false ∧
    IsRollerIdle m (PublicKey roller) = true ∧
    sessions m' !! Uint64 (Number trace) = Some s ∧
    id s = Uint64 (Number trace) ∧ startTime s = now ∧
    rollers_of m' s = {[PublicKey roller := rollerAssigned]} ∧
    IsRollerIdle m' (PublicKey roller) = false ∧
    match SelectRoller m' with
    | Ret (Some r) _ => PublicKey r ≠ PublicKey roller
    | _ => True
    end.
Proof.
  intros Hrun.
  apply StartProofGenerationSession_effects in Hrun as [Hst _].
  destruct Hst as (roller & m1 & Hsel & Hcfg & Hver & Hco & Hra & Hses
                   & Hrm & Hch & Hnr & Hgo & Hfail).
  apply SelectRoller_Some in Hsel as (_ & Hopen & Hidle & Hin).
  eexists roller, _. split; [done|]. split; [done|]. split; [done|].
  split; [by rewrite Hses, lookup_insert_eq|].
  split; [done|]. split; [done|].
  assert (rollers_of m' {| id := Uint64 (Number trace); rollers := next_ref m;
                           roller_names := {[PublicKey roller := Name roller]};
                           startTime := now; finishChan := S (next_ref m) |}
          = {[PublicKey roller := rollerAssigned]}) as Hrs.
  { unfold rollers_of. cbn [rollers]. by rewrite Hrm, lookup_insert_eq. }
  split; [done|].
  assert (IsRollerIdle m' (PublicKey roller) = false) as Hbusy.
  { apply IsRollerIdle_false. eexists _, _.
    split; [by rewrite Hses, lookup_insert_eq|].
    by rewrite Hrs, lookup_singleton_eq. }
  split; [done|].
  destruct (SelectRoller m') as [[r|] m2| |] eqn:Hsel; try done.
  apply SelectRoller_Some in Hsel as (_ & _ & Hidle' & _). congruence.
Qed.

Lemma Loop_dispatch_effects now : ∀ traces m rest m',
  Loop_dispatch traces now m = Ret rest m' →
  ∃ done_,
    traces = done_ ++ rest ∧
    (goroutines m').*1 = (goroutines m).*1 ++ ids_of done_ ∧
    (∀ i, i ∈ ids_of done_ →
          ∃ s, sessions m' !! i = Some s ∧ id s = i ∧ startTime s = now) ∧
    (∀ i, i ∉ ids_of done_ → sessions m' !! i = sessions m !! i) ∧
    ∃ calls, orm_log m' = orm_log m ++ calls ∧
             Forall (assigns (ids_of done_)) calls ∧
             (∀ i, i ∈ ids_of done_ →
                   ∃ e, CallUpdateBlockStatus i BlockAssigned e ∈ calls).
Proof.
  induction traces as [|t traces IH]; intros m rest m'; simpl.
  - unfold ret. intros; simplify_eq. exists []. cbn.
    split; [done|]. split; [by rewrite app_nil_r|].
    split; [by intros i ?%elem_of_nil|]. split; [done|].
    exists []. rewrite app_nil_r. split; [done|]. split; [done|].
    by intros i ?%elem_of_nil.
  - unfold bind.
    destruct (StartProofGenerationSession t now m) as [ok m1| |] eqn:Hst;
      [|done..].
    destruct ok; cycle 1.
    { unfold ret. intros; simplify_eq.
      apply StartProofGenerationSession_effects in Hst
        as (Hsame & calls & Hlog & _ & _ & Hnil).
      rewrite (Hnil eq_refl), app_nil_r in Hlog.
      exists []. cbn. split; [done|].
      split; [by rewrite app_nil_r; f_equal; apply Hsame|].
      split; [by intros i ?%elem_of_nil|].
      split; [intros; f_equal; apply Hsame|].
      exists []. rewrite app_nil_r. split; [done|]. split; [done|].
      by intros i ?%elem_of_nil. }
    intros Hrun.
    apply IH in Hrun as (done_ & -> & Hgo & Hnew & Hold & calls & Hlog & Hall & Hin).
    pose proof Hst as Hcalls.
    apply StartProofGenerationSession_calls in Hcalls
      as (_ & _ & calls0 & _ & _ & Hlog0 & Hc0).
    apply StartProofGenerationSession_effects in Hst as [Hst _].
    destruct Hst as (roller & m0 & _ & _ & _ & _ & _ & Hses
                     & _ & _ & _ & Hgo0 & _).
    exists (t :: done_). change (ids_of (t :: done_))
      with (Uint64 (Number t) :: ids_of done_).
    split; [done|]. split.
    { rewrite Hgo, Hgo0, fmap_app. cbn. by rewrite <- app_assoc. }
    split.
    { intros i Hi. destruct (decide (i ∈ ids_of done_)) as [Hd|Hd]; [by auto|].
      apply elem_of_cons in Hi as [->|Hi]; [|done].
      rewrite Hold, Hses, lookup_insert_eq by done. by eexists. }
    split.
    { intros i Hi. apply not_elem_of_cons in Hi as [Hne Hi].
      by rewrite Hold, Hses, lookup_insert_ne. }
    exists (calls0 ++ calls). rewrite Hlog, Hlog0, <- app_assoc.
    split; [done|]. split.
    + apply Forall_app. split.
      * destruct Hc0 as [->|(e & e' & ->)]; repeat constructor;
          eexists _, _, _; (split; [apply list_elem_of_here|]); eauto.
      * eapply Forall_impl; [exact Hall|].
        intros c (i & st & e & Hi & -> & Hst). exists i, st, e.
        split; [by apply list_elem_of_further|done].
    + intros i [->|Hi]%elem_of_cons.
      * destruct Hc0 as [->|(e & e' & ->)]; eexists; apply elem_of_app; left;
          apply list_elem_of_here.
      * destruct (Hin i Hi) as [e He]. exists e. apply elem_of_app. by right.
Qed.


Lemma assigns_not_query ids (call : OrmCall) :
  assigns ids call → is_query call = false.
Proof. by intros (i & st & e & _ & -> & _). Qed.

(** X7. A tick of [Loop] queries the orm at most once, and only when the
    buffer is empty and the orm is not nil: the query comes first, asks
    for the [Unassigned] blocks in the configured order and with the
    number of idle rollers as [LIMIT].  When the query fails the tick ends
    there: the buffer is what the orm returned and no session starts.  In
    every other case the tick dispatches, and what is left in the buffer
    is a suffix of what the dispatch started from. *)
Theorem Loop_tick_queries traces now m rest m' :
  Loop_tick traces now m = Ret rest m' →
  ∃ calls, orm_log m' = orm_log m ++ calls ∧
    if bool_decide (length traces = 0) && bool_decide (orm_of m ≠ None) then
      ∃ rows err calls',
        calls = CallGetBlockResults
                  [("status", FStatus BlockUnassigned)]
                  ["ORDER BY number " +:+ OrderSession (cfg m) +:+ " LIMIT "
                     +:+ pretty (GetNumberOfIdleRollers m) +:+ ";"]
                  rows err :: calls' ∧
        Forall (fun call => is_query call = false) calls' ∧
        match err with
        | Some _ => calls' = [] ∧ rest = rows ∧ sessions m' = sessions m ∧
                    goroutines m' = goroutines m
        | None => ∃ done_, rows = done_ ++ rest
        end
    else
      Forall (fun call => is_query call = false) calls ∧
      ∃ done_, traces = done_ ++ rest.
Proof.
  unfold Loop_tick, bind at 1, get.
  destruct (bool_decide (length traces = 0) && bool_decide (orm_of m ≠ None)).
  - unfold bind, orm_GetBlockResults.
    destruct (orm_of m) as [db|]; [|done].
    destruct (GetBlockResults _ _ db) as [[rows err] db'].
    destruct err as [e|].
    + unfold ret. intros; simplify_eq. eexists. split; [reflexivity|].
      by eexists _, _, [].
    + intros Hrun.
      apply Loop_dispatch_effects in Hrun
        as (done_ & -> & _ & _ & _ & calls & Hlog & Hall & _).
      eexists. rewrite Hlog. cbn [orm_log set_orm]. rewrite <- app_assoc.
      split; [reflexivity|]. eexists _, _, calls. split; [done|].
      split; [|by eauto].
      eapply Forall_impl; [exact Hall|]. apply assigns_not_query.
  - intros Hrun.
    apply Loop_dispatch_effects in Hrun
      as (done_ & -> & _ & _ & _ & calls & Hlog & Hall & _).
    exists calls. split; [done|]. split; [|by eauto].
    eapply Forall_impl; [exact Hall|]. apply assigns_not_query.
Qed.

Lemma filter_sublist_mono {A} (P : A → Prop) `{!∀ x, Decision (P x)}
    (xs ys : list A) :
  xs `sublist_of` ys → filter P xs `sublist_of` filter P ys.
Proof.
  induction 1 as [|x xs ys _ IH|x xs ys _ IH]; [done|..];
    rewrite ?filter_cons; repeat case_decide; try done; by constructor.
Qed.

Lemma length_filter_impl {A} (P Q : A → Prop) `{!∀ x, Decision (P x)}
    `{!∀ x, Decision (Q x)} (xs : list A) :
  (∀ x, P x → Q x) → (length (filter P xs) ≤ length (filter Q xs))%nat.
Proof.
  intros HPQ. rewrite <- (list_filter_filter_l P Q) by done.
  apply length_filter.
Qed.

Lemma length_filter_impl_lt {A} (P Q : A → Prop) `{!∀ x, Decision (P x)}
    `{!∀ x, Decision (Q x)} (xs : list A) x :
  (∀ y, P y → Q y) → x ∈ xs → Q x → ¬ P x →
  (length (filter P xs) < length (filter Q xs))%nat.
Proof.
  intros HPQ Hx HQ HP. rewrite <- (list_filter_filter_l P Q) by done.
  apply (length_filter_lt _ _ x); [|done]. by apply list_elem_of_filter.
Qed.

Lemma IsRollerIdle_started trace now m m' hexPk :
  wf m → sessions m !! Uint64 (Number trace) = None →
  started trace now m m' →
  IsRollerIdle m' hexPk = true → IsRollerIdle m hexPk = true.
Proof.
  intros (_ & Hheap & _) Hfresh
    (roller & m1 & _ & _ & _ & _ & _ & Hses & Hrm & _) Hidle.
  apply not_false_iff_true. intros Hbusy. apply not_false_iff_true in Hidle.
  apply Hidle. apply IsRollerIdle_false.
  apply IsRollerIdle_false in Hbusy as (i & sess & Hs & Hr).
  exists i, sess. split.
  - rewrite Hses, lookup_insert_ne; [done|]. congruence.
  - revert Hr. unfold rollers_of. rewrite Hrm.
    destruct (roller_maps m !! rollers sess) as [mp|] eqn:Hmp; [|done].
    rewrite lookup_insert_ne; [by rewrite Hmp|].
    apply Hheap in Hmp. lia.
Qed.

Lemma started_busy trace now m m' :
  started trace now m m' →
  ∃ roller m1, SelectRoller m = Ret (Some roller) m1 ∧
               IsRollerIdle m' (PublicKey roller) = false.
Proof.
  intros (roller & m1 & Hsel & _ & _ & _ & _ & Hses & Hrm & _).
  exists roller, m1. split; [done|].
  apply IsRollerIdle_false.
  exists (Uint64 (Number trace)),
    {| id := Uint64 (Number trace); rollers := next_ref m;
       roller_names := {[PublicKey roller := Name roller]};
       startTime := now; finishChan := S (next_ref m) |}.
  split; [by rewrite Hses, lookup_insert_eq|].
  unfold rollers_of. cbn [rollers].
  rewrite Hrm, lookup_insert_eq. cbn. by rewrite lookup_singleton_eq.
Qed.

Lemma StartProofGenerationSession_idle_count trace now m r m' :
  wf m → addr_identifies (conns m) →
  sessions m !! Uint64 (Number trace) = None →
  StartProofGenerationSession trace now m = Ret r m' →
  conns m' `sublist_of` conns m ∧
  if r then (GetNumberOfIdleRollers m' < GetNumberOfIdleRollers m)%nat
  else (GetNumberOfIdleRollers m' ≤ GetNumberOfIdleRollers m)%nat.
Proof.
  intros Hwf Huniq Hfresh Hrun.
  destruct (StartProofGenerationSession_calls _ _ _ _ _ Hrun)
    as (ro & m1 & _ & Hsel & Hconns & _).
  destruct (SelectRoller_post m)
    as (ro' & m1' & Hsel' & _ & _ & Hsub & Hkeep & _).
  rewrite Hsel in Hsel'. symmetry in Hsel'. simplify_eq.
  rewrite <- Hconns in Hsub, Hkeep. split; [done|].
  rewrite !GetNumberOfIdleRollers_count.
  apply StartProofGenerationSession_effects in Hrun as [Hst _].
  destruct r.
  - destruct (started_busy _ _ _ _ Hst) as (roller & m0 & Hsel0 & Hbusy).
    apply SelectRoller_Some in Hsel0 as (_ & Hopen & Hidle & Hin).
    eapply Nat.lt_le_trans;
      [|apply sublist_length, filter_sublist_mono, Hsub].
    apply (length_filter_impl_lt _ _ _ roller).
    + intros y. by eapply IsRollerIdle_started.
    + apply Hkeep; [done|]. intros c Hc Hcl Heq.
      apply (Huniq c roller Hc Hin) in Heq. congruence.
    + done.
    + congruence.
  - etrans; [|apply sublist_length, filter_sublist_mono, Hsub].
    apply length_filter_impl. intros y. by rewrite (IsRollerIdle_same m m').
Qed.

Lemma addr_identifies_sublist (cs cs' : list Roller) :
  cs' `sublist_of` cs → addr_identifies cs → addr_identifies cs'.
Proof.
  intros Hsub Huniq x y Hx Hy.
  apply Huniq; by eapply sublist_subseteq.
Qed.

(** X8. A dispatch starts no more sessions than there are idle rollers:
    when the traces carry distinct block ids, none of which has a session
    yet, each session started takes at least one connection out of the
    idle count. *)
Theorem Loop_dispatch_bound now traces : ∀ m rest m',
  wf m → addr_identifies (conns m) →
  NoDup (ids_of traces) →
  (∀ i, i ∈ ids_of traces → sessions m !! i = None) →
  Loop_dispatch traces now m = Ret rest m' →
  (length traces + GetNumberOfIdleRollers m'
   ≤ length rest + GetNumberOfIdleRollers m)%nat.
Proof.
  induction traces as [|t traces IH]; intros m rest m' Hwf Huniq Hnd Hfresh;
    simpl.
  - unfold ret. intros; simplify_eq. done.
  - unfold bind.
    destruct (StartProofGenerationSession t now m) as [ok m1| |] eqn:Hst;
      [|done..].
    change (ids_of (t :: traces))
      with (Uint64 (Number t) :: ids_of traces) in Hnd, Hfresh.
    apply NoDup_cons in Hnd as [Hnotin Hnd].
    pose proof (StartProofGenerationSession_idle_count t now m ok m1 Hwf Huniq)
      as [Hsub Hcount]; [apply Hfresh, list_elem_of_here|done|].
    destruct ok.
    + intros Hrun.
      pose proof (StartProofGenerationSession_step_ok _ _ _ _ _ Hst) as [_ Hok].
      apply StartProofGenerationSession_effects in Hst as [Hst _].
      destruct Hst as (roller & m0 & _ & _ & _ & _ & _ & Hses & _).
      apply IH in Hrun; [simpl; lia|by apply Hok| |done|].
      * by eapply addr_identifies_sublist.
      * intros i Hi. rewrite Hses, lookup_insert_ne.
        -- apply Hfresh. by apply list_elem_of_further.
        -- intros <-. done.
    + unfold ret. intros; simplify_eq. simpl. lia.
Qed.

(** ** HandleMessage and HandleZkProof *)

Lemma IsRollerIdle_same_tables m m' hexPk :
  same_tables m m' → IsRollerIdle m' hexPk = IsRollerIdle m hexPk.
Proof.
  intros (_ & _ & Hses & _ & Hrm & _).
  unfold IsRollerIdle, rollers_of. by rewrite Hses, Hrm.
Qed.

(** X9. The signal [HandleZkProof] leaves on the session's channel is
    [rollerProofValid] exactly when the last call it made on the orm is
    an update of the block to [BlockVerified] that succeeded, and then it
    returns nil. *)
Theorem HandleZkProof_valid_signal pk0 payload now m r m' msg s buf st :
  HandleZkProof pk0 payload now m = Ret r m' →
  json_Unmarshal_ProofMsg payload = inr msg →
  sessions m !! message.ID msg = Some s →
  channels m !! finishChan s = Some buf →
  channels m' !! finishChan s = Some (buf ++ [{| pk := pk0; status := st |}]) →
  (st = rollerProofValid ↔
   last (orm_log m') =
     Some (CallUpdateBlockStatus (message.ID msg) BlockVerified None)) ∧
  (st = rollerProofValid → r = None).
Proof.
  intros Hrun Hdec Hs Hbuf Hch. revert Hrun. zk_unfold.
  rewrite Hdec, Hs. intros Hrun. revert Hch.
  repeat (case_match; simplify_eq/=); intros Hch.
  all: try (rewrite Hbuf in Hch; injection Hch as Hch;
            apply (f_equal length) in Hch;
            rewrite length_app in Hch; simpl in Hch; lia).
  all: rewrite lookup_insert_eq in Hch; simplify_eq.
  all: rewrite last_snoc; split; [split|]; intros; by simplify_eq.
Qed.

Lemma HandleMessage_same_tables pk0 payload now m r m' :
  HandleMessage pk0 payload now m = Ret r m' → same_tables m m'.
Proof.
  unfold HandleMessage. intros Hrun.
  assert (same_tables m m) as Hrefl by by repeat split.
  destruct (json_Unmarshal_Msg payload) as [e|msg];
    [unfold ret in Hrun; by simplify_eq|].
  destruct (message.Type_ msg); unfold ret in Hrun; try by simplify_eq.
  by apply HandleZkProof_effects in Hrun as (Hsame & _).
Qed.

(** X10. [HandleMessage] changes neither the configuration, the
    registry, the session table, the participants' statuses nor the
    collectors: a roller is idle after it exactly when it was before.  A
    payload that cannot be decoded, and every message that is not a proof,
    changes nothing at all; of those only an [Error] message is answered
    with nil. *)
Theorem HandleMessage_frame pk0 payload now m r m' :
  HandleMessage pk0 payload now m = Ret r m' →
  same_tables m m' ∧
  (∀ hexPk, IsRollerIdle m' hexPk = IsRollerIdle m hexPk) ∧
  match json_Unmarshal_Msg payload with
  | inl e => r = Some e ∧ m' = m
  | inr msg =>
      message.Type_ msg ≠ message.Proof →
      m' = m ∧ (r = None ↔ message.Type_ msg = message.Error)
  end.
Proof.
  unfold HandleMessage. intros Hrun.
  assert (same_tables m m' →
          ∀ hexPk, IsRollerIdle m' hexPk = IsRollerIdle m hexPk) as Hidle.
  { intros Hsame hexPk. by apply IsRollerIdle_same_tables. }
  assert (same_tables m m) as Hrefl by by repeat split.
  destruct (json_Unmarshal_Msg payload) as [e|msg].
  { unfold ret in Hrun. simplify_eq. auto. }
  destruct (message.Type_ msg) eqn:Hty; unfold ret in Hrun;
    try (simplify_eq; split_and!; [done|by auto|]; intros _; by split).
  apply HandleZkProof_effects in Hrun as (Hsame & _).
  split_and!; [done|by auto|done].
Qed.

(** X11. Whenever an update [HandleZkProof] makes on the orm fails (the
    proof, or a status other than the reset itself), nothing else is
    tried: the failed update is followed by the reset of the block to
    [Unassigned], which is the last call, and the roller is signalled
    [rollerProofInvalid].  The error of the failed update is what is
    returned, except for a proof the roller itself reported as failed,
    where nil is returned. *)
Theorem HandleZkProof_update_error pk0 payload now m r m' calls call :
  HandleZkProof pk0 payload now m = Ret r m' →
  orm_log m' = orm_log m ++ calls →
  call ∈ calls → failed_update call →
  ∃ msg s buf calls0 e',
    json_Unmarshal_ProofMsg payload = inr msg ∧
    sessions m !! message.ID msg = Some s ∧
    channels m !! finishChan s = Some buf ∧
    calls =
      calls0 ++
      [call; CallUpdateBlockStatus (message.ID msg) BlockUnassigned e'] ∧
    last calls =
      Some (CallUpdateBlockStatus (message.ID msg) BlockUnassigned e') ∧
    channels m' =
      <[finishChan s := buf ++ [{| pk := pk0; status := rollerProofInvalid |}]]>
        (channels m) ∧
    (r = None ↔ message.Status msg ≠ message.StatusOk) ∧
    call_error call ≠ None ∧
    (message.Status msg = message.StatusOk → r = call_error call).
Proof.
  zk_unfold. intros Hrun Hlog Hin Hfail. revert Hlog.
  repeat (case_match; simplify_eq/=); intros Hlog.
  all: try (apply log_same_nil in Hlog; subst calls; by apply elem_of_nil in Hin).
  all: rewrite <- ?app_assoc in Hlog; apply app_inv_head in Hlog;
       simpl in Hlog; subst calls.
  all: set_unfold in Hin; destruct_or!; subst; simpl in Hfail; try done.
  all: try (destruct a; by simpl in Hfail).
  all: repeat match goal with
              | H : bool_decide _ = true |- _ => apply bool_decide_eq_true_1 in H
              | H : bool_decide _ = false |- _ => apply bool_decide_eq_false_1 in H
              end.
  all: first
         [ eexists _, _, _, [], _; split_and!; [done|done|done|reflexivity|..]
         | eexists _, _, _, [_], _; split_and!; [done|done|done|reflexivity|..]
         | eexists _, _, _, [_; _], _;
           split_and!; [done|done|done|reflexivity|..]
         | eexists _, _, _, [_; _; _], _;
           split_and!; [done|done|done|reflexivity|..] ];
       [reflexivity|done|split; intros; by simplify_eq|done
       |intros; by simplify_eq].
Qed.

(** X12. When the query for the block's row returns no row, with or
    without an error, [HandleZkProof] returns what the query returned as
    error, so nil when there was none; the verifier is not asked; no
    further status is written, so that the block stays [BlockProved]; no
    failed session is recorded, and the roller is signalled
    [rollerProofInvalid]. *)
Theorem HandleZkProof_no_rows
    m pk0 payload now msg s st buf v db db1 db2 db3 gerr :
  json_Unmarshal_ProofMsg payload = inr msg →
  message.Status msg = message.StatusOk →
  sessions m !! message.ID msg = Some s →
  rollers_of m s !! pk0 = Some st → st ≠ rollerProofValid →
  channels m !! finishChan s = Some buf →
  length buf < proofAndPkBufferSize →
  verifier m = Some v →
  orm_of m = Some db →
  let i := message.ID msg in
  let proof := message.zk_Proof (message.Proof_ msg) in
  let final_pair := message.FinalPair (message.Proof_ msg) in
  let secs := Z.to_N (now - startTime s) in
  UpdateProofByNumber i proof final_pair secs db = (None, db1) →
  UpdateBlockStatus i BlockProved db1 = (None, db2) →
  GetBlockResults [("number", FNumber i)] [] db2 = ([], gerr, db3) →
  ∃ m',
    HandleZkProof pk0 payload now m = Ret gerr m' ∧
    orm_of m' = Some db3 ∧
    orm_log m' = orm_log m ++
      [CallUpdateProofByNumber i proof final_pair secs None;
       CallUpdateBlockStatus i BlockProved None;
       CallGetBlockResults [("number", FNumber i)] [] [] gerr] ∧
    failedSessionInfos m' = failedSessionInfos m ∧
    channels m' =
      <[finishChan s := buf ++ [{| pk := pk0; status := rollerProofInvalid |}]]>
        (channels m).
Proof.
  intros Hdec Hok Hs Hst Hnv Hch Hroom Hv Horm. cbv zeta.
  intros Hup1 Hup2 Hget.
  unfold HandleZkProof. rewrite Hdec. unfold bind at 1, get. rewrite Hs, Hst.
  destruct st; [|done|];
    (eexists; split;
     [ unfold HandleZkProof_body, HandleZkProof_deferred,
         HandleZkProof_rollback, chan_send, sent_status; munfold;
       rewrite Hok, bool_decide_ne_same; cbn; rewrite Horm, Hup1; cbn;
       rewrite Hup2; cbn; rewrite Hv; cbn; rewrite Hget; cbn;
       rewrite Hch; rewrite decide_True by done;
       reflexivity
     | cbn; rewrite <- !app_assoc; done ]).
Qed.

(** X13. A proof the roller reports as failed is not stored and not
    verified: the block is set to [BlockFailed], a failed session is
    recorded with the roller's own error text, the roller is signalled
    [rollerProofInvalid] and nil is returned.  This holds too when the
    update to [BlockFailed] fails; then the block is reset to
    [Unassigned] while the failed session stays recorded. *)
Theorem HandleZkProof_reported_failure
    m pk0 payload now msg s st buf db db1 db2 e e' :
  json_Unmarshal_ProofMsg payload = inr msg →
  message.Status msg ≠ message.StatusOk →
  sessions m !! message.ID msg = Some s →
  rollers_of m s !! pk0 = Some st → st ≠ rollerProofValid →
  channels m !! finishChan s = Some buf →
  length buf < proofAndPkBufferSize →
  orm_of m = Some db →
  let i := message.ID msg in
  UpdateBlockStatus i BlockFailed db = (e, db1) →
  UpdateBlockStatus i BlockUnassigned db1 = (e', db2) →
  ∃ m',
    HandleZkProof pk0 payload now m = Ret None m' ∧
    orm_log m' = orm_log m ++
      CallUpdateBlockStatus i BlockFailed e ::
      match e with
      | Some _ => [CallUpdateBlockStatus i BlockUnassigned e']
      | None => []
      end ∧
    failedSessionInfos m' =
      <[id s := newSessionInfo s BlockFailed (message.Error_ msg) true]>
        (failedSessionInfos m) ∧
    channels m' =
      <[finishChan s := buf ++ [{| pk := pk0; status := rollerProofInvalid |}]]>
        (channels m).
Proof.
  intros Hdec Hok Hs Hst Hnv Hch Hroom Horm. cbv zeta. intros Hup1 Hup2.
  unfold HandleZkProof. rewrite Hdec. unfold bind at 1, get. rewrite Hs, Hst.
  destruct st; [|done|]; destruct e as [e|];
    (eexists; split;
     [ unfold HandleZkProof_body, HandleZkProof_deferred,
         HandleZkProof_rollback, chan_send, sent_status; munfold;
       rewrite bool_decide_eq_true_2 by done; cbn; rewrite Horm, Hup1; cbn;
       rewrite ?Hup2; cbn; rewrite Hch; rewrite decide_True by done;
       reflexivity
     | cbn; rewrite <- ?app_assoc; done ]).
Qed.

(** X14. Without a verifier (no endpoint configured) a proof that is
    stored is taken as valid: no row is queried, the block goes from
    [BlockProved] to [BlockVerified], and the roller is signalled
    [rollerProofValid]; should that last update fail, its error is
    returned, the block is reset to [Unassigned] and the signal is
    [rollerProofInvalid]. *)
Theorem HandleZkProof_without_verifier
    m pk0 payload now msg s st buf db db1 db2 db3 db4 e e' :
  json_Unmarshal_ProofMsg payload = inr msg →
  message.Status msg = message.StatusOk →
  sessions m !! message.ID msg = Some s →
  rollers_of m s !! pk0 = Some st → st ≠ rollerProofValid →
  channels m !! finishChan s = Some buf →
  length buf < proofAndPkBufferSize →
  verifier m = None →
  orm_of m = Some db →
  let i := message.ID msg in
  let proof := message.zk_Proof (message.Proof_ msg) in
  let final_pair := message.FinalPair (message.Proof_ msg) in
  let secs := Z.to_N (now - startTime s) in
  UpdateProofByNumber i proof final_pair secs db = (None, db1) →
  UpdateBlockStatus i BlockProved db1 = (None, db2) →
  UpdateBlockStatus i BlockVerified db2 = (e, db3) →
  UpdateBlockStatus i BlockUnassigned db3 = (e', db4) →
  ∃ m',
    HandleZkProof pk0 payload now m = Ret e m' ∧
    orm_log m' = orm_log m ++
      [CallUpdateProofByNumber i proof final_pair secs None;
       CallUpdateBlockStatus i BlockProved None;
       CallUpdateBlockStatus i BlockVerified e] ++
      match e with
      | Some _ => [CallUpdateBlockStatus i BlockUnassigned e']
      | None => []
      end ∧
    failedSessionInfos m' = failedSessionInfos m ∧
    channels m' =
      <[finishChan s :=
          buf ++ [{| pk := pk0;
                     status := match e with
                               | Some _ => rollerProofInvalid
                               | None => rollerProofValid
                               end |}]]>
        (channels m).
Proof.
  intros Hdec Hok Hs Hst Hnv Hch Hroom Hv Horm. cbv zeta.
  intros Hup1 Hup2 Hup3 Hup4.
  unfold HandleZkProof. rewrite Hdec. unfold bind at 1, get. rewrite Hs, Hst.
  destruct st; [|done|]; destruct e as [e|];
    (eexists; split;
     [ unfold HandleZkProof_body, HandleZkProof_deferred,
         HandleZkProof_rollback, chan_send, sent_status; munfold;
       rewrite Hok, bool_decide_ne_same; cbn; rewrite Horm, Hup1; cbn;
       rewrite Hup2; cbn; rewrite Hv; cbn; rewrite Hup3; cbn;
       rewrite ?Hup4; cbn; rewrite Hch; rewrite decide_True by done;
       reflexivity
     | cbn; rewrite <- ?app_assoc; done ]).
Qed.

(** ** CollectProofs *)

Lemma CollectProofs_timer_frame i s m m' :
  CollectProofs_timer i s m = Ret tt m' →
  sessions m' = delete i (sessions m) ∧ roller_maps m' = roller_maps m ∧
  channels m' = channels m ∧ conns m' = conns m ∧
  goroutines m' = goroutines m ∧ next_ref m' = next_ref m.
Proof.
  unfold CollectProofs_timer, Intn. munfold. intros Hrun.
  by repeat (case_match; simplify_eq/=).
Qed.

(** X15. A collector receives the signals waiting on its session's
    channel oldest first, one for each time its [select] takes the
    channel case with a signal waiting, and stores each status under the
    sender's key, a later one over an earlier one; signals not yet
    received when the timer case is taken stay on the channel and are not
    stored.  It returns exactly when the timer case is taken, and only
    then is the entry under its id deleted from the session table. *)
Theorem CollectProofs_receives i s evs : ∀ m buf b m',
  channels m !! finishChan s = Some buf →
  CollectProofs i s evs m = Ret b m' →
  let n := ready_before_timer evs `min` length buf in
  rollers_of m' s = apply_signals (rollers_of m s) (take n buf) ∧
  channels m' !! finishChan s = Some (drop n buf) ∧
  (b = true ↔ TimerFired ∈ evs) ∧
  sessions m' = (if b then delete i (sessions m) else sessions m).
Proof.
  induction evs as [|[] evs IH]; intros m buf b m' Hbuf; simpl.
  - unfold ret. intros; simplify_eq. cbn. rewrite drop_0.
    split_and!; try done. split; [done|]. by intros ?%elem_of_nil.
  - unfold bind, ret.
    destruct (CollectProofs_timer i s m) as [[] m1| |] eqn:Htimer; [|done..].
    intros; simplify_eq.
    apply CollectProofs_timer_frame in Htimer as (Hses & Hrm & Hch & _).
    cbn. rewrite drop_0. unfold rollers_of. rewrite Hrm, Hch.
    split_and!; try done. split; [intros _; apply list_elem_of_here|done].
  - unfold bind at 1, CollectProofs_finish, bind at 1, chan_recv.
    rewrite Hbuf. destruct buf as [|r buf].
    + unfold ret at 1. intros Hrun.
      apply (IH _ [] _ _ Hbuf) in Hrun as (Hr & Hc & Hb & Hs).
      rewrite Nat.min_0_r in *. split_and!; try done.
      rewrite Hb. split; [apply list_elem_of_further|].
      by intros [?|?]%elem_of_cons.
    + unfold rollers_store, modify. cbv beta iota. intros Hrun.
      eapply (IH _ buf) in Hrun as (Hr & Hc & Hb & Hs);
        [|cbn; by rewrite lookup_insert_eq].
      cbn [length take drop apply_signals foldl].
      split_and!; try done.
      * rewrite Hr. unfold apply_signals. f_equal.
        unfold rollers_of at 1. cbn. by rewrite lookup_insert_eq.
      * rewrite Hb. split; [apply list_elem_of_further|].
        by intros [?|?]%elem_of_cons.
Qed.

(** X16. When the signal received just before the deadline is
    [rollerProofValid], the deadline makes no call on the orm and records
    no failed session: the collector only deletes the session. *)
Theorem CollectProofs_after_valid_signal i s m pk0 buf :
  channels m !! finishChan s =
    Some ({| pk := pk0; status := rollerProofValid |} :: buf) →
  ∃ m', CollectProofs i s [FinishReady; TimerFired] m = Ret true m' ∧
        sessions m' = delete i (sessions m) ∧
        rollers_of m' s !! pk0 = Some rollerProofValid ∧
        channels m' !! finishChan s = Some buf ∧
        orm_log m' = orm_log m ∧ orm_of m' = orm_of m ∧
        failedSessionInfos m' = failedSessionInfos m.
Proof.
  intros Hbuf. simpl.
  unfold bind at 1, CollectProofs_finish, bind at 1, chan_recv.
  rewrite Hbuf. unfold rollers_store, modify. cbv beta iota.
  set (m1 := set_roller_maps _ _).
  assert (rollers_of m1 s !! pk0 = Some rollerProofValid) as Hvalid.
  { unfold rollers_of at 1. unfold m1. cbn [roller_maps set_roller_maps].
    rewrite lookup_insert_eq. cbn [default pk status]. unfold Datatypes.id.
    by rewrite lookup_insert_eq. }
  unfold bind, ret.
  destruct (CollectProofs_timer_spec i s m1) as [[_ Hrun]|[Hnv _]];
    [|by destruct (Hnv pk0)].
  destruct Hrun as (m' & -> & Hs & Hf & Ho & Hl & Hrm & Hch & _).
  exists m'. split; [done|]. split; [done|].
  split; [by unfold rollers_of in *; rewrite Hrm|].
  split; [rewrite Hch; cbn; by rewrite lookup_insert_eq|]. done.
Qed.

Lemma HandleZkProof_keeps_orm pk0 payload now m r m' :
  HandleZkProof pk0 payload now m = Ret r m' →
  is_Some (orm_of m) → is_Some (orm_of m').
Proof.
  zk_unfold. intros Hrun Horm.
  repeat (case_match; simplify_eq/=); by eauto.
Qed.

(** X17. At the deadline only the statuses already stored count.  When
    the timer case is taken right after [HandleZkProof], before the
    collector has received the signal, and no participant was recorded as
    valid before, the block is set to [BlockFailed] and the session is
    recorded as failed for want of a valid proof, whatever the outcome of
    the proof was. *)
Theorem CollectProofs_deadline_before_receive
    pk0 payload now m r m' msg s :
  HandleZkProof pk0 payload now m = Ret r m' →
  json_Unmarshal_ProofMsg payload = inr msg →
  sessions m !! message.ID msg = Some s →
  (∀ hexPk, rollers_of m s !! hexPk ≠ Some rollerProofValid) →
  is_Some (orm_of m) →
  ∃ e m'',
    CollectProofs (message.ID msg) s [TimerFired] m' = Ret true m'' ∧
    orm_log m'' =
      orm_log m' ++ [CallUpdateBlockStatus (message.ID msg) BlockFailed e] ∧
    failedSessionInfos m'' !! id s =
      Some (newSessionInfo s BlockFailed no_valid_proofs_msg true) ∧
    sessions m'' !! message.ID msg = None ∧
    channels m'' = channels m'.
Proof.
  intros Hrun Hdec Hs Hnv Horm.
  pose proof (HandleZkProof_keeps_orm _ _ _ _ _ _ Hrun Horm) as [db Hdb].
  apply HandleZkProof_effects in Hrun as ((_ & _ & _ & _ & Hrm & _) & _).
  simpl. unfold bind, ret.
  destruct (CollectProofs_timer_spec (message.ID msg) s m')
    as [[[hexPk Hv] _]|[_ Hrun]].
  { destruct (Hnv hexPk). revert Hv. unfold rollers_of. by rewrite Hrm. }
  rewrite Hdb in Hrun.
  destruct Hrun as (m'' & -> & Hs' & Hf & _ & Hl & _ & Hch & _).
  eexists _, m''. split; [done|]. split; [exact Hl|].
  split; [by rewrite Hf, lookup_insert_eq|].
  split; [by rewrite Hs', lookup_delete_eq|done].
Qed.

(** ** Sessions and their collectors *)

Lemma covered_same m m' :
  sessions m' = sessions m → goroutines m' = goroutines m →
  covered m → covered m'.
Proof. unfold covered. by intros -> ->. Qed.

Lemma StartProofGenerationSession_covered trace now m r m' :
  StartProofGenerationSession trace now m = Ret r m' →
  covered m → covered m'.
Proof.
  intros Hrun Hcov.
  apply StartProofGenerationSession_effects in Hrun as [Hst _].
  destruct r; [|eapply covered_same; [apply Hst|apply Hst|done]].
  destruct Hst as (roller & m1 & _ & _ & _ & _ & _ & Hses & _ & _ & _ & Hgo & _).
  intros i s. rewrite Hses, Hgo.
  destruct (decide (i = Uint64 (Number trace))) as [->|Hne].
  - rewrite lookup_insert_eq. intros [= <-]. split; [done|].
    apply elem_of_app. right. apply list_elem_of_here.
  - rewrite lookup_insert_ne by done. intros Hs.
    destruct (Hcov i s Hs) as [? ?]. split; [done|].
    apply elem_of_app. by left.
Qed.

Lemma Loop_dispatch_covered traces now : ∀ m r m',
  Loop_dispatch traces now m = Ret r m' → covered m → covered m'.
Proof.
  induction traces as [|t rest IH]; intros m r m'; simpl.
  - unfold ret. intros; by simplify_eq.
  - unfold bind.
    destruct (StartProofGenerationSession t now m) as [ok m1| |] eqn:Hst;
      [|done..].
    destruct ok.
    + intros Hrun Hcov. eapply IH; [done|].
      by eapply StartProofGenerationSession_covered.
    + unfold ret. intros; simplify_eq.
      by eapply StartProofGenerationSession_covered.
Qed.

Lemma Loop_tick_covered traces now m r m' :
  Loop_tick traces now m = Ret r m' → covered m → covered m'.
Proof.
  unfold Loop_tick, bind at 1, get.
  case_match; [|by apply Loop_dispatch_covered].
  unfold bind, orm_GetBlockResults.
  destruct (orm_of m) as [db|]; [|done].
  destruct (GetBlockResults _ _ db) as [[rows err] db'].
  destruct err; unfold ret; intros Hrun Hcov.
  - by simplify_eq.
  - by eapply Loop_dispatch_covered.
Qed.

Lemma CollectProofs_finish_frame s m m' :
  CollectProofs_finish s m = Ret tt m' →
  sessions m' = sessions m ∧ goroutines m' = goroutines m.
Proof.
  unfold CollectProofs_finish, chan_recv, rollers_store. munfold. intros Hrun.
  by repeat (case_match; simplify_eq/=).
Qed.

(** X18. Along every schedule of the coordinator each session of the
    table is stored under its own id and the collector spawned with it is
    still running: no session is left in the table without a deadline
    that will delete it.  This holds of the manager [New] makes, and every
    step of a schedule keeps it. *)
Theorem sessions_have_collectors :
  (∀ NewVerifier cfg0 orm0 seed m0,
     New NewVerifier cfg0 orm0 seed = inr m0 → covered m0) ∧
  ∀ evs traces looping m r m',
    run evs traces looping m = Ret r m' → covered m → covered m'.
Proof.
  split.
  { intros NewVerifier cfg0 orm0 seed m0. unfold New. intros Hnew.
    repeat (case_match; simplify_eq/=); intros ? ?; cbn;
      by rewrite lookup_empty. }
  induction evs as [|ev evs IH]; intros traces looping m r m'; simpl.
  { unfold ret. intros; by simplify_eq. }
  destruct ev as [e|k e].
  - destruct looping; [|by apply IH].
    destruct e as [now|pk0 payload now|]; [| |by apply IH]; unfold bind.
    + destruct (Loop_tick traces now m) as [traces' m1| |] eqn:Ht; [|done..].
      intros Hrun Hcov. eapply IH; [done|]. by eapply Loop_tick_covered.
    + destruct (HandleMessage pk0 payload now m) as [e m1| |] eqn:Hm; [|done..].
      intros Hrun Hcov. eapply IH; [done|].
      apply HandleMessage_same_tables in Hm as (_ & _ & Hs & _ & _ & _ & Hg & _).
      by eapply covered_same.
  - unfold bind at 1, get.
    destruct (goroutines m !! k) as [[i s]|] eqn:Hk; [|by apply IH].
    destruct e; unfold bind, modify.
    + destruct (CollectProofs_timer i s m) as [[] m1| |] eqn:Ht; [|done..].
      intros Hrun Hcov. eapply IH; [done|].
      apply CollectProofs_timer_frame in Ht as (Hs & _ & _ & _ & Hg & _).
      intros j s'. cbn [sessions goroutines set_goroutines]. rewrite Hs, Hg.
      intros [Hne Hj]%lookup_delete_Some.
      destruct (Hcov j s' Hj) as [Hid Hin]. split; [done|].
      apply list_elem_of_lookup in Hin as [k' Hk'].
      eapply elem_of_delete_other; [done|]. intros ->. congruence.
    + destruct (CollectProofs_finish s m) as [[] m1| |] eqn:Hf; [|done..].
      intros Hrun Hcov. eapply IH; [done|].
      apply CollectProofs_finish_frame in Hf as [Hs Hg].
      by eapply covered_same.
Qed.

(** ** Start and Stop *)

Lemma Start_reset_spec blocks : ∀ m,
  is_Some (orm_of m) →
  ∃ m' calls,
    Start_reset blocks m = Ret tt m' ∧ is_Some (orm_of m') ∧
    orm_log m' = orm_log m ++ calls ∧ Forall2 resets blocks calls ∧
    same_but_orm m m'.
Proof.
  induction blocks as [|block blocks IH]; intros m Horm; simpl.
  - exists m, []. rewrite app_nil_r. by repeat split.
  - unfold bind, orm_UpdateBlockStatus. destruct Horm as [db Hdb]. rewrite Hdb.
    destruct (UpdateBlockStatus _ _ db) as [e db'].
    destruct (IH (set_orm db' (CallUpdateBlockStatus (Uint64 (Number block))
                                 BlockUnassigned e) m))
      as (m' & calls & -> & Horm' & Hlog & Hall & Hsame); [by eexists|].
    exists m', (CallUpdateBlockStatus (Uint64 (Number block))
                  BlockUnassigned e :: calls).
    split; [done|]. split; [done|].
    split; [by rewrite Hlog; cbn; rewrite <- app_assoc|].
    split; [constructor; [by eexists|done]|exact Hsame].
Qed.

(** X19. The clean-up in [Start] returns for every orm, nil included,
    and touches nothing but the orm.  With an orm it makes one query, for
    the blocks with status [BlockAssigned]; when the query succeeds it
    resets each block returned to [Unassigned], one call a block, in the
    order returned and whether or not an earlier reset failed; when the
    query fails it makes no other call. *)
Theorem Start_cleanup_spec m :
  ∃ m' calls,
    Start_cleanup m = Ret tt m' ∧ orm_log m' = orm_log m ++ calls ∧
    same_but_orm m m' ∧
    match orm_of m with
    | None => calls = []
    | Some db =>
        let fields := [("status", FStatus BlockAssigned)] in
        let '(rows, err, _) := GetBlockResults fields [] db in
        ∃ updates,
          calls = CallGetBlockResults fields [] rows err :: updates ∧
          match err with
          | Some _ => updates = []
          | None => Forall2 resets rows updates
          end
    end.
Proof.
  unfold Start_cleanup, bind at 1, get.
  destruct (orm_of m) as [db|] eqn:Hdb.
  - rewrite bool_decide_eq_true_2 by done.
    unfold bind, orm_GetBlockResults. rewrite Hdb. cbv zeta.
    destruct (GetBlockResults _ _ db) as [[rows err] db'].
    destruct err as [e|].
    + eexists _, _. split; [reflexivity|]. split; [reflexivity|].
      split; [by repeat split|]. by exists [].
    + destruct (Start_reset_spec rows
                  (set_orm db' (CallGetBlockResults
                                  [("status", FStatus BlockAssigned)] []
                                  rows None) m))
        as (m' & calls & -> & _ & Hlog & Hall & Hsame); [by eexists|].
      eexists m', _. split; [done|].
      split; [by rewrite Hlog; cbn; rewrite <- app_assoc|].
      split; [exact Hsame|]. by exists calls.
  - rewrite bool_decide_eq_false_2 by (by intros []).
    exists m, []. rewrite app_nil_r. by repeat split.
Qed.

Lemma Start_cleanup_returns m : ∃ m', Start_cleanup m = Ret tt m'.
Proof.
  unfold Start_cleanup, bind at 1, get.
  destruct (orm_of m) as [db|] eqn:Hdb.
  - rewrite bool_decide_eq_true_2 by done.
    unfold bind, orm_GetBlockResults. rewrite Hdb.
    destruct (GetBlockResults _ _ db) as [[rows err] db'].
    destruct err as [e|]; [by eexists|].
    destruct (Start_reset_spec rows
                (set_orm db' (CallGetBlockResults
                                [("status", FStatus BlockAssigned)] []
                                rows None) m))
      as (m' & calls & -> & _); [by eexists|]. by exists m'.
  - rewrite bool_decide_eq_false_2 by (by intros []). by exists m.
Qed.

(** X20. [Start] fails only with the error of the server.  On a backend
    that is running it does nothing and returns nil.  Otherwise it
    returns what the server's start returns: on nil the backend is
    running and one more [Loop] has been spawned; on an error the backend
    is not marked running and no [Loop] is spawned, though the clean-up
    of the orm has been done.  After a [Start] that returned nil, another
    [Start] changes nothing. *)
Theorem Start_spec server_start (b : Backend Db) :
  ∃ r b',
    Start server_start b = Ret r b' ∧
    (if isRunning b then r = None ∧ b' = b
     else
       r = server_start ∧
       Start_cleanup (manager b) = Ret tt (manager b') ∧
       match server_start with
       | None => running b' = 1%Z ∧ loops b' = S (loops b)
       | Some _ => running b' = running b ∧ loops b' = loops b
       end) ∧
    (r = None → ∀ again, Start again b' = Ret None b').
Proof.
  unfold Start. destruct (isRunning b) eqn:Hrun.
  - exists None, b. split; [done|]. split; [done|].
    intros _ again. by rewrite Hrun.
  - destruct (Start_cleanup_returns (manager b)) as [m' ->].
    destruct server_start as [e|].
    + eexists _, _. split; [reflexivity|]. by split.
    + eexists _, _. split; [reflexivity|]. split; [done|].
      intros _ again. unfold isRunning. cbn [running].
      by rewrite bool_decide_eq_true_2.
Qed.

(** X21. [Stop] does not end [Loop]: after a [Start] and a [Stop] that
    both succeeded the backend is not running, and the next [Start]
    repeats the clean-up and spawns a second [Loop]; a [Stop] whose
    server fails to stop leaves the backend running. *)
Theorem Start_after_Stop (b : Backend Db) r b' :
  isRunning b = false →
  Start None b = Ret r b' →
  (∀ e, Stop (Some e) b' = b') ∧
  isRunning (Stop None b') = false ∧
  manager (Stop None b') = manager b' ∧
  ∃ b'', Start None (Stop None b') = Ret None b'' ∧
         Start_cleanup (manager b') = Ret tt (manager b'') ∧
         isRunning b'' = true ∧ loops b'' = S (S (loops b)).
Proof.
  unfold Start. intros Hb. rewrite Hb.
  destruct (Start_cleanup_returns (manager b)) as [m1 ->].
  intros [= <- <-].
  unfold Stop, isRunning. cbn [running negb manager loops].
  rewrite bool_decide_eq_true_2 by done. cbn [negb running manager loops].
  split; [done|].
  rewrite bool_decide_eq_false_2 by done. split; [done|]. split; [done|].
  destruct (Start_cleanup_returns m1) as [m2 Hm2]. rewrite Hm2.
  eexists. split; [reflexivity|]. cbn. by rewrite bool_decide_eq_true_2.
Qed.


(** ** The lock *)

(** X22. [m.mu] excludes as the code uses it: in every interleaving,
    while a collector deletes a session or stores a status, or a session
    is being inserted, no other thread is between a [Lock] or [RLock] and
    its unlock, so no [HandleZkProof] and no [IsRollerIdle] reads the
    table meanwhile.  And the lock is released on every path: when no
    thread is inside such a section the lock is free. *)
Theorem lock_excludes (w : World Db) :
  reachable w →
  (∀ (k : nat) t,
     threads w !! k = Some t → holds_write t = true →
     writer w = true ∧ readers w = 0 ∧
     ∀ (k' : nat) t', k' ≠ k → threads w !! k' = Some t' →
                      holds_read t' = false ∧ holds_write t' = false) ∧
  ((∀ t, t ∈ threads w → holds_read t = false ∧ holds_write t = false) →
   readers w = 0 ∧ writer w = false).
Proof.
  intros (Hr & Hw & Hex & _)%reachable_lock_inv. split.
  - intros k t Hk Ht.
    pose proof (count_pos holds_write _ _ _ Hk Ht) as Hpos.
    assert (writer w = true) as Hwr by (destruct (writer w); simpl in *; [done|lia]).
    split; [done|]. split; [by apply Hex|].
    intros k' t' Hne Hk'.
    pose proof (count_insert holds_write (threads w) k t (TIdle "" R_entry) Hk)
      as Hins.
    rewrite Ht, <- Hw, Hwr in Hins. simpl in Hins.
    assert (<[k := TIdle "" R_entry]> (threads w) !! k' = Some t') as Hk''
      by by rewrite list_lookup_insert_ne.
    split.
    + destruct (holds_read t') eqn:E; [|done].
      pose proof (count_pos holds_read _ _ _ Hk' E) as Hrd.
      rewrite <- Hr, (Hex Hwr) in Hrd. lia.
    + destruct (holds_write t') eqn:E; [|done].
      pose proof (count_pos holds_write _ _ _ Hk'' E). lia.
  - intros Hnone.
    assert (∀ p ts, (∀ t, t ∈ ts → p t = false) → count p ts = 0) as Hzero.
    { intros p ts Hp. induction ts as [|a ts IH]; [done|].
      rewrite count_cons. rewrite (Hp a) by apply list_elem_of_here.
      rewrite IH; [done|].
      intros t Ht. apply Hp. by apply list_elem_of_further. }
    rewrite Hr, Hzero by (intros t Ht; by apply Hnone).
    split; [done|].
    rewrite Hzero in Hw by (intros t Ht; by apply Hnone).
    by destruct (writer w).
Qed.

(** ** The statuses written for a block *)
















End Properties.

(** * The properties on the in-memory coordinator *)

Section Examples.
Import Fixtures.

Local Abbreviation down := (Some "db down").

(** C1 fails on the code: the update to [BlockAssigned] fails, the block
    is reset to [BlockUnassigned], and yet the call returns true and
    session 7 is still in the session table. *)
Lemma StartProofGenerationSession_keeps_session :
  ∃ m', StartProofGenerationSession (TR:=wire_up) (JS:=json) T7 100
          (fresh None [down]) = Ret true m' ∧
        orm_log m' = [ CallUpdateBlockStatus 7 BlockAssigned down;
                       CallUpdateBlockStatus 7 BlockUnassigned None ] ∧
        status7 m' = Some BlockUnassigned ∧
        ¬ (sessions m' !! 7%N = None).
Proof.
  eexists. split; [vm_compute; reflexivity|].
  split; [vm_compute; reflexivity|].
  split; [vm_compute; reflexivity|]. vm_compute. discriminate.
Qed.

(** C2 fails on the code: P1 is busy in session 7, so no roller is
    idle, the buffer is empty, and the tick queries the orm. *)
Lemma Loop_tick_queries_without_idle_roller :
  let m := running rollerAssigned BlockAssigned None [] in
  GetNumberOfIdleRollers m = 0 ∧
  ∃ m', Loop_tick (TR:=wire_up) (JS:=json) [] 130 m = Ret [] m' ∧
        ¬ (filter (fun c => is_query c = true) (orm_log m') = []) ∧
        orm_log m' =
          [ CallGetBlockResults [("status", FStatus BlockUnassigned)]
              ["ORDER BY number ASC LIMIT 0;"] [] None ].
Proof.
  split; [vm_compute; reflexivity|].
  eexists. split; [vm_compute; reflexivity|].
  split; [vm_compute; discriminate|vm_compute; reflexivity].
Qed.

(** C3 fails on the code: P1 is recorded [rollerProofInvalid] and the
    block [BlockFailed].  A further proof from P1 is handled again: the
    block becomes [BlockVerified] and, once the collector has taken the
    signal, P1 is recorded [rollerProofValid]; a further failure report
    adds a failed session. *)
Lemma HandleZkProof_resubmission_after_invalid :
  let m := running rollerProofInvalid BlockFailed None [] in
  (∃ m1 m2,
     HandleZkProof (JS:=json) "0xp1" proof_ok 130 m = Ret None m1 ∧
     CollectProofs_finish S7 m1 = Ret tt m2 ∧
     status7 m = Some BlockFailed ∧ status7 m1 = Some BlockVerified ∧
     rollers_of m S7 !! "0xp1" = Some rollerProofInvalid ∧
     rollers_of m2 S7 !! "0xp1" = Some rollerProofValid) ∧
  (∃ m1,
     HandleZkProof (JS:=json) "0xp1" proof_failed 130 m = Ret None m1 ∧
     failedSessionInfos m !! 7%N = None ∧
     ¬ (failedSessionInfos m1 !! 7%N = None)).
Proof.
  split.
  - eexists _, _. split; [vm_compute; reflexivity|].
    repeat split; vm_compute; reflexivity.
  - eexists. split; [vm_compute; reflexivity|].
    split; [vm_compute; reflexivity|vm_compute; discriminate].
Qed.


(** C5 on the code: the proof is stored, the block is [BlockProved], and
    the query before verification fails.  [HandleZkProof] returns the
    error and signals [rollerProofInvalid], but it does not reset the
    block, which stays [BlockProved]. *)
Lemma HandleZkProof_query_error_leaves_Proved :
  let m := running rollerAssigned BlockAssigned
             (Some (verifier_says true None)) [None; None; down] in
  ∃ m', HandleZkProof (JS:=json) "0xp1" proof_ok 130 m = Ret down m' ∧
        orm_log m' =
          [ CallUpdateProofByNumber 7 [Byte.xaa] [] 30 None;
            CallUpdateBlockStatus 7 BlockProved None;
            CallGetBlockResults [("number", FNumber 7)] [] [] down ] ∧
        status_writes 7 (orm_log m') = [BlockProved] ∧
        status7 m' = Some BlockProved ∧
        channels m' !! finishChan S7 =
          Some [ {| pk := "0xp1"; status := rollerProofInvalid |} ].
Proof.
  eexists. split; [vm_compute; reflexivity|].
  repeat split; vm_compute; reflexivity.
Qed.

(** ** The theorems at concrete inputs *)

Lemma wf_fresh v fs : wf (fresh v fs).
Proof. repeat split; cbn; intros *; by rewrite ?lookup_empty. Qed.

(** C1 at the manager with one idle roller and a store whose next call
    fails. *)
Lemma StartProofGenerationSession_failed_update_witness :
  ∃ m', StartProofGenerationSession (TR:=wire_up) (JS:=json) T7 100
          (fresh None [down]) = Ret true m' ∧
        ∃ s, sessions m' !! 7%N = Some s.
Proof.
  destruct (StartProofGenerationSession_failed_update
              (TR:=wire_up) (JS:=json)
              (fresh None [down]) T7 100 P1 (fresh None [down])
              (db0 [down]) "db down" (db0 []))
    as (m' & s & Hrun & Hs & _).
  - reflexivity.
  - reflexivity.
  - reflexivity.
  - reflexivity.
  - vm_compute. reflexivity.
  - exists m'. split; [exact Hrun|]. exists s. rewrite Hs.
    apply lookup_insert_eq.
Defined.

(** C2 at the manager whose only roller is busy. *)
Lemma Loop_tick_no_idle_roller_witness :
  ∃ m', Loop_tick (TR:=wire_up) (JS:=json) [] 130
          (running rollerAssigned BlockAssigned None []) = Ret [] m' ∧
        sessions m' = sessions (running rollerAssigned BlockAssigned None []).
Proof.
  destruct (Loop_tick_no_idle_roller (TR:=wire_up) (JS:=json)
              (running rollerAssigned BlockAssigned None []) 130
              {| MemDb.rows := [(T7, BlockAssigned)]; MemDb.proofs := ∅;
                 MemDb.faults := [] |}
              [] None
              {| MemDb.rows := [(T7, BlockAssigned)]; MemDb.proofs := ∅;
                 MemDb.faults := [] |})
    as (m' & Hrun & _ & _ & Hs & _).
  - vm_compute. reflexivity.
  - reflexivity.
  - vm_compute. reflexivity.
  - exists m'. split; [exact Hrun|exact Hs].
Defined.

Lemma wf_running st bs v fs : wf (running st bs v fs).
Proof.
  split; [|split]; cbn.
  - intros ch buf x [<- <-]%lookup_singleton_Some Hx.
    by apply elem_of_nil in Hx.
  - intros r mp [<- _]%lookup_singleton_Some. lia.
  - intros [|k] i s Hk; simplify_eq/=. lia.
Qed.

(** C3 from session 7 with P1 recorded invalid.  Its proof is handled
    again and signalled; once the collector has taken the signal P1 is
    recorded valid, no record has gone back to assigned, and a further
    proof from P1 is a no-op. *)
Lemma participant_status_settles_witness :
  let m := running rollerProofInvalid BlockFailed None [] in
  wf m ∧
  rollers_of m S7 !! "0xp1" = Some rollerProofInvalid ∧
  (∃ r m1 st',
     HandleZkProof (JS:=json) "0xp1" proof_ok 130 m = Ret r m1 ∧
     channels m1 !! finishChan S7 =
       Some [{| pk := "0xp1"; status := st' |}] ∧
     st' ≠ rollerAssigned) ∧
  ∃ traces m',
    run (TR:=wire_up) (JS:=json) resubmission [] true m = Ret traces m' ∧
    rollers_of m' S7 !! "0xp1" = Some rollerProofValid ∧
    wf m' ∧ no_return m m' ∧
    HandleZkProof (JS:=json) "0xp1" proof_ok 140 m' = Ret None m'.
Proof.
  intros m.
  pose proof (wf_running rollerProofInvalid BlockFailed None []) as Hwf.
  split; [exact Hwf|]. split; [reflexivity|]. split.
  - pose proof (participant_status_settles (TR:=wire_up) (JS:=json)
                  m [] [] true Hwf) as (_ & _ & Hh).
    destruct (Hh "0xp1" proof_ok 130%Z msg_ok S7 eq_refl eq_refl)
      as [_ Hinvalid].
    destruct (Hinvalid eq_refl) as [_ Hhandled].
    assert (∃ r m1, HandleZkProof (JS:=json) "0xp1" proof_ok 130 m = Ret r m1)
      as (r & m1 & Hrun) by (eexists _, _; vm_compute; reflexivity).
    destruct (Hhandled r m1 Hrun) as (buf & st' & _ & _ & Hbuf & Hch & Hst & _).
    injection Hbuf as <-.
    exists r, m1, st'. split; [exact Hrun|]. split; [|exact Hst].
    rewrite Hch. apply lookup_insert_eq.
  - assert (∃ traces m',
              run (TR:=wire_up) (JS:=json) resubmission [] true m
                = Ret traces m' ∧
              sessions m' !! 7%N = Some S7 ∧
              rollers_of m' S7 !! "0xp1" = Some rollerProofValid)
      as (traces & m' & Hrun & Hs & Hvalid)
      by (eexists _, _; split; [vm_compute; reflexivity|];
          split; vm_compute; reflexivity).
    pose proof (participant_status_settles (TR:=wire_up) (JS:=json)
                  m resubmission [] true Hwf) as H.
    rewrite Hrun in H. destruct H as (Hwf' & Hnr & Hh).
    destruct (Hh "0xp1" proof_ok 140%Z msg_ok S7 eq_refl Hs) as [Hnoop _].
    exists traces, m'. split; [exact Hrun|]. split; [exact Hvalid|].
    split; [exact Hwf'|]. split; [exact Hnr|]. exact (Hnoop Hvalid).
Defined.


(** C6 at session 7 with a verifier that cleanly says false: spec
    scenario 3. *)
Lemma HandleZkProof_verifier_outcomes_witness :
  ∃ m', HandleZkProof (JS:=json) "0xp1" proof_ok 130
          (running rollerAssigned BlockAssigned
             (Some (verifier_says false None)) []) = Ret None m' ∧
        failedSessionInfos m' = ∅ ∧
        status_writes 7 (orm_log m') = [BlockProved; BlockFailed].
Proof.
  pose (db := {| MemDb.rows := [(T7, BlockAssigned)]; MemDb.proofs := ∅;
                 MemDb.faults := [] |}).
  pose (db1 := {| MemDb.rows := [(T7, BlockAssigned)];
                  MemDb.proofs := {[ 7%N := ([Byte.xaa], [], 30%N) ]};
                  MemDb.faults := [] |}).
  pose (db2 := {| MemDb.rows := [(T7, BlockProved)];
                  MemDb.proofs := {[ 7%N := ([Byte.xaa], [], 30%N) ]};
                  MemDb.faults := [] |}).
  pose (db4 := {| MemDb.rows := [(T7, BlockFailed)];
                  MemDb.proofs := {[ 7%N := ([Byte.xaa], [], 30%N) ]};
                  MemDb.faults := [] |}).
  destruct (HandleZkProof_verifier_outcomes (JS:=json)
              (running rollerAssigned BlockAssigned
                 (Some (verifier_says false None)) [])
              "0xp1" proof_ok 130 msg_ok S7 rollerAssigned []
              (verifier_says false None) db db1 db2 db2 db4 T7 [] None
              false None)
    as (m' & Hrun & _ & Hlog & _ & Hfail & _).
  - reflexivity.
  - reflexivity.
  - reflexivity.
  - reflexivity.
  - discriminate.
  - reflexivity.
  - vm_compute. lia.
  - reflexivity.
  - reflexivity.
  - vm_compute. reflexivity.
  - vm_compute. reflexivity.
  - vm_compute. reflexivity.
  - reflexivity.
  - vm_compute. reflexivity.
  - exists m'. split; [exact Hrun|]. split; [exact Hfail|].
    rewrite Hlog. reflexivity.
Defined.

(** C7 at session 7 when P1 never answered: spec scenario 5. *)
Lemma CollectProofs_deadline_witness :
  ∃ m', CollectProofs_timer 7 S7 (running rollerAssigned BlockAssigned None [])
          = Ret tt m' ∧
        sessions m' !! 7%N = None ∧ status7 m' = Some BlockFailed.
Proof.
  destruct (CollectProofs_deadline
              (running rollerAssigned BlockAssigned None []) 7 S7)
    as [[[pk0 Hv] _]|[_ Hrun]].
  - change (rollers_of _ S7)
      with ({[ "0xp1" := rollerAssigned ]} : gmap string rollerStatus) in Hv.
    apply lookup_singleton_Some in Hv as [_ Hv]. discriminate.
  - cbn in Hrun. destruct Hrun as (m' & Hrun & Hs & _ & Ho & _).
    exists m'. split; [exact Hrun|]. split.
    + rewrite Hs. apply lookup_delete_eq.
    + unfold status7. rewrite Ho. reflexivity.
Defined.

Lemma reachable_w3 : reachable (JS:=json) w3.
Proof.
  eapply reach_step with (w := w2) (l := Silent).
  - eapply reach_step with (w := w1) (l := Silent).
    + eapply reach_step with (w := w0) (l := Silent).
      * apply reach_initial. repeat split.
      * eapply (h_RLock w0 0 "0xp1" proof_ok 130 msg_ok); reflexivity.
    + eapply (h_body w1 0 "0xp1" proof_ok 130 msg_ok S7 rollerAssigned
                None None true);
        first [reflexivity | discriminate | vm_compute; reflexivity].
  - eapply (h_rollback w2 0 "0xp1" proof_ok 130 msg_ok S7 None None true);
      reflexivity.
Qed.

(** C8 at the send of a handler that has taken the read lock, run the
    body and its rollback, while the collector of session 7 waits. *)
Lemma send_finds_session_witness :
  step (JS:=json) w3 (Send 0 msg_ok S7) w4 ∧
  sessions (mgr w3) !! 7%N = Some S7 ∧ writer w3 = false.
Proof.
  assert (step (JS:=json) w3 (Send 0 msg_ok S7) w4) as Hstep.
  { eapply (h_send w3 0 "0xp1" proof_ok 130 msg_ok S7 None None true);
      [reflexivity|]. vm_compute. reflexivity. }
  split; [exact Hstep|].
  destruct (send_finds_session (JS:=json) w3 w4 0 msg_ok S7 reachable_w3 Hstep)
    as (Hs & _ & Hw & _).
  split; [exact Hs|exact Hw].
Defined.

(** C9 when the connection of P1 refuses the frame. *)
Lemma StartProofGenerationSession_send_failure_witness :
  StartProofGenerationSession (TR:=wire_down) (JS:=json) T7 100
    (fresh None []) = Ret false (fresh None []) ∧
  orm_log (fresh None []) = [].
Proof.
  destruct (StartProofGenerationSession_send_failure
              (TR:=wire_down) (JS:=json)
              (fresh None []) T7 100 P1 (fresh None [])
              "websocket: close sent")
    as (Hrun & _).
  - reflexivity.
  - right. reflexivity.
  - split; [exact Hrun|reflexivity].
Defined.

(** C10 on a registry of one open, idle roller. *)
Lemma SelectRoller_terminates_witness :
  ∃ r m', SelectRoller_loop 1 [P1] (fresh None []) = Ret (Some r) m' ∧
          select_post (fresh None []) [P1] r.
Proof.
  destruct (SelectRoller_terminates (fresh None []) [P1] 1) as [H _].
  - simpl. lia.
  - exact H.
Defined.

(** ** The further properties at concrete inputs *)

Local Abbreviation assigned := (running rollerAssigned BlockAssigned None []).

Lemma addr_identifies_P2_P1 : addr_identifies [P2; P1].
Proof.
  intros x y Hx Hy Heq.
  apply elem_of_cons in Hx as [->|Hx]; apply elem_of_cons in Hy as [->|Hy];
    repeat match goal with
           | H : _ ∈ [_] |- _ => apply list_elem_of_singleton in H; subst
           end;
    first [reflexivity | discriminate].
Qed.

Lemma addr_identifies_P1 : addr_identifies [P1].
Proof.
  intros x y ->%list_elem_of_singleton ->%list_elem_of_singleton _. reflexivity.
Qed.

Lemma covered_fresh v fs : covered (fresh v fs).
Proof. intros i s. cbn. by rewrite lookup_empty. Qed.

(** X3 on a registry of a closed connection and an open one. *)
Lemma SelectRoller_registry_witness :
  ∃ r m', SelectRoller (registry [P2; P1] (fresh None [])) = Ret r m' ∧
          P1 ∈ conns m'.
Proof.
  destruct (SelectRoller_registry (registry [P2; P1] (fresh None []))
              addr_identifies_P2_P1) as (r & m' & Hrun & _ & Hkeep & _).
  exists r, m'. split; [exact Hrun|]. apply Hkeep; [|reflexivity].
  apply list_elem_of_further, list_elem_of_here.
Defined.

(** X5 at the manager with one idle roller. *)
Lemma StartProofGenerationSession_occupies_witness :
  ∃ m' roller,
    StartProofGenerationSession (TR:=wire_up) (JS:=json) T7 100
      (fresh None []) = Ret true m' ∧
    roller ∈ conns (fresh None []) ∧
    IsRollerIdle m' (PublicKey roller) = false.
Proof.
  assert (∃ m', StartProofGenerationSession (TR:=wire_up) (JS:=json) T7 100
                  (fresh None []) = Ret true m') as [m' Hrun]
    by (eexists; vm_compute; reflexivity).
  destruct (StartProofGenerationSession_occupies (TR:=wire_up) (JS:=json)
              T7 100 (fresh None []) m' Hrun)
    as (roller & s & Hin & _ & _ & _ & _ & _ & _ & Hbusy & _).
  exists m', roller. split; [exact Hrun|]. split; [exact Hin|exact Hbusy].
Defined.


(** X7 on a tick with an empty buffer. *)
Lemma Loop_tick_queries_witness :
  ∃ rest m' calls,
    Loop_tick (TR:=wire_up) (JS:=json) [] 100 (fresh None []) = Ret rest m' ∧
    orm_log m' = orm_log (fresh None []) ++ calls ∧
    ∃ rows err calls',
      calls = CallGetBlockResults [("status", FStatus BlockUnassigned)]
                ["ORDER BY number ASC LIMIT 1;"] rows err :: calls'.
Proof.
  assert (∃ rest m', Loop_tick (TR:=wire_up) (JS:=json) [] 100
                       (fresh None []) = Ret rest m') as (rest & m' & Hrun)
    by (eexists _, _; vm_compute; reflexivity).
  destruct (Loop_tick_queries (TR:=wire_up) (JS:=json)
              [] 100 (fresh None []) rest m' Hrun)
    as (calls & Hlog & rows & err & calls' & Hcalls & _).
  exists rest, m', calls. split; [exact Hrun|]. split; [exact Hlog|].
  exists rows, err, calls'. exact Hcalls.
Defined.

(** X8 on two traces and one idle roller. *)
Lemma Loop_dispatch_bound_witness :
  ∃ rest m',
    Loop_dispatch (TR:=wire_up) (JS:=json) [T7; T8] 100 (fresh None [])
      = Ret rest m' ∧
    (2 + GetNumberOfIdleRollers m'
     ≤ length rest + GetNumberOfIdleRollers (fresh None []))%nat.
Proof.
  assert (∃ rest m', Loop_dispatch (TR:=wire_up) (JS:=json) [T7; T8] 100
                       (fresh None []) = Ret rest m') as (rest & m' & Hrun)
    by (eexists _, _; vm_compute; reflexivity).
  exists rest, m'. split; [exact Hrun|].
  apply (Loop_dispatch_bound (TR:=wire_up) (JS:=json) 100 [T7; T8]
           (fresh None []) rest m').
  - apply wf_fresh.
  - exact addr_identifies_P1.
  - apply (bool_decide_unpack _). vm_compute. reflexivity.
  - intros i _. apply lookup_empty.
  - exact Hrun.
Defined.

(** X9 at session 7 without a verifier: the proof is taken as valid. *)
Lemma HandleZkProof_valid_signal_witness :
  ∃ r m',
    HandleZkProof (JS:=json) "0xp1" proof_ok 130 assigned = Ret r m' ∧
    last (orm_log m') = Some (CallUpdateBlockStatus 7 BlockVerified None) ∧
    r = None.
Proof.
  assert (∃ r m',
            HandleZkProof (JS:=json) "0xp1" proof_ok 130 assigned = Ret r m' ∧
            channels m' !! finishChan S7 =
              Some ([] ++ [{| pk := "0xp1"; status := rollerProofValid |}]))
    as (r & m' & Hrun & Hch)
    by (eexists _, _; split; [vm_compute; reflexivity|];
        vm_compute; reflexivity).
  destruct (HandleZkProof_valid_signal (JS:=json) "0xp1" proof_ok 130
              assigned r m' msg_ok S7 [] rollerProofValid Hrun)
    as [Hiff Hnil]; [reflexivity|reflexivity|reflexivity|exact Hch|].
  exists r, m'. split; [exact Hrun|].
  split; [apply Hiff; reflexivity|apply Hnil; reflexivity].
Defined.

(** X10 on a proof message for session 7. *)
Lemma HandleMessage_frame_witness :
  ∃ r m',
    HandleMessage (JS:=json) "0xp1" (Byte.x03 :: proof_ok) 130 assigned
      = Ret r m' ∧
    IsRollerIdle m' "0xp1" = IsRollerIdle assigned "0xp1".
Proof.
  assert (∃ r m', HandleMessage (JS:=json) "0xp1" (Byte.x03 :: proof_ok) 130
                    assigned = Ret r m') as (r & m' & Hrun)
    by (eexists _, _; vm_compute; reflexivity).
  destruct (HandleMessage_frame (JS:=json) "0xp1" (Byte.x03 :: proof_ok) 130
              assigned r m' Hrun) as (_ & Hidle & _).
  exists r, m'. split; [exact Hrun|apply Hidle].
Defined.

(** X11 at session 7 when the proof cannot be stored. *)
Lemma HandleZkProof_update_error_witness :
  ∃ m' e',
    HandleZkProof (JS:=json) "0xp1" proof_ok 130
      (running rollerAssigned BlockAssigned None [down]) = Ret down m' ∧
    orm_log m' = [CallUpdateProofByNumber 7 [Byte.xaa] [] 30 down;
                  CallUpdateBlockStatus 7 BlockUnassigned e'] ∧
    channels m' !! finishChan S7 =
      Some [{| pk := "0xp1"; status := rollerProofInvalid |}].
Proof.
  pose (call := CallUpdateProofByNumber 7 [Byte.xaa] [] 30 down).
  pose (calls := [call; CallUpdateBlockStatus 7 BlockUnassigned None]).
  assert (∃ r m',
            HandleZkProof (JS:=json) "0xp1" proof_ok 130
              (running rollerAssigned BlockAssigned None [down]) = Ret r m' ∧
            orm_log m' = [] ++ calls)
    as (r & m' & Hrun & Hlog)
    by (eexists _, _; split; [vm_compute; reflexivity|];
        vm_compute; reflexivity).
  destruct (HandleZkProof_update_error (JS:=json) "0xp1" proof_ok 130
              (running rollerAssigned BlockAssigned None [down]) r m' calls
              call Hrun Hlog)
    as (msg & s & buf & calls0 & e' & Hdec & Hs & Hbuf & Hcalls & _ & Hch
        & _ & _ & Hret).
  { apply list_elem_of_here. }
  { exact I. }
  injection Hdec as <-. injection Hs as <-. injection Hbuf as <-.
  rewrite (Hret eq_refl) in Hrun.
  exists m', e'. split; [exact Hrun|].
  split.
  - assert (calls0 = []) as ->.
    { apply (f_equal length) in Hcalls. rewrite length_app in Hcalls.
      destruct calls0; [reflexivity|]. simpl in Hcalls. lia. }
    rewrite Hlog. exact Hcalls.
  - rewrite Hch. apply lookup_insert_eq.
Defined.

(** X12 at session 7 when the query for the row fails. *)
Lemma HandleZkProof_no_rows_witness :
  ∃ m',
    HandleZkProof (JS:=json) "0xp1" proof_ok 130
      (running rollerAssigned BlockAssigned
         (Some (verifier_says true None)) [None; None; down]) = Ret down m' ∧
    failedSessionInfos m' = ∅.
Proof.
  edestruct (HandleZkProof_no_rows (JS:=json)
               (running rollerAssigned BlockAssigned
                  (Some (verifier_says true None)) [None; None; down])
               "0xp1" proof_ok 130 msg_ok S7 rollerAssigned []
               (verifier_says true None))
    as (m' & Hrun & _ & _ & Hfail & _).
  - reflexivity.
  - reflexivity.
  - reflexivity.
  - reflexivity.
  - discriminate.
  - reflexivity.
  - vm_compute. lia.
  - reflexivity.
  - reflexivity.
  - reflexivity.
  - reflexivity.
  - reflexivity.
  - exists m'. split; [exact Hrun|exact Hfail].
Defined.

(** X13 at session 7 when P1 reports a failure: spec scenario 2. *)
Lemma HandleZkProof_reported_failure_witness :
  ∃ m',
    HandleZkProof (JS:=json) "0xp1" proof_failed 130 assigned = Ret None m' ∧
    orm_log m' = [CallUpdateBlockStatus 7 BlockFailed None].
Proof.
  edestruct (HandleZkProof_reported_failure (JS:=json) assigned
               "0xp1" proof_failed 130 msg_failed S7 rollerAssigned [])
    as (m' & Hrun & Hlog & _).
  - reflexivity.
  - discriminate.
  - reflexivity.
  - reflexivity.
  - discriminate.
  - reflexivity.
  - vm_compute. lia.
  - reflexivity.
  - reflexivity.
  - reflexivity.
  - exists m'. split; [exact Hrun|exact Hlog].
Defined.

(** X14 at session 7 without a verifier. *)
Lemma HandleZkProof_without_verifier_witness :
  ∃ m',
    HandleZkProof (JS:=json) "0xp1" proof_ok 130 assigned = Ret None m' ∧
    channels m' !! finishChan S7 =
      Some [{| pk := "0xp1"; status := rollerProofValid |}].
Proof.
  edestruct (HandleZkProof_without_verifier (JS:=json) assigned
               "0xp1" proof_ok 130 msg_ok S7 rollerAssigned [])
    as (m' & Hrun & _ & _ & Hch).
  - reflexivity.
  - reflexivity.
  - reflexivity.
  - reflexivity.
  - discriminate.
  - reflexivity.
  - vm_compute. lia.
  - reflexivity.
  - reflexivity.
  - reflexivity.
  - reflexivity.
  - reflexivity.
  - reflexivity.
  - exists m'. split; [exact Hrun|]. rewrite Hch. apply lookup_insert_eq.
Defined.

(** X15 at session 7: the collector takes the signal, then its timer
    fires. *)
Lemma CollectProofs_receives_witness :
  ∃ b m',
    CollectProofs 7 S7 [FinishReady; TimerFired] signalled = Ret b m' ∧
    rollers_of m' S7 =
      <["0xp1" := rollerProofValid]> (rollers_of signalled S7) ∧
    channels m' !! finishChan S7 = Some [] ∧ b = true.
Proof.
  assert (∃ b m', CollectProofs 7 S7 [FinishReady; TimerFired] signalled
                  = Ret b m') as (b & m' & Hrun)
    by (eexists _, _; vm_compute; reflexivity).
  destruct (CollectProofs_receives 7 S7 [FinishReady; TimerFired] signalled
              [{| pk := "0xp1"; status := rollerProofValid |}] b m')
    as (Hr & Hc & Hb & _); [vm_compute; reflexivity|exact Hrun|].
  exists b, m'. split; [exact Hrun|]. split; [exact Hr|].
  split; [exact Hc|]. apply Hb.
  apply list_elem_of_further, list_elem_of_here.
Defined.

(** X16 at session 7 with the valid signal waiting. *)
Lemma CollectProofs_after_valid_signal_witness :
  ∃ m', CollectProofs 7 S7 [FinishReady; TimerFired] signalled = Ret true m' ∧
        orm_log m' = orm_log signalled ∧
        failedSessionInfos m' = failedSessionInfos signalled.
Proof.
  destruct (CollectProofs_after_valid_signal 7 S7 signalled "0xp1" [])
    as (m' & Hrun & _ & _ & _ & Hlog & _ & Hfail).
  - vm_compute. reflexivity.
  - exists m'. split; [exact Hrun|]. split; [exact Hlog|exact Hfail].
Defined.

(** X17 at session 7: the proof is taken as valid, the block is
    [BlockVerified], and the timer fires before the collector has
    received the signal. *)
Lemma CollectProofs_deadline_before_receive_witness :
  ∃ r m' e m'',
    HandleZkProof (JS:=json) "0xp1" proof_ok 130 assigned = Ret r m' ∧
    status7 m' = Some BlockVerified ∧
    CollectProofs 7 S7 [TimerFired] m' = Ret true m'' ∧
    orm_log m'' = orm_log m' ++ [CallUpdateBlockStatus 7 BlockFailed e].
Proof.
  assert (∃ r m',
            HandleZkProof (JS:=json) "0xp1" proof_ok 130 assigned = Ret r m' ∧
            status7 m' = Some BlockVerified) as (r & m' & Hrun & Hst)
    by (eexists _, _; split; [vm_compute; reflexivity|];
        vm_compute; reflexivity).
  destruct (CollectProofs_deadline_before_receive (JS:=json)
              "0xp1" proof_ok 130 assigned r m' msg_ok S7 Hrun)
    as (e & m'' & Hrun' & Hlog & _).
  - reflexivity.
  - reflexivity.
  - intros hexPk.
    change (rollers_of _ S7)
      with ({[ "0xp1" := rollerAssigned ]} : gmap string rollerStatus).
    intros [_ Hv]%lookup_singleton_Some. discriminate.
  - eexists. reflexivity.
  - exists r, m', e, m''. split; [exact Hrun|]. split; [exact Hst|].
    split; [exact Hrun'|exact Hlog].
Defined.

(** X18 after a tick that starts session 7. *)
Lemma sessions_have_collectors_witness :
  ∃ traces m',
    run (TR:=wire_up) (JS:=json) [OnLoop (Tick 100)] [] true (fresh None [])
      = Ret traces m' ∧
    (∃ s, sessions m' !! 7%N = Some s) ∧ covered m'.
Proof.
  assert (∃ traces m',
            run (TR:=wire_up) (JS:=json) [OnLoop (Tick 100)] [] true
              (fresh None []) = Ret traces m' ∧
            ∃ s, sessions m' !! 7%N = Some s) as (traces & m' & Hrun & Hs)
    by (eexists _, _; split; [vm_compute; reflexivity|];
        eexists; vm_compute; reflexivity).
  exists traces, m'. split; [exact Hrun|]. split; [exact Hs|].
  destruct (sessions_have_collectors (TR:=wire_up) (JS:=json)) as [_ Hstep].
  exact (Hstep _ _ _ _ _ _ Hrun (covered_fresh None [])).
Defined.

(** X21 on a backend that is started, stopped and started again. *)
Lemma Start_after_Stop_witness :
  ∃ r b' b'',
    Start None stopped = Ret r b' ∧
    Start None (Stop None b') = Ret None b'' ∧ loops b'' = 2.
Proof.
  assert (∃ r b', Start None stopped = Ret r b') as (r & b' & Hrun)
    by (eexists _, _; vm_compute; reflexivity).
  destruct (Start_after_Stop stopped r b') as (_ & _ & _ & b'' & Hrun' & _ & _ & Hl).
  - reflexivity.
  - exact Hrun.
  - exists r, b', b''. split; [exact Hrun|]. split; [exact Hrun'|exact Hl].
Defined.

Lemma reachable_wc2 : reachable (JS:=json) wc2.
Proof.
  eapply reach_step with (w := wc1) (l := Silent).
  - eapply reach_step with (w := w0) (l := Silent).
    + apply reach_initial. repeat split.
    + eapply (c_timer w0 1 7 S7). reflexivity.
  - eapply (c_timer_Lock wc1 1 7 S7); reflexivity.
Qed.

(** X22 while the collector of session 7 holds the write lock: the
    handler is not between [RLock] and [RUnlock]. *)
Lemma lock_excludes_witness :
  holds_write (TCollector 7 S7 C_timer_locked) = true ∧
  holds_read (THandler "0xp1" proof_ok 130 H_entry) = false ∧
  readers wc2 = 0.
Proof.
  destruct (lock_excludes (JS:=json) wc2 reachable_wc2) as [Hex _].
  destruct (Hex 1 (TCollector 7 S7 C_timer_locked)) as (_ & Hrd & Hothers);
    [reflexivity|reflexivity|].
  destruct (Hothers 0 (THandler "0xp1" proof_ok 130 H_entry)) as [Hr _];
    [discriminate|reflexivity|].
  split; [reflexivity|]. split; [exact Hr|exact Hrd].
Defined.

End Examples.
